(** * stress-ng: the cap, context and watchdog stressors

    A shallow embedding of [stress-cap.c], [stress-context.c] and
    [stress-watchdog.c], and the properties of the stressor contract
    that these three workloads are expected to satisfy.

    Conventions.
    - [uint64_t] values are [Z] with the wrap-around written out
      ([wrap64]); [int] file descriptors and return values are [Z].
    - What the operating system answers (system call results, signal
      arrival, the contents of /proc, the random canaries) is an
      explicit environment record handed to each workload.
    - What a workload does to the outside (messages, run-state changes,
      system calls, predicate evaluations) is appended to a log, most
      recent event last.
    - Loops that the C code may run for ever take a [fuel] argument and
      answer [None] when it runs out; every result about a returned
      value comes with a theorem that enough fuel exists.
    - Signals are asynchronous: the watchdog worker is a machine that
      executes one C statement per step, and a signal may arrive before
      any statement once the handlers are installed.
    - Wall-clock timing ([stress_time_now], [duration], the
      calls-per-second metric) is floating point and is left out. *)

From Stdlib Require Import ZArith List Bool Lia String Ascii Arith.
From Stdlib Require Import DecimalString DecimalNat.
Import ListNotations.
Open Scope Z_scope.

(* ================================================================= *)
(** ** Shared definitions (stress-ng.h) *)

Module Core.

(** Termination outcomes of a workload. *)
Inductive exit_code : Type :=
| EXIT_SUCCESS
| EXIT_FAILURE
| EXIT_NO_RESOURCE
| EXIT_NOT_IMPLEMENTED.

Definition exit_code_eqb (a b : exit_code) : bool :=
  match a, b with
  | EXIT_SUCCESS, EXIT_SUCCESS
  | EXIT_FAILURE, EXIT_FAILURE
  | EXIT_NO_RESOURCE, EXIT_NO_RESOURCE
  | EXIT_NOT_IMPLEMENTED, EXIT_NOT_IMPLEMENTED => true
  | _, _ => false
  end.

(** Run states; the workloads themselves only set [STRESS_STATE_RUN]
    and [STRESS_STATE_DEINIT]. *)
Inductive proc_state : Type :=
| STRESS_STATE_START
| STRESS_STATE_INIT
| STRESS_STATE_RUN
| STRESS_STATE_DEINIT
| STRESS_STATE_STOP.

Definition proc_state_eqb (a b : proc_state) : bool :=
  match a, b with
  | STRESS_STATE_START, STRESS_STATE_START
  | STRESS_STATE_INIT, STRESS_STATE_INIT
  | STRESS_STATE_RUN, STRESS_STATE_RUN
  | STRESS_STATE_DEINIT, STRESS_STATE_DEINIT
  | STRESS_STATE_STOP, STRESS_STATE_STOP => true
  | _, _ => false
  end.

(** The part of [stress_args_t] the three workloads read. *)
Record stress_args_t : Type := mk_args {
  name : string;
  max_ops : Z;        (* uint64_t, 0 = unbounded *)
  pid : Z;            (* pid_t *)
  instance : Z        (* uint32_t *)
}.

(** System calls that show up in the logs. *)
Inductive syscall : Type :=
| SysWrite (fd : Z)              (* write(fd, "V", 1) *)
| SysClose (fd : Z)
| SysOpen (ret : Z)              (* open(dev_watchdog, O_RDWR) and its result *)
| SysIoctl (fd : Z) (req : string)
| SysNanosleep
| SysSchedYield
| SysCapget (version : Z) (pid : Z)
| SysCapset (version : Z) (pid : Z)
| SysMunmap.

(** Observable actions of a workload. *)
Inductive event : Type :=
| EvState (s : proc_state)                 (* stress_set_proc_state *)
| EvFail (who : string) (what : string)    (* pr_fail("%s: ...", args->name) *)
| EvInf (who : string) (what : string)     (* pr_inf *)
| EvInfSkip (who : string) (what : string) (* pr_inf_skip *)
| EvCheck (result : bool)                  (* the keep-running predicate was evaluated *)
| EvInc                                    (* inc_counter *)
| EvSetCounter (v : Z)                     (* set_counter *)
| EvMetric (what : string)                 (* stress_metrics_set *)
| EvSys (c : syscall).

Definition is_state (s : proc_state) (e : event) : bool :=
  match e with EvState s' => proc_state_eqb s s' | _ => false end.

Definition is_check (e : event) : bool :=
  match e with EvCheck _ => true | _ => false end.

Definition is_inc (e : event) : bool :=
  match e with EvInc => true | _ => false end.

Definition is_set_counter (e : event) : bool :=
  match e with EvSetCounter _ => true | _ => false end.

Definition is_fail (e : event) : bool :=
  match e with EvFail _ _ => true | _ => false end.

Definition count (p : event -> bool) (l : list event) : nat :=
  List.length (List.filter p l).

Definition entered (s : proc_state) (l : list event) : bool :=
  List.existsb (is_state s) l.

(** 64-bit unsigned arithmetic. *)
Definition wrap64 (z : Z) : Z := z mod 2 ^ 64.

(** 32-bit signed truncation, the [(pid_t)] cast. *)
Definition wrap_int32 (z : Z) : Z := (z + 2 ^ 31) mod 2 ^ 32 - 2 ^ 31.

(** C truth values: [!x] and the test of a condition. *)
Definition c_lnot (x : Z) : bool := x =? 0.

(** Modelled from the spec: the macro [keep_stressing(args)] of
    stress-ng.h is not part of the sources at hand. The spec gives it as
    flag == true AND (ceiling == 0 OR counter < ceiling). *)
Definition keep_stressing (flag : bool) (ceiling counter : Z) : bool :=
  flag && ((ceiling =? 0) || (counter <? ceiling)).

(** Modelled from the spec: [stress_unimplemented], the stub workload
    of stress-ng.h/core, which immediately returns NOT_IMPLEMENTED. *)
Definition stress_unimplemented (_ : stress_args_t) : exit_code :=
  EXIT_NOT_IMPLEMENTED.

(** Modelled from the spec: the orchestrator's failure accounting, which
    is not part of the sources at hand. The overall run fails exactly
    when at least one worker reported FAILURE; NO_RESOURCE and
    NOT_IMPLEMENTED workers are skipped. *)
Definition counts_as_failure (rc : exit_code) : bool :=
  exit_code_eqb rc EXIT_FAILURE.

Definition run_failed (outcomes : list exit_code) : bool :=
  List.existsb counts_as_failure outcomes.

End Core.
Import Core.

(* ================================================================= *)
(** ** The contract in the words of the specification *)

Module Contract.

(** The keep-running predicate as the specification words it:
    flag == true AND (ceiling == 0 OR counter < ceiling). *)
Definition keep_running_spec (flag : bool) (ceiling counter : Z) : Prop :=
  flag = true /\ (ceiling = 0 \/ counter < ceiling).

(** Reading a log from the left: [Some pending] when no two increments
    of the operation counter follow each other without an evaluation of
    the keep-running predicate between them; [pending] tells whether an
    increment is still waiting for its evaluation. *)
Definition scan_step (acc : option bool) (ev : event) : option bool :=
  match acc with
  | None => None
  | Some pending =>
    match ev with
    | EvInc => if pending then None else Some true
    | EvCheck _ => Some false
    | _ => Some pending
    end
  end.

Definition scan (from : option bool) (l : list event) : option bool :=
  List.fold_left scan_step l from.

Definition checked_between_units (l : list event) : Prop :=
  exists pending, scan (Some false) l = Some pending.

(** The log shows RUN and, later, DEINIT. *)
Fixpoint deinit_after_run (l : list event) : bool :=
  match l with
  | [] => false
  | EvState STRESS_STATE_RUN :: l' => entered STRESS_STATE_DEINIT l'
  | _ :: l' => deinit_after_run l'
  end.

(** What starts or counts a unit of work: an increment of the
    operation counter, an open of the device, a request to it, a
    capability call. Writes and closes also belong to the cleanup. *)
Definition is_work (ev : event) : bool :=
  match ev with
  | EvInc
  | EvSys (SysOpen _) | EvSys (SysIoctl _ _)
  | EvSys (SysCapget _ _) | EvSys (SysCapset _ _) => true
  | _ => false
  end.

(** What an event does to the operation counter, to the number of
    evaluations made, and to whether the last evaluation said stop. *)
Definition counter_step (cnt : Z) (ev : event) : Z :=
  match ev with EvInc => wrap64 (cnt + 1) | _ => cnt end.

Definition checks_step (k : nat) (ev : event) : nat :=
  match ev with EvCheck _ => S k | _ => k end.

Definition stopped_step (stopped : bool) (ev : event) : bool :=
  match ev with EvCheck r => negb r | _ => stopped end.

Definition counter_after (l : list event) (cnt : Z) : Z :=
  List.fold_left counter_step l cnt.

Definition checks_after (l : list event) (k : nat) : nat :=
  List.fold_left checks_step l k.

Definition stopped_after (l : list event) (stopped : bool) : bool :=
  List.fold_left stopped_step l stopped.

(** Replaying a log from the left, with the counter [cnt] and the
    number [k] of evaluations so far: every evaluation in the log
    answers as [ok] demands of its number, its result and the counter
    as it stands, and no work is started while the last evaluation said
    stop. *)
Fixpoint replay (ok : nat -> bool -> Z -> Prop) (l : list event)
         (cnt : Z) (k : nat) (stopped : bool) : Prop :=
  match l with
  | [] => True
  | ev :: l' =>
    (is_work ev = true -> stopped = false) /\
    (forall r, ev = EvCheck r -> ok k r cnt) /\
    replay ok l' (counter_step cnt ev) (checks_step k ev) (stopped_step stopped ev)
  end.

(** The log of a loop that is governed by the keep-running predicate:
    its k-th evaluation answers true exactly when the predicate holds of
    the flag as read then, the ceiling and the counter as it stands, and
    after an evaluation that answered false no work is started before
    one that answers true. *)
Definition governed (flag : nat -> bool) (ceiling : Z) (l : list event) : Prop :=
  replay (fun k r cnt => r = true <-> keep_running_spec (flag k) ceiling cnt)
         l 0 0 false.

(** The second half alone: an evaluation that answered false is
    heeded. *)
Definition heeded (l : list event) : Prop :=
  replay (fun _ _ _ => True) l 0 0 false.

(** When the flag is not known: an evaluation answers true only below
    the ceiling (or without one), and one that answered false is
    heeded. *)
Definition capped (ceiling : Z) (l : list event) : Prop :=
  replay (fun _ r cnt => r = true -> ceiling = 0 \/ cnt < ceiling) l 0 0 false.

Definition is_close_of (fd : Z) (ev : event) : bool :=
  match ev with EvSys (SysClose fd') => fd =? fd' | _ => false end.

Definition is_open_of (fd : Z) (ev : event) : bool :=
  match ev with EvSys (SysOpen fd') => fd =? fd' | _ => false end.

End Contract.

(* ================================================================= *)
(** ** stress-context.c *)

Module Context.

Definition STRESS_CONTEXTS : nat := 3.

(** The canaries of one [context_data_t]: [cu.check0], [cu.check1]
    around the saved [ucontext_t] and their copies in [canary]. *)
Record context_data_t : Type := mk_ctx {
  cu_check0 : Z;
  cu_check1 : Z;
  canary_check0 : Z;
  canary_check1 : Z
}.

(** The three micro-threads. *)
Inductive tid : Type := T1 | T2 | T3.

(** [stress_thread1] swaps to context[1], [stress_thread2] to
    context[2], [stress_thread3] to context[0]. *)
Definition swap_target (t : tid) : tid :=
  match t with T1 => T2 | T2 => T3 | T3 => T1 end.

(** Where a context resumes: a context fresh from [makecontext] starts
    the function, that is the body of its do-while; a context saved by
    a successful [swapcontext] resumes behind that call, at the
    while-condition. *)
Inductive point : Type := AtBody | AtCond.

Record env : Type := mk_env {
  mmap_ok : bool;                (* mmap did not return MAP_FAILED *)
  getcontext_ok : nat -> bool;   (* getcontext for context[i] succeeded *)
  mwc32 : nat -> Z;              (* n-th value drawn from stress_mwc32 *)
  main_swap_ok : bool;           (* swapcontext(&uctx_main, &context[0]) *)
  thread_swap_ok : nat -> bool;  (* n-th swapcontext issued inside a thread's loop *)
  flag : nat -> bool;            (* keep_stressing_flag() at its n-th call *)
  clobber : nat -> context_data_t -> context_data_t
                                 (* what the run did to context[i]'s canaries *)
}.

(** The file-scope variables the micro-threads share. *)
Record threads : Type := mk_threads {
  context_counter : Z;
  saved1 : point;   (* context[0].d.cu.uctx *)
  saved2 : point;   (* context[1].d.cu.uctx *)
  saved3 : point;   (* context[2].d.cu.uctx *)
  nswap : nat;      (* swapcontext calls issued by the micro-threads *)
  ncheck : nat      (* evaluations of the while-condition *)
}.

Definition saved (s : threads) (t : tid) : point :=
  match t with T1 => saved1 s | T2 => saved2 s | T3 => saved3 s end.

Definition save (t : tid) (p : point) (s : threads) : threads :=
  match t with
  | T1 => mk_threads (context_counter s) p (saved2 s) (saved3 s) (nswap s) (ncheck s)
  | T2 => mk_threads (context_counter s) (saved1 s) p (saved3 s) (nswap s) (ncheck s)
  | T3 => mk_threads (context_counter s) (saved1 s) (saved2 s) p (nswap s) (ncheck s)
  end.

(** [context_counter++] followed by the bookkeeping of one swapcontext
    call. *)
Definition bump (s : threads) : threads :=
  mk_threads (wrap64 (context_counter s + 1)) (saved1 s) (saved2 s) (saved3 s)
             (S (nswap s)) (ncheck s).

Definition checked (s : threads) : threads :=
  mk_threads (context_counter s) (saved1 s) (saved2 s) (saved3 s)
             (nswap s) (S (ncheck s)).

(** The while-condition of the three thread functions:
    [keep_stressing_flag() && (!stress_max_ops ||
                               (context_counter < stress_max_ops))]. *)
Definition thread_cond (flag : bool) (stress_max_ops counter : Z) : bool :=
  flag && (c_lnot stress_max_ops || (counter <? stress_max_ops)).

(** The micro-threads from the moment [cur] holds the processor at
    [p], until one of them leaves its loop and hands control back to
    [uctx_main] (by its final swapcontext or, should that fail, through
    [uc_link] when the function returns). *)
Fixpoint run_threads (e : env) (stress_max_ops : Z) (fuel : nat)
         (cur : tid) (p : point) (s : threads) : option threads :=
  match fuel with
  | O => None
  | S fuel' =>
    match p with
    | AtBody =>
      let s1 := bump s in
      if thread_swap_ok e (nswap s)
      then run_threads e stress_max_ops fuel'
                       (swap_target cur) (saved s1 (swap_target cur))
                       (save cur AtCond s1)
      else run_threads e stress_max_ops fuel' cur AtCond s1
    | AtCond =>
      if thread_cond (flag e (ncheck s)) stress_max_ops (context_counter s)
      then run_threads e stress_max_ops fuel' cur AtBody (checked s)
      else Some (checked s)
    end
  end.

(** What [stress_context] leaves behind. *)
Record state : Type := mk_state {
  counter : Z;            (* the worker's bogo-op counter *)
  log : list event;
  threads_end : option threads
}.

Definition init_state : state := mk_state 0 [] None.

Definition emit (ev : event) (st : state) : state :=
  mk_state (counter st) (log st ++ [ev]) (threads_end st).

(** Modelled from the spec: [set_counter] of stress-ng.h, which stores
    [v] in the worker's own 64-bit operation counter. *)
Definition set_counter (v : Z) (st : state) : state :=
  mk_state v (log st ++ [EvSetCounter v]) (threads_end st).

(** [stress_context_init] for context[i]: [None] when getcontext fails. *)
Definition stress_context_init (e : env) (i : nat) : option context_data_t :=
  if getcontext_ok e i then
    let c0 := mwc32 e (2 * i) in
    let c1 := mwc32 e (2 * i + 1) in
    Some (mk_ctx c0 c1 c0 c1)
  else None.

(** The loop creating the micro-threads, stopping at the first failure. *)
Fixpoint init_contexts (e : env) (i n : nat) : option (list context_data_t) :=
  match n with
  | O => Some []
  | S n' =>
    match stress_context_init e i with
    | None => None
    | Some c =>
      match init_contexts e (S i) n' with
      | None => None
      | Some cs => Some (c :: cs)
      end
    end
  end.

(** The canary checks on one context after the run. *)
Definition check_canary (who : string) (c : context_data_t) : list event :=
  (if canary_check0 c =? cu_check0 c then []
   else [EvFail who "swapcontext clobbered data before context region"])
  ++
  (if canary_check1 c =? cu_check1 c then []
   else [EvFail who "swapcontext clobbered data after context region"]).

Definition check_canaries (who : string) (cs : list context_data_t) : list event :=
  List.flat_map (check_canary who) cs.

Fixpoint clobber_all (e : env) (i : nat) (cs : list context_data_t)
  : list context_data_t :=
  match cs with
  | [] => []
  | c :: cs' => clobber e i c :: clobber_all e (S i) cs'
  end.

Definition emit_all (evs : list event) (st : state) : state :=
  mk_state (counter st) (log st ++ evs) (threads_end st).

Definition scaled_ceiling (a : stress_args_t) : Z := wrap64 (max_ops a * 1000).

Definition threads0 : threads := mk_threads 0 AtBody AtBody AtBody 0 0.

(** [stress_context]. [None]: the micro-threads were still running when
    the fuel ran out. *)
Definition stress_context (e : env) (fuel : nat) (a : stress_args_t)
           (st : state) : option (exit_code * state) :=
  if negb (mmap_ok e) then
    Some (EXIT_NO_RESOURCE,
          emit (EvInf (name a)
                  "failed to allocate %d x %zd byte context buffers, skipping stressor")
               st)
  else
    let stress_max_ops := scaled_ceiling a in
    match init_contexts e 0 STRESS_CONTEXTS with
    | None =>
      Some (EXIT_FAILURE,
            emit (EvSys SysMunmap) (emit (EvFail (name a) "getcontext failed") st))
    | Some cs =>
      let st1 := emit (EvState STRESS_STATE_RUN) st in
      if negb (main_swap_ok e) then
        Some (EXIT_FAILURE,
              emit (EvSys SysMunmap) (emit (EvFail (name a) "swapcontext failed") st1))
      else
        match run_threads e stress_max_ops fuel T1 AtBody threads0 with
        | None => None
        | Some th =>
          let st2 := set_counter (context_counter th / 1000) st1 in
          let st3 := emit_all (check_canaries (name a) (clobber_all e 0 cs)) st2 in
          let st4 := emit (EvState STRESS_STATE_DEINIT) st3 in
          let st5 := emit (EvMetric "swapcontext calls per sec") st4 in
          Some (EXIT_SUCCESS,
                mk_state (counter st5) (log st5 ++ [EvSys SysMunmap]) (Some th))
        end
    end.

(** The contexts as the canary checks find them after the run. *)
Definition contexts_after (e : env) : option (list context_data_t) :=
  match init_contexts e 0 STRESS_CONTEXTS with
  | Some cs => Some (clobber_all e 0 cs)
  | None => None
  end.

(** Both canaries of a context still equal their copies. *)
Definition intact (c : context_data_t) : bool :=
  (canary_check0 c =? cu_check0 c) && (canary_check1 c =? cu_check1 c).

(** Everything before the micro-threads start went well. *)
Definition setup_ok (e : env) : Prop :=
  mmap_ok e = true /\ (forall i, getcontext_ok e i = true) /\ main_swap_ok e = true.

Definition tid_eqb (a b : tid) : bool :=
  match a, b with
  | T1, T1 | T2, T2 | T3, T3 => true
  | _, _ => false
  end.

(** 1 when thread [t] has not been started yet and is not the running
    thread [cur]. *)
Definition waiting (t cur : tid) (s : threads) : Z :=
  if tid_eqb t cur then 0
  else match saved s t with AtBody => 1 | AtCond => 0 end.

Definition unstarted (cur : tid) (s : threads) : Z :=
  waiting T1 cur s + waiting T2 cur s + waiting T3 cur s.

(** The invariant behind the window: the counter is at most the
    ceiling plus one for every thread of the other two that has already
    made its unconditional first pass. *)
Definition within (M : Z) (cur : tid) (p : point) (s : threads) : Prop :=
  0 <= context_counter s /\
  match p with
  | AtBody => context_counter s + 1 <= M + 2 - unstarted cur s
  | AtCond => context_counter s <= M + 2 - unstarted cur s
  end.

(** Every pass through a loop body, the first of each thread apart, is
    preceded by an evaluation of the while-condition. *)
Definition evaluated (cur : tid) (p : point) (s : threads) : Prop :=
  0 <= context_counter s /\
  context_counter s + (match p with AtBody => 1 | AtCond => 0 end)
    <= Z.of_nat (ncheck s) + 3 - unstarted cur s.

End Context.

(* ================================================================= *)
(** ** stress-cap.c *)

Module Cap.

Definition _LINUX_CAPABILITY_VERSION_1 : Z := 0x19980330.
Definition _LINUX_CAPABILITY_VERSION_2 : Z := 0x20071026.
Definition _LINUX_CAPABILITY_VERSION_3 : Z := 0x20080522.
Definition ESRCH : Z := 3.
Definition INT_MIN : Z := - 2 ^ 31.
Definition UINT_MAX : Z := 2 ^ 32 - 1.   (* ~0U *)
Definition INTMAX_MAX : Z := 2 ^ 63 - 1.

Record env : Type := mk_env {
  flag : nat -> bool;          (* keep_stressing_flag() at its n-th call *)
  sys_ret : nat -> Z * Z;      (* (ret, errno) of the n-th capget/capset *)
  getppid : Z;
  unused_pid : nat -> Z;       (* stress_get_unused_pid_racy, n-th call *)
  proc_dir : nat -> option (list string)
    (* opendir("/proc") in the n-th pass of the outer loop: [None] when it
       fails, else the d_name of every entry readdir returns *)
}.

Record state : Type := mk_state {
  counter : Z;      (* the worker's bogo-op counter, uint64_t *)
  log : list event;
  nsys : nat;       (* capget/capset calls so far *)
  ncheck : nat;     (* keep_stressing evaluations so far *)
  nunused : nat     (* stress_get_unused_pid_racy calls so far *)
}.

Definition init_state : state := mk_state 0 [] 0 0 0.

Definition emit (ev : event) (st : state) : state :=
  mk_state (counter st) (log st ++ [ev]) (nsys st) (ncheck st) (nunused st).

(** One capget or capset: the environment's answer and the new state. *)
Definition sys (e : env) (c : syscall) (st : state) : (Z * Z) * state :=
  (sys_ret e (nsys st),
   mk_state (counter st) (log st ++ [EvSys c]) (S (nsys st)) (ncheck st) (nunused st)).

Definition stress_get_unused_pid_racy (e : env) (st : state) : Z * state :=
  (unused_pid e (nunused st),
   mk_state (counter st) (log st) (nsys st) (ncheck st) (S (nunused st))).

(** Modelled from the spec: [inc_counter] of stress-ng.h, one increment
    of the worker's own 64-bit operation counter. *)
Definition inc_counter (st : state) : state :=
  mk_state (wrap64 (counter st + 1)) (log st ++ [EvInc]) (nsys st) (ncheck st)
           (nunused st).

(** [keep_stressing(args)] at a call site: reads the flag, compares the
    counter with the ceiling, and is recorded in the log. *)
Definition keep (e : env) (a : stress_args_t) (st : state) : bool * state :=
  let r := keep_stressing (flag e (ncheck st)) (max_ops a) (counter st) in
  (r, mk_state (counter st) (log st ++ [EvCheck r]) (nsys st) (S (ncheck st))
               (nunused st)).

(** The test guarding both pr_fail calls:
    [((errno == ESRCH) && exists) || (errno != ESRCH)]. *)
Definition report_failure (errno : Z) (exists_ : bool) : bool :=
  ((errno =? ESRCH) && exists_) || negb (errno =? ESRCH).

Definition fail_if_unexpected (a : stress_args_t) (r : Z * Z) (exists_ : bool)
           (st : state) : state :=
  if (fst r <? 0) && report_failure (snd r) exists_
  then emit (EvFail (name a) "capget on pid failed") st
  else st.

(** [stress_capgetset_pid]: the value of the last capget and the state. *)
Definition stress_capgetset_pid (e : env) (a : stress_args_t)
           (pid : Z) (do_set exists_ : bool) (st : state) : Z * state :=
  let v3 := _LINUX_CAPABILITY_VERSION_3 in
  let '(r, st) := sys e (SysCapget v3 pid) st in
  let st := fail_if_unexpected a r exists_ st in
  let st :=
    if do_set then
      let '(r, st) := sys e (SysCapset v3 pid) st in
      let st := fail_if_unexpected a r exists_ st in
      let '(_, st) := sys e (SysCapset v3 INT_MIN) st in
      let '(_, st) := sys e (SysCapset 0x1234dead pid) st in
      st
    else st in
  let '(_, st) := sys e (SysCapget 0x1234dead pid) st in
  let '(_, st) := sys e (SysCapget v3 (wrap_int32 (- pid))) st in
  let '(u, st) := stress_get_unused_pid_racy e st in
  let '(_, st) := sys e (SysCapget v3 u) st in
  let '(_, st) := sys e (SysCapget _LINUX_CAPABILITY_VERSION_2 pid) st in
  let '(_, st) := sys e (SysCapget _LINUX_CAPABILITY_VERSION_1 pid) st in
  let '(r, st) := sys e (SysCapget UINT_MAX pid) st in
  (fst r, inc_counter st).

Definition isdigit (c : ascii) : bool :=
  let n := nat_of_ascii c in (48 <=? n)%nat && (n <=? 57)%nat.

Definition digit_val (c : ascii) : Z := Z.of_nat (nat_of_ascii c) - 48.

Fixpoint scan_digits (s : string) (acc : Z) : Z :=
  match s with
  | String c s' => if isdigit c then scan_digits s' (acc * 10 + digit_val c) else acc
  | EmptyString => acc
  end.

(** [sscanf(d_name, "%jd", &p)] on the names that reach it: the guard
    before it lets through only names whose first character is a digit,
    and there the conversion reads the leading run of digits into an
    [intmax_t], which holds at most [INTMAX_MAX]: a longer run of digits
    is stored as [INTMAX_MAX]. [None] stands for a return value other
    than 1. *)
Definition sscanf_intmax (s : string) : option Z :=
  match s with
  | String c _ =>
    if isdigit c then Some (Z.min (scan_digits s 0) INTMAX_MAX) else None
  | EmptyString => None
  end.

(** [d->d_name[0]]; the terminating NUL for an empty name. *)
Definition first_char (s : string) : ascii :=
  match s with String c _ => c | EmptyString => zero end.

(** The readdir loop over /proc. *)
Fixpoint readdir_loop (e : env) (a : stress_args_t) (ents : list string)
         (st : state) : state :=
  match ents with
  | [] => st
  | d :: rest =>
    if negb (isdigit (first_char d)) then readdir_loop e a rest st
    else
      match sscanf_intmax d with
      | None => readdir_loop e a rest st
      | Some p =>
        let '(_, st1) := stress_capgetset_pid e a (wrap_int32 p) false false st in
        let '(k, st2) := keep e a st1 in
        if k then readdir_loop e a rest st2 else st2
      end
  end.

(** One pass through the body of the do-while loop of [stress_cap],
    up to and including the decision to go round again: the three
    [break]s answer [false], the end of the body answers the
    while-condition. *)
Definition cap_pass (e : env) (a : stress_args_t) (pass : nat) (st : state)
  : bool * state :=
  let '(_, st) := stress_capgetset_pid e a 1 false true st in
  let '(k, st) := keep e a st in
  if negb k then (false, st) else
  let '(_, st) := stress_capgetset_pid e a (pid a) true true st in
  let '(k, st) := keep e a st in
  if negb k then (false, st) else
  let '(_, st) := stress_capgetset_pid e a (getppid e) false false st in
  let '(k, st) := keep e a st in
  if negb k then (false, st) else
  let st :=
    match proc_dir e pass with
    | Some ents => readdir_loop e a ents st
    | None => st
    end in
  keep e a st.

(** The do-while loop; [pass] counts its iterations. *)
Fixpoint cap_loop (e : env) (a : stress_args_t) (fuel pass : nat)
         (st : state) : option state :=
  match fuel with
  | O => None
  | S fuel' =>
    let '(again, st) := cap_pass e a pass st in
    if again then cap_loop e a fuel' (S pass) st else Some st
  end.

(** [stress_cap]. *)
Definition stress_cap (e : env) (fuel : nat) (a : stress_args_t) (st : state)
  : option (exit_code * state) :=
  let st := emit (EvState STRESS_STATE_RUN) st in
  match cap_loop e a fuel 0 st with
  | None => None
  | Some st => Some (EXIT_SUCCESS, emit (EvState STRESS_STATE_DEINIT) st)
  end.

(** The capget with version [~0U] closes every probe. *)
Definition is_probe_end (ev : event) : bool :=
  match ev with
  | EvSys (SysCapget v _) => v =? UINT_MAX
  | _ => false
  end.

(** The events of one probe: system calls and failure messages, closed
    by the one increment of the counter. *)
Definition probe_events (d : list event) : Prop :=
  count is_inc d = 1%nat /\
  count is_probe_end d = 1%nat /\
  count is_check d = 0%nat /\
  Contract.scan (Some false) d = Some true /\
  forall s, entered s d = false.

(** Stretches of the log made of whole probes, each followed by its
    evaluation of the keep-running predicate. *)
Definition calm (d : list event) : Prop :=
  count is_inc d = count is_probe_end d /\
  (count is_inc d <= count is_check d)%nat /\
  Contract.scan (Some false) d = Some false /\
  forall s, entered s d = false.

(** Events that neither count nor evaluate: system calls and failure
    messages. *)
Definition silent_event (ev : event) : bool :=
  match ev with EvSys _ | EvFail _ _ => true | _ => false end.

Definition silent (d : list event) : Prop := List.forallb silent_event d = true.

(** [st'] is [st] after [n] closing capgets among silent events, the
    counter untouched. *)
Definition after (n : nat) (st st' : state) : Prop :=
  counter st' = counter st /\ ncheck st' = ncheck st /\
  exists d, log st' = log st ++ d /\ silent d /\ count is_probe_end d = n.

End Cap.

(* ================================================================= *)
(** ** stress-watchdog.c *)

Module Watchdog.

Definition ENOENT : Z := 2.
Definition dev_watchdog : string := "/dev/watchdog"%string.

(** What can arrive between two statements of the worker: nothing, one
    of the signals of [sigs] whose handler is already
    [stress_watchdog_handler], or a stop request that clears the
    keep-stressing flag from elsewhere in the process. *)
Inductive async_event : Type := Quiet | Signal | Stop.

Record env : Type := mk_env {
  nsigs : nat;                 (* SIZEOF_ARRAY(sigs) on this platform *)
  sighandler_ret : nat -> Z;   (* stress_sighandler for sigs[i] *)
  access_ret : Z;              (* access(dev_watchdog, R_OK | W_OK) *)
  access_errno : Z;
  open_ret : nat -> Z;         (* n-th open(dev_watchdog, O_RDWR) *)
  close_ret : nat -> Z;        (* n-th close *)
  async : nat -> async_event   (* what arrives before the n-th statement *)
}.

(** Program points, named after the line of stress-watchdog.c that is
    about to execute. Each simple statement is one step; a call of
    [stress_watchdog_magic_close] is one step. *)
Inductive point : Type :=
| L106                 (* fd = -1 *)
| L108 (i : nat)       (* for (...; i < SIZEOF_ARRAY(sigs); ...) stress_sighandler *)
| L118                 (* if (access(...) < 0) *)
| L132                 (* fd = 0 *)
| L133                 (* ret = sigsetjmp(jmp_env, 1), direct call *)
| L136                 (* resumed through siglongjmp: if (fd >= 0) *)
| L137                 (* stress_watchdog_magic_close() *)
| L138                 (* (void)close(fd) *)
| L140                 (* return EXIT_SUCCESS *)
| L143                 (* stress_set_proc_state(STRESS_STATE_RUN) *)
| L145                 (* while (keep_stressing(args)) *)
| L146                 (* fd = open(dev_watchdog, O_RDWR) *)
| L149                 (* if (fd < 0) *)
| L154                 (* nanosleep; continue *)
| L158                 (* stress_watchdog_magic_close() *)
| L161 (k : nat)       (* the k-th of the eight ioctl blocks *)
| L235                 (* stress_watchdog_magic_close() *)
| L236                 (* ret = close(fd) *)
| L237                 (* fd = -1 *)
| L238                 (* if (ret < 0) *)
| L239                 (* pr_fail; rc = EXIT_FAILURE; break *)
| L244                 (* shim_sched_yield() *)
| L245                 (* inc_counter(args) *)
| L248                 (* stress_set_proc_state(STRESS_STATE_DEINIT) *)
| L250                 (* return rc *)
| H87                  (* handler: stress_watchdog_magic_close() *)
| H90                  (* handler: keep_stressing_set_flag(false) *)
| H93                  (* handler: siglongjmp(jmp_env, 1) *)
| Returned (r : exit_code)   (* stress_watchdog has returned r *)
| Undefined.           (* siglongjmp through a jmp_env that was never set *)

Record config : Type := mk_config {
  pc : point;
  fd : Z;                (* static int fd *)
  keep_flag : bool;      (* the keep-stressing flag of the process *)
  counter : Z;           (* the worker's bogo-op counter *)
  rc : exit_code;
  ret : Z;
  jmp_set : bool;        (* sigsetjmp has filled jmp_env *)
  log : list event;
  nopen : nat;           (* open calls so far *)
  nclose : nat;          (* close calls so far *)
  clock : nat            (* statements executed so far *)
}.

Definition init_config : config :=
  mk_config L106 0 true 0 EXIT_SUCCESS 0 false [] 0 0 0.

Definition goto (p : point) (c : config) : config :=
  mk_config p (fd c) (keep_flag c) (counter c) (rc c) (ret c) (jmp_set c)
            (log c) (nopen c) (nclose c) (clock c).

Definition set_fd (v : Z) (c : config) : config :=
  mk_config (pc c) v (keep_flag c) (counter c) (rc c) (ret c) (jmp_set c)
            (log c) (nopen c) (nclose c) (clock c).

Definition set_flag (b : bool) (c : config) : config :=
  mk_config (pc c) (fd c) b (counter c) (rc c) (ret c) (jmp_set c)
            (log c) (nopen c) (nclose c) (clock c).

Definition set_rc (r : exit_code) (c : config) : config :=
  mk_config (pc c) (fd c) (keep_flag c) (counter c) r (ret c) (jmp_set c)
            (log c) (nopen c) (nclose c) (clock c).

Definition set_ret (v : Z) (c : config) : config :=
  mk_config (pc c) (fd c) (keep_flag c) (counter c) (rc c) v (jmp_set c)
            (log c) (nopen c) (nclose c) (clock c).

Definition arm_jmp (c : config) : config :=
  mk_config (pc c) (fd c) (keep_flag c) (counter c) (rc c) (ret c) true
            (log c) (nopen c) (nclose c) (clock c).

Definition emit (ev : event) (c : config) : config :=
  mk_config (pc c) (fd c) (keep_flag c) (counter c) (rc c) (ret c) (jmp_set c)
            (log c ++ [ev]) (nopen c) (nclose c) (clock c).

Definition tick (c : config) : config :=
  mk_config (pc c) (fd c) (keep_flag c) (counter c) (rc c) (ret c) (jmp_set c)
            (log c) (nopen c) (nclose c) (S (clock c)).

(** Modelled from the spec: [inc_counter] of stress-ng.h, one increment
    of the worker's own 64-bit operation counter. *)
Definition inc_counter (c : config) : config :=
  mk_config (pc c) (fd c) (keep_flag c) (wrap64 (counter c + 1)) (rc c) (ret c)
            (jmp_set c) (log c ++ [EvInc]) (nopen c) (nclose c) (clock c).

(** [stress_watchdog_magic_close]: write "V" when a descriptor is held. *)
Definition stress_watchdog_magic_close (c : config) : config :=
  if 0 <=? fd c then emit (EvSys (SysWrite (fd c))) c else c.

(** [fd = open(dev_watchdog, O_RDWR)]. *)
Definition do_open (e : env) (c : config) : config :=
  let v := open_ret e (nopen c) in
  mk_config (pc c) v (keep_flag c) (counter c) (rc c) (ret c) (jmp_set c)
            (log c ++ [EvSys (SysOpen v)]) (S (nopen c)) (nclose c) (clock c).

(** [close(fd)] and its result. *)
Definition do_close (e : env) (c : config) : Z * config :=
  (close_ret e (nclose c),
   mk_config (pc c) (fd c) (keep_flag c) (counter c) (rc c) (ret c) (jmp_set c)
             (log c ++ [EvSys (SysClose (fd c))]) (nopen c) (S (nclose c)) (clock c)).

(** The requests of the eight ioctl blocks, in source order; the block
    guarded by WDIOC_GETPRETIMEOUT a second time asks for
    WDIOC_GETTIMELEFT and the block guarded by WDIOC_GETTEMP asks for
    WDIOC_GETBOOTSTATUS. *)
Definition ioctl_requests : list string :=
  [ "WDIOC_KEEPALIVE"; "WDIOC_GETTIMEOUT"; "WDIOC_GETPRETIMEOUT";
    "WDIOC_GETTIMELEFT"; "WDIOC_GETSUPPORT"; "WDIOC_GETSTATUS";
    "WDIOC_GETBOOTSTATUS"; "WDIOC_GETBOOTSTATUS" ]%string.

(** The message of the access check, emitted by instance 0 only. *)
Definition skip_message (e : env) : string :=
  if access_errno e =? ENOENT
  then "/dev/watchdog does not exist, skipping test"%string
  else "cannot access /dev/watchdog, skipping test"%string.

(** The statement at the current program point. *)
Definition exec (e : env) (a : stress_args_t) (c : config) : config :=
  match pc c with
  | L106 => goto (L108 0) (set_fd (-1) c)
  | L108 i =>
    if (i <? nsigs e)%nat then
      if sighandler_ret e i <? 0 then goto (Returned EXIT_FAILURE) c
      else goto (L108 (S i)) c
    else goto L118 c
  | L118 =>
    if access_ret e <? 0 then
      goto (Returned EXIT_SUCCESS)
           (if instance a =? 0 then emit (EvInfSkip (name a) (skip_message e)) c
            else c)
    else goto L132 c
  | L132 => goto L133 (set_fd 0 c)
  | L133 => goto L143 (set_ret 0 (arm_jmp c))
  | L136 => if 0 <=? fd c then goto L137 c else goto L140 c
  | L137 => goto L138 (stress_watchdog_magic_close c)
  | L138 => goto L140 (snd (do_close e c))
  | L140 => goto (Returned EXIT_SUCCESS) c
  | L143 => goto L145 (emit (EvState STRESS_STATE_RUN) c)
  | L145 =>
    let r := keep_stressing (keep_flag c) (max_ops a) (counter c) in
    goto (if r then L146 else L248) (emit (EvCheck r) c)
  | L146 => goto L149 (do_open e c)
  | L149 => if fd c <? 0 then goto L154 c else goto L158 c
  | L154 => goto L145 (emit (EvSys SysNanosleep) c)
  | L158 => goto (L161 0) (stress_watchdog_magic_close c)
  | L161 k =>
    goto (if (S k <? List.length ioctl_requests)%nat then L161 (S k) else L235)
         (emit (EvSys (SysIoctl (fd c) (List.nth k ioctl_requests ""%string))) c)
  | L235 => goto L236 (stress_watchdog_magic_close c)
  | L236 => let '(r, c') := do_close e c in goto L237 (set_ret r c')
  | L237 => goto L238 (set_fd (-1) c)
  | L238 => if ret c <? 0 then goto L239 c else goto L244 c
  | L239 =>
    goto L248 (set_rc EXIT_FAILURE (emit (EvFail (name a) "cannot close /dev/watchdog") c))
  | L244 => goto L245 (emit (EvSys SysSchedYield) c)
  | L245 => goto L145 (inc_counter c)
  | L248 => goto L250 (emit (EvState STRESS_STATE_DEINIT) c)
  | L250 => goto (Returned (rc c)) c
  | H87 => goto H90 (stress_watchdog_magic_close c)
  | H90 => goto H93 (set_flag false c)
  | H93 => if jmp_set c then goto L136 (set_ret 1 c) else goto Undefined c
  | Returned _ => c
  | Undefined => c
  end.

(** Whether [stress_watchdog_handler] is in place for some signal: in
    the installation loop the handlers of sigs[0] .. sigs[i-1] are live
    while sigs[i] is being dealt with, so from the second round of the
    loop on a signal can already reach the handler. *)
Definition handlers_installed (p : point) : bool :=
  match p with
  | L106 | Returned _ | Undefined => false
  | L108 i => (0 <? i)%nat
  | _ => true
  end.

Definition finished (p : point) : bool :=
  match p with Returned _ | Undefined => true | _ => false end.

(** One step: what arrives first, then the statement. A signal diverts
    control to the handler instead of the statement; before the first
    handler is installed no signal is the worker's to handle. *)
Definition step (e : env) (a : stress_args_t) (c : config) : config :=
  if finished (pc c) then c
  else
    match async e (clock c) with
    | Quiet => tick (exec e a c)
    | Stop => tick (exec e a (set_flag false c))
    | Signal =>
      if handlers_installed (pc c) then tick (goto H87 c)
      else tick (exec e a c)
    end.

Fixpoint run (e : env) (a : stress_args_t) (n : nat) (c : config) : config :=
  match n with
  | O => c
  | S n' => run e a n' (step e a c)
  end.

Definition stress_watchdog (e : env) (a : stress_args_t) (n : nat) : config :=
  run e a n init_config.

(** The outcome, once the function has returned. *)
Definition result (c : config) : option exit_code :=
  match pc c with Returned r => Some r | _ => None end.

(** Nothing arrives: every step is the statement at hand. *)
Definition quiet (e : env) : Prop := forall k, async e k = Quiet.

(** No handled signal arrives; stop requests may. *)
Definition unsignalled (e : env) : Prop := forall k, async e k <> Signal.

Definition handlers_ok (e : env) : Prop := forall i, 0 <= sighandler_ret e i.

Definition opens_ok (e : env) : Prop := forall n, 0 <= open_ret e n.

Definition closes_ok (e : env) : Prop := forall n, 0 <= close_ret e n.

Definition opens_busy (e : env) : Prop := forall n, open_ret e n < 0.

(** The handlers of all of [sigs] install. *)
Definition handlers_install (e : env) : Prop :=
  forall i, (i < nsigs e)%nat -> 0 <= sighandler_ret e i.

(** How many of the [len] opens from the [from]-th on yield a
    descriptor. *)
Fixpoint opens_good (e : env) (from len : nat) : nat :=
  match len with
  | O => O
  | S len' =>
    (if 0 <=? open_ret e from then 1%nat else 0%nat) + opens_good e (S from) len'
  end.

(** At least [C] opens succeed sooner or later. *)
Definition opens_suffice (e : env) (C : Z) : Prop :=
  exists N, C <= Z.of_nat (opens_good e 0 N).

(** The first [C] closes succeed. *)
Definition closes_suffice (e : env) (C : Z) : Prop :=
  forall k, Z.of_nat k < C -> 0 <= close_ret e k.

Definition retrying (c : config) : Prop :=
  keep_flag c = true /\ counter c = 0 /\
  match pc c with
  | L106 | L108 _ | L118 | L132 | L133 | L143 | L145 | L146 | L154 => True
  | L149 => fd c < 0
  | _ => False
  end.

(** Without a handled signal: before RUN is set the log has no RUN; in
    the loop it has; the return statement of the loop path is reached
    only with DEINIT logged after RUN; the handler and the code behind
    the resume point are never reached. *)
Definition orderly (c : config) : Prop :=
  match pc c with
  | L106 | L108 _ | L118 | L132 | L133 | L143 =>
    entered STRESS_STATE_RUN (log c) = false
  | H87 | H90 | H93 | L136 | L137 | L138 | L140 | Undefined => False
  | L250 => Contract.deinit_after_run (log c) = true
  | Returned _ =>
    entered STRESS_STATE_RUN (log c) = true ->
    Contract.deinit_after_run (log c) = true
  | _ => entered STRESS_STATE_RUN (log c) = true
  end.

(** When handlers install and closes succeed, nothing on any path sets
    the outcome to FAILURE, however often the open fails and whatever
    arrives. *)
Definition no_failure (c : config) : Prop :=
  rc c = EXIT_SUCCESS /\
  match pc c with
  | L237 | L238 => 0 <= ret c
  | L239 => False
  | Returned r => r = EXIT_SUCCESS
  | _ => True
  end.

(** Between two increments of the counter the loop condition is
    evaluated: an increment still waiting for its evaluation is only
    found at the loop head or on the way out through the handler. *)
Definition may_wait (p : point) : bool :=
  match p with
  | L145 | H87 | H90 | H93 | L136 | L137 | L138 | L140
  | Returned _ | Undefined => true
  | _ => false
  end.

Definition paced (c : config) : Prop :=
  exists pending,
    Contract.scan (Some false) (log c) = Some pending /\
    (pending = true -> may_wait (pc c) = true).

End Watchdog.

(* ================================================================= *)
(** ** The registered descriptors *)

Module Registry.

(** The resource-class bits of stress-ng.h; their values are not part
    of the sources at hand and are taken as given. *)
Record class_bits : Type := mk_class_bits {
  CLASS_CPU : Z;
  CLASS_MEMORY : Z;
  CLASS_OS : Z;
  CLASS_VM : Z;
  CLASS_PATHOLOGICAL : Z
}.

Inductive verify_t : Type := VERIFY_NONE | VERIFY_OPTIONAL | VERIFY_ALWAYS.

(** The workload entry points a descriptor can point to. *)
Inductive entry_point : Type :=
| stress_cap
| stress_context
| stress_watchdog
| stress_unimplemented.

Record stress_help_t : Type := mk_help {
  opt_s : option string;
  opt_l : option string;
  description : option string
}.

Record stressor_info_t : Type := mk_info {
  stressor : entry_point;
  class : Z;
  verify : verify_t;          (* VERIFY_NONE when the initialiser leaves it out *)
  help : list stress_help_t;
  unimplemented_reason : option string
}.

Definition help_end : stress_help_t := mk_help None None None.

Definition cap_help : list stress_help_t :=
  [ mk_help None (Some "cap N"%string)
            (Some "start N workers exercising capget"%string);
    mk_help None (Some "cap-ops N"%string)
            (Some "stop cap workers after N bogo capget operations"%string);
    help_end ].

Definition context_help : list stress_help_t :=
  [ mk_help None (Some "context N"%string)
            (Some "start N workers exercising user context"%string);
    mk_help None (Some "context-ops N"%string)
            (Some "stop context workers after N bogo operations"%string);
    help_end ].

Definition watchdog_help : list stress_help_t :=
  [ mk_help None (Some "watchdog N"%string)
            (Some "start N workers that exercise /dev/watchdog"%string);
    mk_help None (Some "watchdog-ops N"%string)
            (Some "stop after N bogo watchdog operations"%string);
    help_end ].

(** [stress_cap_info]; [have] is
    HAVE_SYS_CAPABILITY_H && _LINUX_CAPABILITY_U32S_3. *)
Definition stress_cap_info (b : class_bits) (have : bool) : stressor_info_t :=
  if have then
    mk_info stress_cap (CLASS_OS b) VERIFY_ALWAYS cap_help None
  else
    mk_info stress_unimplemented (CLASS_OS b) VERIFY_NONE cap_help
            (Some "built without sys/capability.h"%string).

(** [stress_context_info]; [have] is HAVE_SWAPCONTEXT && HAVE_UCONTEXT_H. *)
Definition stress_context_info (b : class_bits) (have : bool) : stressor_info_t :=
  if have then
    mk_info stress_context (Z.lor (CLASS_MEMORY b) (CLASS_CPU b)) VERIFY_ALWAYS
            context_help None
  else
    mk_info stress_unimplemented (Z.lor (CLASS_MEMORY b) (CLASS_CPU b)) VERIFY_NONE
            context_help (Some "built without ucontext.h"%string).

(** [stress_watchdog_info]; [have] is HAVE_LINUX_WATCHDOG_H. *)
Definition stress_watchdog_info (b : class_bits) (have : bool) : stressor_info_t :=
  if have then
    mk_info stress_watchdog
            (Z.lor (Z.lor (CLASS_VM b) (CLASS_OS b)) (CLASS_PATHOLOGICAL b))
            VERIFY_NONE watchdog_help None
  else
    mk_info stress_unimplemented
            (Z.lor (Z.lor (CLASS_VM b) (CLASS_OS b)) (CLASS_PATHOLOGICAL b))
            VERIFY_NONE watchdog_help
            (Some "built without linux/watchdog.h"%string).

(** The three descriptors, each as a function of the build. *)
Definition all_infos : list (class_bits -> bool -> stressor_info_t) :=
  [ stress_cap_info; stress_context_info; stress_watchdog_info ].

(** What running a stub descriptor yields: the stub's outcome and the
    reason shown to the operator. [None] for a descriptor that points to
    a real workload. *)
Definition run_stub (d : stressor_info_t) (a : stress_args_t)
  : option (exit_code * option string) :=
  match stressor d with
  | stress_unimplemented => Some (Core.stress_unimplemented a, unimplemented_reason d)
  | _ => None
  end.

End Registry.

(* ================================================================= *)
(** ** Concrete environments *)

Module Examples.

Definition args_one : stress_args_t := mk_args "worker" 1 1234 0.
Definition args_second_instance : stress_args_t := mk_args "worker" 1 1235 1.

(** A quiet host for the context stressor. *)
Definition context_quiet : Context.env :=
  Context.mk_env true (fun _ => true) (fun n => Z.of_nat n + 17) true
                 (fun _ => true) (fun _ => true) (fun _ c => c).

(** The same host, but the word in front of context[0]'s saved context
    is overwritten during the run. *)
Definition context_clobbered : Context.env :=
  Context.mk_env true (fun _ => true) (fun n => Z.of_nat n + 17) true
                 (fun _ => true) (fun _ => true)
                 (fun i c =>
                    match i with
                    | O => Context.mk_ctx (Context.cu_check0 c + 1) (Context.cu_check1 c)
                                          (Context.canary_check0 c) (Context.canary_check1 c)
                    | _ => c
                    end).

(** A host for the capability stressor: every capget and capset fails
    with EPERM (errno 1); /proc lists two processes and two other
    entries. *)
Definition cap_failing : Cap.env :=
  Cap.mk_env (fun _ => true) (fun _ => (-1, 1)) 1 (fun _ => 99999)
             (fun _ => Some ["1"; "self"; "42"; "uptime"]%string).

(** Every capget and capset fails with ESRCH, and /proc cannot be
    opened. *)
Definition cap_gone : Cap.env :=
  Cap.mk_env (fun _ => true) (fun _ => (-1, Cap.ESRCH)) 1 (fun _ => 99999)
             (fun _ => None).

(** The worker is told to stop before it starts. *)
Definition cap_stopped : Cap.env :=
  Cap.mk_env (fun _ => false) (fun _ => (0, 0)) 1 (fun _ => 99999)
             (fun _ => Some ["1"; "self"; "42"; "uptime"]%string).

(** The worker is told to stop at the sixth look at the flag. *)
Definition cap_interrupted : Cap.env :=
  Cap.mk_env (fun n => (n <? 5)%nat) (fun _ => (0, 0)) 1 (fun _ => 99999)
             (fun _ => Some ["1"; "self"; "42"; "uptime"]%string).

Definition args_unbounded : stress_args_t := mk_args "worker" 0 1234 0.

(** A host whose watchdog device opens and closes without trouble. *)
Definition watchdog_quiet : Watchdog.env :=
  Watchdog.mk_env 9 (fun _ => 0) 0 0 (fun _ => 3) (fun _ => 0) (fun _ => Watchdog.Quiet).

(** The device is held by somebody else: every open fails. *)
Definition watchdog_busy : Watchdog.env :=
  Watchdog.mk_env 9 (fun _ => 0) 0 0 (fun _ => -1) (fun _ => 0) (fun _ => Watchdog.Quiet).

(** The device fails to open three times, then opens. *)
Definition watchdog_busy_then_free : Watchdog.env :=
  Watchdog.mk_env 9 (fun _ => 0) 0 0 (fun n => if (n <? 3)%nat then -1 else 3)
                  (fun _ => 0) (fun _ => Watchdog.Quiet).

(** There is no /dev/watchdog. *)
Definition watchdog_missing : Watchdog.env :=
  Watchdog.mk_env 9 (fun _ => 0) (-1) Watchdog.ENOENT (fun _ => 3) (fun _ => 0)
                  (fun _ => Watchdog.Quiet).

(** A handled signal arrives before the [k]-th statement. *)
Definition watchdog_signal_at (k : nat) : Watchdog.env :=
  Watchdog.mk_env 9 (fun _ => 0) 0 0 (fun _ => 3) (fun _ => 0)
                  (fun n => if (n =? k)%nat then Watchdog.Signal else Watchdog.Quiet).

(** Two handled signals, before the [k1]-th and the [k2]-th statement. *)
Definition watchdog_signals_at (k1 k2 : nat) : Watchdog.env :=
  Watchdog.mk_env 9 (fun _ => 0) 0 0 (fun _ => 3) (fun _ => 0)
                  (fun n => if ((n =? k1) || (n =? k2))%nat then Watchdog.Signal
                            else Watchdog.Quiet).

(** The third handler cannot be installed. *)
Definition watchdog_bad_handler : Watchdog.env :=
  Watchdog.mk_env 9 (fun i => if (i =? 2)%nat then -1 else 0) 0 0 (fun _ => 3)
                  (fun _ => 0) (fun _ => Watchdog.Quiet).

(** The second close of the device fails. *)
Definition watchdog_bad_close : Watchdog.env :=
  Watchdog.mk_env 9 (fun _ => 0) 0 0 (fun _ => 3)
                  (fun n => if (n =? 1)%nat then -1 else 0)
                  (fun _ => Watchdog.Quiet).

(** A stop request arrives before the [k]-th statement. *)
Definition watchdog_stop_at (k : nat) : Watchdog.env :=
  Watchdog.mk_env 9 (fun _ => 0) 0 0 (fun _ => 3) (fun _ => 0)
                  (fun n => if (n =? k)%nat then Watchdog.Stop else Watchdog.Quiet).

Definition some_class_bits : Registry.class_bits :=
  Registry.mk_class_bits 1 2 256 64 8192.

End Examples.

(* ================================================================= *)
(** ** Vocabulary for the remaining properties of the three files *)

Module Coverage.

Definition is_munmap (ev : event) : bool :=
  match ev with EvSys SysMunmap => true | _ => false end.

Definition is_capget (ev : event) : bool :=
  match ev with EvSys (SysCapget _ _) => true | _ => false end.

Definition is_capset (ev : event) : bool :=
  match ev with EvSys (SysCapset _ _) => true | _ => false end.

(** An open of the watchdog device that yielded a descriptor. *)
Definition is_good_open (ev : event) : bool :=
  match ev with EvSys (SysOpen v) => 0 <=? v | _ => false end.

Definition is_descriptor_call (ev : event) : bool :=
  match ev with
  | EvSys (SysWrite _) | EvSys (SysClose _) | EvSys (SysIoctl _ _) => true
  | _ => false
  end.

(** The pr_fail that follows a capget or capset with result [r], if
    any. *)
Definition fail_events (a : stress_args_t) (r : Z * Z) (exists_ : bool)
  : list event :=
  if (fst r <? 0) && Cap.report_failure (snd r) exists_
  then [EvFail (name a) "capget on pid failed"]
  else [].

(** What one call of [stress_capgetset_pid] appends to the log, read
    off the function top to bottom; [k] is the number of capget and
    capset calls made before, [u] the unused pid it draws. *)
Definition probe_log (e : Cap.env) (a : stress_args_t) (pid : Z)
           (do_set exists_ : bool) (k : nat) (u : Z) : list event :=
  [EvSys (SysCapget Cap._LINUX_CAPABILITY_VERSION_3 pid)]
  ++ fail_events a (Cap.sys_ret e k) exists_
  ++ (if do_set
      then [EvSys (SysCapset Cap._LINUX_CAPABILITY_VERSION_3 pid)]
           ++ fail_events a (Cap.sys_ret e (S k)) exists_
           ++ [EvSys (SysCapset Cap._LINUX_CAPABILITY_VERSION_3 Cap.INT_MIN);
               EvSys (SysCapset 0x1234dead pid)]
      else [])
  ++ [EvSys (SysCapget 0x1234dead pid);
      EvSys (SysCapget Cap._LINUX_CAPABILITY_VERSION_3 (wrap_int32 (- pid)));
      EvSys (SysCapget Cap._LINUX_CAPABILITY_VERSION_3 u);
      EvSys (SysCapget Cap._LINUX_CAPABILITY_VERSION_2 pid);
      EvSys (SysCapget Cap._LINUX_CAPABILITY_VERSION_1 pid);
      EvSys (SysCapget Cap.UINT_MAX pid);
      EvInc].

(** [st'] is [st] after the events [d], [k] capget or capset calls and
    [j] draws of an unused pid, the counter and the evaluations of the
    keep-running predicate untouched. *)
Definition appended (d : list event) (k j : nat) (st st' : Cap.state) : Prop :=
  Cap.log st' = Cap.log st ++ d /\
  Cap.nsys st' = (Cap.nsys st + k)%nat /\
  Cap.nunused st' = (Cap.nunused st + j)%nat /\
  Cap.counter st' = Cap.counter st /\
  Cap.ncheck st' = Cap.ncheck st.

(** The result of a checked call that draws no pr_fail: success, or
    ESRCH on a process that need not exist. *)
Definition tolerated (r : Z * Z) (exists_ : bool) : Prop :=
  0 <= fst r \/ (snd r = Cap.ESRCH /\ exists_ = false).

(** Every event but a capset aimed at another process: [INT_MIN] names
    none. *)
Definition capset_own (a : stress_args_t) (ev : event) : bool :=
  match ev with
  | EvSys (SysCapset _ p) => (p =? pid a) || (p =? Cap.INT_MIN)
  | _ => true
  end.

(** The name the kernel gives the /proc directory of process [n]. *)
Definition decimal_name (n : nat) : string :=
  NilEmpty.string_of_uint (Nat.to_uint n).

Definition starts_with_digit (d : string) : bool :=
  Cap.isdigit (Cap.first_char d).

(** The micro-threads when no swapcontext fails: at the start one
    thread after the other makes its first pass, from then on all three
    contexts are saved at their while-condition and the counter is below
    the ceiling whenever a body is entered. [nswap] counts with the
    counter. *)
Definition in_step (M : Z) (cur : Context.tid) (p : Context.point)
           (s : Context.threads) : Prop :=
  Context.context_counter s = Z.of_nat (Context.nswap s) /\
  match p with
  | Context.AtBody =>
    Context.context_counter s < M /\
    match cur with
    | Context.T1 =>
      (Context.context_counter s = 0 /\ Context.saved2 s = Context.AtBody /\
       Context.saved3 s = Context.AtBody) \/
      (3 <= Context.context_counter s /\ Context.saved1 s = Context.AtCond /\
       Context.saved2 s = Context.AtCond /\ Context.saved3 s = Context.AtCond)
    | Context.T2 =>
      (Context.context_counter s = 1 /\ Context.saved1 s = Context.AtCond /\
       Context.saved3 s = Context.AtBody) \/
      (3 <= Context.context_counter s /\ Context.saved1 s = Context.AtCond /\
       Context.saved2 s = Context.AtCond /\ Context.saved3 s = Context.AtCond)
    | Context.T3 =>
      (Context.context_counter s = 2 /\ Context.saved1 s = Context.AtCond /\
       Context.saved2 s = Context.AtCond) \/
      (3 <= Context.context_counter s /\ Context.saved1 s = Context.AtCond /\
       Context.saved2 s = Context.AtCond /\ Context.saved3 s = Context.AtCond)
    end
  | Context.AtCond =>
    3 <= Context.context_counter s <= M /\
    Context.saved1 s = Context.AtCond /\ Context.saved2 s = Context.AtCond /\
    Context.saved3 s = Context.AtCond
  end.

(** The statements in front of sigsetjmp, with the number of statements
    executed when each is reached. *)
Definition prelude (e : Watchdog.env) (c : Watchdog.config) : Prop :=
  match Watchdog.pc c with
  | Watchdog.L106 => Watchdog.clock c = 0%nat
  | Watchdog.L108 i =>
    Watchdog.clock c = S i /\ (i <= Watchdog.nsigs e)%nat
  | Watchdog.L118 => Watchdog.clock c = (Watchdog.nsigs e + 2)%nat
  | Watchdog.L132 => Watchdog.clock c = (Watchdog.nsigs e + 3)%nat
  | Watchdog.L133 => Watchdog.clock c = (Watchdog.nsigs e + 4)%nat
  | Watchdog.Returned _ => True
  | _ => False
  end.

(** While jmp_env is unset the worker is in front of sigsetjmp; once it
    is set, siglongjmp has somewhere to land. *)
Definition jump_safe (e : Watchdog.env) (c : Watchdog.config) : Prop :=
  if Watchdog.jmp_set c then Watchdog.pc c <> Watchdog.Undefined
  else prelude e c.

(** An upper bound on the statements left before [stress_watchdog] is
    through, once the flag is down and no signal arrives any more. *)
Definition to_exit (e : Watchdog.env) (p : Watchdog.point) : nat :=
  match p with
  | Watchdog.Returned _ | Watchdog.Undefined => 0
  | Watchdog.L140 | Watchdog.L250 => 1
  | Watchdog.L138 | Watchdog.L248 => 2
  | Watchdog.L137 | Watchdog.L239 | Watchdog.L145 => 3
  | Watchdog.L136 | Watchdog.L245 | Watchdog.L154 | Watchdog.L143 => 4
  | Watchdog.H93 | Watchdog.L244 | Watchdog.L133 => 5
  | Watchdog.H90 | Watchdog.L238 | Watchdog.L132 => 6
  | Watchdog.H87 | Watchdog.L237 | Watchdog.L118 => 7
  | Watchdog.L236 => 8
  | Watchdog.L235 => 9
  | Watchdog.L161 k => 10 + (7 - k)
  | Watchdog.L158 => 18
  | Watchdog.L149 => 19
  | Watchdog.L146 => 20
  | Watchdog.L108 i => 8 + (Watchdog.nsigs e - i)
  | Watchdog.L106 => 9 + Watchdog.nsigs e
  end.

(** The flag is down, or the handler is about to take it down. *)
Definition winding_down (c : Watchdog.config) : Prop :=
  Watchdog.keep_flag c = false \/
  Watchdog.pc c = Watchdog.H87 \/ Watchdog.pc c = Watchdog.H90.

Definition closes_before (e : Watchdog.env) (n : nat) : Prop :=
  forall k, (k < n)%nat -> 0 <= Watchdog.close_ret e k.

(** Every close so far succeeded and was counted. *)
Definition clean (e : Watchdog.env) (c : Watchdog.config) : Prop :=
  Watchdog.rc c = EXIT_SUCCESS /\
  count is_fail (Watchdog.log c) = 0%nat /\
  closes_before e (Watchdog.nclose c) /\
  Watchdog.counter c = wrap64 (Z.of_nat (Watchdog.nclose c)).

(** The close just made is still to be counted or found to have
    failed. *)
Definition in_flight (e : Watchdog.env) (c : Watchdog.config) : Prop :=
  Watchdog.rc c = EXIT_SUCCESS /\
  count is_fail (Watchdog.log c) = 0%nat /\
  (0 < Watchdog.nclose c)%nat /\
  closes_before e (Nat.pred (Watchdog.nclose c)) /\
  Watchdog.counter c = wrap64 (Z.of_nat (Nat.pred (Watchdog.nclose c))).

(** The last close failed, the ones before it succeeded. *)
Definition failed (e : Watchdog.env) (c : Watchdog.config) : Prop :=
  Watchdog.rc c = EXIT_FAILURE /\
  count is_fail (Watchdog.log c) = 1%nat /\
  (0 < Watchdog.nclose c)%nat /\
  Watchdog.close_ret e (Nat.pred (Watchdog.nclose c)) < 0 /\
  closes_before e (Nat.pred (Watchdog.nclose c)) /\
  Watchdog.counter c = wrap64 (Z.of_nat (Nat.pred (Watchdog.nclose c))).

(** The bookkeeping of the loop of [stress_watchdog] when no handled
    signal arrives. *)
Definition close_audit (e : Watchdog.env) (c : Watchdog.config) : Prop :=
  match Watchdog.pc c with
  | Watchdog.L237 | Watchdog.L238 =>
    in_flight e c /\
    Watchdog.ret c = Watchdog.close_ret e (Nat.pred (Watchdog.nclose c))
  | Watchdog.L239 =>
    in_flight e c /\
    Watchdog.close_ret e (Nat.pred (Watchdog.nclose c)) < 0
  | Watchdog.L244 | Watchdog.L245 =>
    in_flight e c /\
    0 <= Watchdog.close_ret e (Nat.pred (Watchdog.nclose c))
  | Watchdog.L248 | Watchdog.L250 => clean e c \/ failed e c
  | Watchdog.Returned r =>
    r = Watchdog.rc c /\ (clean e c \/ failed e c)
  | Watchdog.H87 | Watchdog.H90 | Watchdog.H93 | Watchdog.L136 | Watchdog.L137
  | Watchdog.L138 | Watchdog.L140 | Watchdog.Undefined => False
  | _ => clean e c
  end.

(** Without a ceiling, and with handlers, device and closes in order,
    the worker is on its way out only when the flag has been cleared. *)
Definition held_up (c : Watchdog.config) : Prop :=
  Watchdog.keep_flag c = true ->
  match Watchdog.pc c with
  | Watchdog.L237 | Watchdog.L238 => 0 <= Watchdog.ret c
  | Watchdog.L239 | Watchdog.L248 | Watchdog.L250
  | Watchdog.H93 | Watchdog.L136 | Watchdog.L137 | Watchdog.L138 | Watchdog.L140
  | Watchdog.Returned _ | Watchdog.Undefined => False
  | _ => True
  end.

(** The host [e] with another course of asynchronous events. *)
Definition with_async (f : nat -> Watchdog.async_event) (e : Watchdog.env)
  : Watchdog.env :=
  Watchdog.mk_env (Watchdog.nsigs e) (Watchdog.sighandler_ret e)
                  (Watchdog.access_ret e) (Watchdog.access_errno e)
                  (Watchdog.open_ret e) (Watchdog.close_ret e) f.

(** [st'] is [st] after the events [d], which replay well from the
    counter and the evaluations of [st] and leave both as [st'] has
    them. *)
Definition cap_tracked (ok : nat -> bool -> Z -> Prop) (d : list event)
           (st st' : Cap.state) : Prop :=
  Cap.log st' = Cap.log st ++ d /\
  Contract.replay ok d (Cap.counter st) (Cap.ncheck st) false /\
  Cap.counter st' = Contract.counter_after d (Cap.counter st) /\
  Cap.ncheck st' = Contract.checks_after d (Cap.ncheck st).

(** Where the watchdog worker is once it no longer starts work: on its
    way out of the loop, in the handler or behind the resume point. *)
Definition exiting (p : Watchdog.point) : bool :=
  match p with
  | Watchdog.L248 | Watchdog.L250 | Watchdog.Returned _ | Watchdog.Undefined
  | Watchdog.H87 | Watchdog.H90 | Watchdog.H93
  | Watchdog.L136 | Watchdog.L137 | Watchdog.L138 | Watchdog.L140 => true
  | _ => false
  end.

(** The log of the watchdog worker replays well, the counter is the
    one the log gives, and after an evaluation that answered false the
    worker is on its way out. *)
Definition replays (ok : nat -> bool -> Z -> Prop) (c : Watchdog.config) : Prop :=
  Contract.replay ok (Watchdog.log c) 0 0 false /\
  Watchdog.counter c = Contract.counter_after (Watchdog.log c) 0 /\
  (Contract.stopped_after (Watchdog.log c) false = true ->
   exiting (Watchdog.pc c) = true).

(** The micro-threads' bookkeeping: every pass through a loop body is
    the first pass of a thread or follows an evaluation that answered
    true, so the counter is the number of threads started plus the
    number of evaluations made so far. *)
Definition accounted (cur : Context.tid) (p : Context.point)
           (s : Context.threads) : Prop :=
  0 <= Context.unstarted cur s <= 2 /\
  Context.context_counter s
  + (match p with Context.AtBody => 1 | Context.AtCond => 0 end)
  = Z.of_nat (Context.ncheck s) + 3 - Context.unstarted cur s.

End Coverage.

(* ================================================================= *)
(** ** Arithmetic and list helpers *)

Lemma wrap64_small (z : Z) : 0 <= z < 2 ^ 64 -> wrap64 z = z.
Proof. intros H. unfold wrap64. apply Z.mod_small. exact H. Qed.

Lemma wrap64_range (z : Z) : 0 <= wrap64 z < 2 ^ 64.
Proof. unfold wrap64. apply Z.mod_pos_bound. lia. Qed.

Lemma wrap64_succ_le (z : Z) : 0 <= z -> 0 <= wrap64 (z + 1) <= z + 1.
Proof.
  intros H. split.
  - apply wrap64_range.
  - unfold wrap64. apply Z.mod_le; lia.
Qed.

Lemma count_app (p : event -> bool) (l1 l2 : list event) :
  count p (l1 ++ l2) = (count p l1 + count p l2)%nat.
Proof. unfold count. rewrite List.filter_app, List.length_app. reflexivity. Qed.

Lemma entered_app (s : proc_state) (l1 l2 : list event) :
  entered s (l1 ++ l2) = entered s l1 || entered s l2.
Proof. unfold entered. apply List.existsb_app. Qed.

Lemma scan_app (from : option bool) (l1 l2 : list event) :
  Contract.scan from (l1 ++ l2) = Contract.scan (Contract.scan from l1) l2.
Proof. unfold Contract.scan. apply List.fold_left_app. Qed.

(* ================================================================= *)
(** ** The context stressor *)

Module ContextProofs.
Import Context.

(** The scaled ceiling is a multiple of 8, so it stays 8 below 2^64. *)
Lemma scaled_ceiling_range (a : stress_args_t) :
  0 <= scaled_ceiling a <= 2 ^ 64 - 8.
Proof.
  unfold scaled_ceiling, wrap64.
  replace (max_ops a * 1000) with (max_ops a * 125 * 8) by lia.
  replace (2 ^ 64) with (2 ^ 61 * 8) by reflexivity.
  rewrite Z.mul_mod_distr_r by lia.
  pose proof (Z.mod_pos_bound (max_ops a * 125) (2 ^ 61) ltac:(lia)). lia.
Qed.

Lemma scaled_ceiling_exact (a : stress_args_t) :
  0 <= max_ops a -> max_ops a * 1000 < 2 ^ 64 ->
  scaled_ceiling a = max_ops a * 1000.
Proof. intros H1 H2. unfold scaled_ceiling. apply wrap64_small. lia. Qed.

Ltac crush_threads :=
  match goal with s : threads |- _ => destruct s end;
  match goal with cur : tid |- _ => destruct cur end;
  repeat match goal with p : point |- _ => destruct p end;
  unfold within, unstarted, waiting, bump, checked, save, saved in *;
  simpl in *;
  rewrite ?wrap64_small by lia;
  try lia.

Lemma within_body_fail M cur s :
  M + 2 < 2 ^ 64 -> within M cur AtBody s -> within M cur AtCond (bump s).
Proof. intros HM [H0 H]. crush_threads. Qed.

Lemma within_body_swap M cur s :
  M + 2 < 2 ^ 64 -> within M cur AtBody s ->
  within M (swap_target cur) (saved (bump s) (swap_target cur))
         (save cur AtCond (bump s)).
Proof. intros HM [H0 H]. crush_threads. Qed.

Lemma within_cond_true M cur s :
  context_counter s < M -> within M cur AtCond s -> within M cur AtBody (checked s).
Proof. intros Hlt [H0 H]. crush_threads. Qed.

Lemma unstarted_nonneg cur s : 0 <= unstarted cur s.
Proof.
  unfold unstarted, waiting.
  destruct cur, (saved s T1), (saved s T2), (saved s T3); simpl; lia.
Qed.

Section Loop.
Variable e : env.
Variable M : Z.
Hypothesis M_pos : 0 < M.
Hypothesis M_room : M + 2 < 2 ^ 64.
Hypothesis flag_true : forall n, flag e n = true.

Lemma thread_cond_flag_true n c :
  thread_cond (flag e n) M c = (c <? M).
Proof.
  unfold thread_cond, c_lnot. rewrite flag_true.
  replace (M =? 0) with false by (symmetry; apply Z.eqb_neq; lia).
  reflexivity.
Qed.

(** Partial correctness of the loop: whenever it hands control back,
    the counter is inside the window. *)
Lemma run_threads_window :
  forall fuel cur p s r,
    within M cur p s ->
    run_threads e M fuel cur p s = Some r ->
    M <= context_counter r <= M + 2.
Proof.
  induction fuel as [|fuel IH]; intros cur p s r Hin Hrun; [discriminate|].
  simpl in Hrun. destruct p.
  - destruct (thread_swap_ok e (nswap s)).
    + eapply IH; [|exact Hrun]. apply within_body_swap; assumption.
    + eapply IH; [|exact Hrun]. apply within_body_fail; assumption.
  - rewrite thread_cond_flag_true in Hrun.
    destruct (Z.ltb_spec (context_counter s) M) as [Hlt|Hge].
    + eapply IH; [|exact Hrun]. apply within_cond_true; assumption.
    + inversion Hrun; subst r. destruct Hin as [H0 H].
      pose proof (unstarted_nonneg cur s).
      destruct s; simpl in *. lia.
Qed.

(** Total correctness: enough fuel lets the loop hand control back. *)
Lemma run_threads_returns :
  forall fuel cur p s,
    within M cur p s ->
    2 * (M + 3 - context_counter s) + (match p with AtCond => 1 | AtBody => 0 end)
      < Z.of_nat fuel ->
    exists r, run_threads e M fuel cur p s = Some r.
Proof.
  induction fuel as [|fuel IH]; intros cur p s Hin Hfuel.
  - destruct Hin as [H0 H]. pose proof (unstarted_nonneg cur s).
    destruct p; lia.
  - simpl. destruct p.
    + assert (Hc : context_counter (bump s) = context_counter s + 1).
      { destruct Hin as [H0 H]. pose proof (unstarted_nonneg cur s).
        destruct s; simpl in *. apply wrap64_small. lia. }
      destruct (thread_swap_ok e (nswap s)).
      * apply IH; [apply within_body_swap; assumption|].
        replace (context_counter (save cur AtCond (bump s)))
          with (context_counter s + 1)
          by (rewrite <- Hc; destruct cur, s; reflexivity).
        destruct (saved (bump s) (swap_target cur)); lia.
      * apply IH; [apply within_body_fail; assumption|]. rewrite Hc. lia.
    + rewrite thread_cond_flag_true.
      destruct (Z.ltb_spec (context_counter s) M) as [Hlt|Hge].
      * apply IH; [apply within_cond_true; assumption|].
        destruct s; simpl in *. lia.
      * eexists; reflexivity.
Qed.

End Loop.

(** Without a ceiling and with the flag up, the loop never hands
    control back. *)
Lemma run_threads_unbounded e :
  (forall n, flag e n = true) ->
  forall fuel cur p s, run_threads e 0 fuel cur p s = None.
Proof.
  intros Hf. induction fuel as [|fuel IH]; intros cur p s; [reflexivity|].
  simpl. destruct p.
  - destruct (thread_swap_ok e (nswap s)); apply IH.
  - unfold thread_cond. rewrite Hf. simpl. apply IH.
Qed.

(** The product max_ops * 1000 is taken in 64 bits: a ceiling of 2^61
    operations wraps to 0, which leaves the loop unbounded, and a ceiling
    just beyond 2^64 / 1000 wraps to 384 switches, which ends the run
    with 0 operations reported. *)
Lemma scaled_ceiling_wraps :
  scaled_ceiling (mk_args "worker" (2 ^ 61) 1234 0) = 0 /\
  (forall e fuel,
      setup_ok e -> (forall n, flag e n = true) ->
      stress_context e fuel (mk_args "worker" (2 ^ 61) 1234 0) init_state = None) /\
  scaled_ceiling (mk_args "worker" 18446744073709552 1234 0) = 384.
Proof.
  split; [reflexivity|]. split; [|reflexivity].
  intros e fuel Hsetup Hf. destruct Hsetup as (Hm & Hg & Hs).
  unfold stress_context. rewrite Hm, Hs. cbn [negb].
  unfold STRESS_CONTEXTS. cbn [init_contexts]. unfold stress_context_init.
  rewrite !Hg.
  change (scaled_ceiling (mk_args "worker" (2 ^ 61) 1234 0)) with 0.
  rewrite run_threads_unbounded by exact Hf. reflexivity.
Qed.

Lemma within_start M : 0 < M -> within M T1 AtBody threads0.
Proof. intros H. unfold within, unstarted, waiting; simpl. lia. Qed.

Ltac crush_evaluated :=
  match goal with s : threads |- _ => destruct s end;
  match goal with cur : tid |- _ => destruct cur end;
  repeat match goal with p : point |- _ => destruct p end;
  unfold evaluated, unstarted, waiting, bump, checked, save, saved in *;
  cbn -[Z.of_nat wrap64 Z.add Z.sub] in *;
  rewrite ?Nat2Z.inj_succ in *;
  match goal with
  | H : 0 <= ?c |- _ => pose proof (wrap64_succ_le c H)
  end;
  lia.

Lemma evaluated_body_fail cur s :
  evaluated cur AtBody s -> evaluated cur AtCond (bump s).
Proof. intros [H0 H]. crush_evaluated. Qed.

Lemma evaluated_body_swap cur s :
  evaluated cur AtBody s ->
  evaluated (swap_target cur) (saved (bump s) (swap_target cur))
            (save cur AtCond (bump s)).
Proof. intros [H0 H]. crush_evaluated. Qed.

Lemma evaluated_cond_true cur s :
  evaluated cur AtCond s -> evaluated cur AtBody (checked s).
Proof. intros [H0 H]. crush_evaluated. Qed.

Lemma run_threads_evaluations e M :
  forall fuel cur p s r,
    evaluated cur p s ->
    run_threads e M fuel cur p s = Some r ->
    0 <= context_counter r <= Z.of_nat (ncheck r) + 2 /\ (1 <= ncheck r)%nat.
Proof.
  induction fuel as [|fuel IH]; intros cur p s r Hin Hrun; [discriminate|].
  simpl in Hrun. destruct p.
  - destruct (thread_swap_ok e (nswap s)).
    + eapply IH; [|exact Hrun]. apply evaluated_body_swap; assumption.
    + eapply IH; [|exact Hrun]. apply evaluated_body_fail; assumption.
  - destruct (thread_cond (flag e (ncheck s)) M (context_counter s)).
    + eapply IH; [|exact Hrun]. apply evaluated_cond_true; assumption.
    + inversion Hrun; subst r. destruct Hin as [H0 H]. clear Hrun IH.
      pose proof (unstarted_nonneg cur s).
      destruct s; cbn -[Z.of_nat] in *. rewrite Nat2Z.inj_succ. lia.
Qed.

Lemma evaluated_start : evaluated T1 AtBody threads0.
Proof. unfold evaluated, unstarted, waiting; simpl. lia. Qed.

Lemma init_contexts_ok e :
  (forall i, getcontext_ok e i = true) ->
  exists cs, init_contexts e 0 STRESS_CONTEXTS = Some cs.
Proof.
  intros H. unfold STRESS_CONTEXTS. simpl. unfold stress_context_init.
  rewrite !H. eexists; reflexivity.
Qed.

Lemma check_canaries_only_fail who cs :
  List.forallb is_fail (check_canaries who cs) = true.
Proof.
  unfold check_canaries. induction cs as [|c cs IH]; [reflexivity|].
  simpl. rewrite !List.forallb_app, IH. unfold check_canary.
  destruct (canary_check0 c =? cu_check0 c), (canary_check1 c =? cu_check1 c);
    reflexivity.
Qed.

Lemma count_only_fail (p : event -> bool) (l : list event) :
  (forall who what, p (EvFail who what) = false) ->
  List.forallb is_fail l = true -> count p l = 0%nat.
Proof.
  intros Hp. induction l as [|ev l IH]; intros H; [reflexivity|].
  simpl in H. apply andb_true_iff in H. destruct H as [H1 H2].
  destruct ev; try discriminate. unfold count in *. simpl. rewrite Hp.
  apply IH. exact H2.
Qed.

(** What a run that came back from the micro-threads looks like. *)
Lemma stress_context_inv e fuel a rc st th :
  stress_context e fuel a init_state = Some (rc, st) ->
  threads_end st = Some th ->
  run_threads e (scaled_ceiling a) fuel T1 AtBody threads0 = Some th /\
  rc = EXIT_SUCCESS /\
  counter st = context_counter th / 1000 /\
  exists cs,
    contexts_after e = Some cs /\
    log st = [EvState STRESS_STATE_RUN; EvSetCounter (context_counter th / 1000)]
               ++ check_canaries (name a) cs
               ++ [EvState STRESS_STATE_DEINIT;
                   EvMetric "swapcontext calls per sec"; EvSys SysMunmap].
Proof.
  unfold stress_context, contexts_after. intros H Hth.
  destruct (mmap_ok e); cbn [negb] in H;
    [|inversion H; subst; discriminate].
  destruct (init_contexts e 0 STRESS_CONTEXTS) as [cs|];
    [|inversion H; subst; discriminate].
  destruct (main_swap_ok e); cbn [negb] in H;
    [|inversion H; subst; discriminate].
  destruct (run_threads e (scaled_ceiling a) fuel T1 AtBody threads0) as [th'|];
    [|discriminate].
  inversion H; subst; clear H. simpl in Hth. inversion Hth; subst th'.
  repeat split. exists (clobber_all e 0 cs). split; [reflexivity|]. simpl.
  rewrite <- !List.app_assoc. reflexivity.
Qed.

(** The canary checks say nothing exactly when every context is
    intact, and whatever they say is a failure message under the
    stressor's name. *)
Lemma check_canaries_quiet who cs :
  check_canaries who cs = [] <-> List.forallb intact cs = true.
Proof.
  unfold check_canaries. induction cs as [|c cs IH]; [split; reflexivity|].
  cbn [List.flat_map List.forallb]. unfold check_canary at 1. unfold intact at 1.
  destruct (canary_check0 c =? cu_check0 c), (canary_check1 c =? cu_check1 c);
    cbn [List.app andb]; try (split; discriminate).
  exact IH.
Qed.

Lemma check_canaries_named who cs :
  List.Forall (fun ev => exists what, ev = EvFail who what) (check_canaries who cs).
Proof.
  unfold check_canaries. induction cs as [|c cs IH]; [constructor|].
  cbn [List.flat_map]. apply List.Forall_app. split; [|exact IH].
  unfold check_canary.
  destruct (canary_check0 c =? cu_check0 c), (canary_check1 c =? cu_check1 c);
    cbn [List.app]; repeat constructor; eexists; reflexivity.
Qed.

Lemma filter_only_fail (l : list event) :
  List.forallb is_fail l = true -> List.filter is_fail l = l.
Proof.
  induction l as [|ev l IH]; intros H; [reflexivity|].
  cbn [List.forallb] in H. apply andb_true_iff in H. destruct H as [H1 H2].
  cbn [List.filter]. rewrite H1, IH by exact H2. reflexivity.
Qed.

Lemma stress_context_returns e fuel a th :
  setup_ok e ->
  run_threads e (scaled_ceiling a) fuel T1 AtBody threads0 = Some th ->
  exists st, stress_context e fuel a init_state = Some (EXIT_SUCCESS, st) /\
             threads_end st = Some th.
Proof.
  intros (Hm & Hg & Hs) Hrun.
  destruct (init_contexts_ok e Hg) as [cs Hcs].
  unfold stress_context. rewrite Hm, Hcs, Hs, Hrun. simpl.
  eexists; split; reflexivity.
Qed.

Lemma stress_context_stuck e fuel a :
  setup_ok e ->
  run_threads e (scaled_ceiling a) fuel T1 AtBody threads0 = None ->
  stress_context e fuel a init_state = None.
Proof.
  intros (Hm & Hg & Hs) Hrun.
  destruct (init_contexts_ok e Hg) as [cs Hcs].
  unfold stress_context. rewrite Hm, Hcs, Hs, Hrun. reflexivity.
Qed.

(** The context stressor under a ceiling that does not overflow:
    the run ends and reports exactly the ceiling. *)
Lemma context_reaches_ceiling e a :
  0 < max_ops a -> max_ops a * 1000 < 2 ^ 64 ->
  setup_ok e -> (forall n, flag e n = true) ->
  exists fuel st,
    stress_context e fuel a init_state = Some (EXIT_SUCCESS, st) /\
    counter st = max_ops a.
Proof.
  intros Hpos Hno Hsetup Hflag.
  pose proof (scaled_ceiling_range a) as Hr.
  pose proof (scaled_ceiling_exact a ltac:(lia) Hno) as HM.
  set (M := scaled_ceiling a) in *.
  assert (HMpos : 0 < M) by lia.
  assert (HMroom : M + 2 < 2 ^ 64) by lia.
  destruct (run_threads_returns e M HMpos HMroom Hflag
              (Z.to_nat (2 * (M + 3) + 1)) T1 AtBody threads0
              (within_start M HMpos)) as [th Hth].
  { change (context_counter threads0) with 0. lia. }
  destruct (stress_context_returns e _ a th Hsetup Hth) as [st [Hst Hend]].
  exists (Z.to_nat (2 * (M + 3) + 1)), st. split; [exact Hst|].
  destruct (stress_context_inv e _ a _ st th Hst Hend) as (_ & _ & Hc & _).
  pose proof (run_threads_window e M HMpos HMroom Hflag _ _ _ _ _
                (within_start M HMpos) Hth) as Hw.
  rewrite Hc. 
  assert (1000 * max_ops a <= context_counter th < 1000 * (max_ops a + 1)) by lia.
  symmetry. apply Z.div_unique with (r := context_counter th - 1000 * max_ops a); lia.
Qed.

(** The same with the setup spelled out: only the three getcontext
    calls that are made have to succeed. *)
Lemma context_reaches_ceiling_setup e a :
  0 < max_ops a -> max_ops a * 1000 < 2 ^ 64 ->
  mmap_ok e = true ->
  (forall i, (i < 3)%nat -> getcontext_ok e i = true) ->
  main_swap_ok e = true ->
  (forall n, flag e n = true) ->
  exists fuel st,
    stress_context e fuel a init_state = Some (EXIT_SUCCESS, st) /\
    counter st = max_ops a.
Proof.
  intros Hpos Hno Hm Hg Hs Hflag.
  pose proof (scaled_ceiling_range a) as Hr.
  pose proof (scaled_ceiling_exact a ltac:(lia) Hno) as HM.
  set (M := scaled_ceiling a) in *.
  assert (HMpos : 0 < M) by lia.
  assert (HMroom : M + 2 < 2 ^ 64) by lia.
  destruct (run_threads_returns e M HMpos HMroom Hflag
              (Z.to_nat (2 * (M + 3) + 1)) T1 AtBody threads0
              (within_start M HMpos)) as [th Hth].
  { change (context_counter threads0) with 0. lia. }
  assert (Hret : exists st,
             stress_context e (Z.to_nat (2 * (M + 3) + 1)) a init_state
             = Some (EXIT_SUCCESS, st) /\ threads_end st = Some th).
  { unfold stress_context, STRESS_CONTEXTS. cbn [init_contexts].
    unfold stress_context_init.
    rewrite Hm, (Hg 0%nat), (Hg 1%nat), (Hg 2%nat), Hs by lia.
    cbn [negb]. fold M. rewrite Hth. eexists. split; reflexivity. }
  destruct Hret as [st [Hst Hend]].
  exists (Z.to_nat (2 * (M + 3) + 1)), st. split; [exact Hst|].
  destruct (stress_context_inv e _ a _ st th Hst Hend) as (_ & _ & Hc & _).
  pose proof (run_threads_window e M HMpos HMroom Hflag _ _ _ _ _
                (within_start M HMpos) Hth) as Hw.
  rewrite Hc.
  assert (1000 * max_ops a <= context_counter th < 1000 * (max_ops a + 1)) by lia.
  symmetry. apply Z.div_unique with (r := context_counter th - 1000 * max_ops a); lia.
Qed.

(** A return that follows RUN, the first swapcontext having worked,
    has DEINIT logged after RUN. *)
Lemma context_return_deinit e fuel a rc st :
  main_swap_ok e = true ->
  stress_context e fuel a init_state = Some (rc, st) ->
  entered STRESS_STATE_RUN (log st) = true ->
  Contract.deinit_after_run (log st) = true.
Proof.
  unfold stress_context. intros Hs H.
  destruct (mmap_ok e); cbn [negb] in H;
    [|inversion H; subst; discriminate].
  destruct (init_contexts e 0 STRESS_CONTEXTS) as [cs|];
    [|inversion H; subst; discriminate].
  rewrite Hs in H. cbn [negb] in H.
  destruct (run_threads e (scaled_ceiling a) fuel T1 AtBody threads0) as [th|];
    [|discriminate].
  inversion H; subst; clear H. intros _.
  cbn [log set_counter emit emit_all init_state List.app counter].
  cbn [Contract.deinit_after_run].
  change (entered STRESS_STATE_DEINIT (EvSetCounter ?v :: ?l))
    with (entered STRESS_STATE_DEINIT l).
  rewrite !entered_app. cbn. rewrite !orb_true_r. reflexivity.
Qed.

(** The log of a completed run holds one set_counter and no inc_counter. *)
Lemma context_counter_set_once a v cs :
  let l := [EvState STRESS_STATE_RUN; EvSetCounter v]
             ++ check_canaries (name a) cs
             ++ [EvState STRESS_STATE_DEINIT;
                 EvMetric "swapcontext calls per sec"; EvSys SysMunmap] in
  count is_set_counter l = 1%nat /\ count is_inc l = 0%nat.
Proof.
  cbv zeta. rewrite !count_app.
  rewrite (count_only_fail is_set_counter (check_canaries (name a) cs))
    by (try reflexivity; apply check_canaries_only_fail).
  rewrite (count_only_fail is_inc (check_canaries (name a) cs))
    by (try reflexivity; apply check_canaries_only_fail).
  split; reflexivity.
Qed.

End ContextProofs.

(* ================================================================= *)
(** ** The capability stressor *)

Module CapProofs.
Import Cap.

Lemma calm_nil : calm [].
Proof. repeat split; auto. Qed.

Lemma calm_app d1 d2 : calm d1 -> calm d2 -> calm (d1 ++ d2).
Proof.
  intros (A1 & B1 & C1 & D1) (A2 & B2 & C2 & D2). unfold calm.
  rewrite !count_app, scan_app, C1. repeat split; try lia; try assumption.
  intros s. rewrite entered_app, D1, D2. reflexivity.
Qed.

Lemma calm_check r : calm [EvCheck r].
Proof. unfold calm, count; simpl. repeat split; auto. Qed.

Lemma calm_probe_check d r : probe_events d -> calm (d ++ [EvCheck r]).
Proof.
  intros (A & B & C & D & E). unfold calm.
  rewrite !count_app, scan_app, D.
  change (count is_inc [EvCheck r]) with 0%nat.
  change (count is_probe_end [EvCheck r]) with 0%nat.
  change (count is_check [EvCheck r]) with 1%nat.
  split; [lia|]. split; [lia|]. split; [reflexivity|].
  intros s. rewrite entered_app, E. reflexivity.
Qed.

Lemma silent_app d1 d2 : silent d1 -> silent d2 -> silent (d1 ++ d2).
Proof. unfold silent. intros H1 H2. rewrite List.forallb_app, H1, H2. reflexivity. Qed.

Lemma silent_facts d :
  silent d ->
  count is_inc d = 0%nat /\ count is_check d = 0%nat /\
  (forall q, Contract.scan q d = q) /\ (forall s, entered s d = false).
Proof.
  unfold silent. induction d as [|ev d IH]; intros H.
  - repeat split; reflexivity.
  - simpl in H. apply andb_true_iff in H. destruct H as [H1 H2].
    destruct (IH H2) as (A & B & C & D).
    destruct ev; try discriminate; unfold count in *; simpl;
      (split; [exact A|]; split; [exact B|]; split;
       [intros [q|]; apply C | intros s; apply D]).
Qed.

Lemma after_refl st : after 0 st st.
Proof.
  repeat split. exists []. rewrite List.app_nil_r. repeat split.
Qed.

Lemma after_trans n m st1 st2 st3 :
  after n st1 st2 -> after m st2 st3 -> after (n + m) st1 st3.
Proof.
  intros (A1 & B1 & d1 & L1 & S1 & C1) (A2 & B2 & d2 & L2 & S2 & C2).
  split; [congruence|]. split; [congruence|].
  exists (d1 ++ d2). split; [rewrite L2, L1, List.app_assoc; reflexivity|].
  split; [apply silent_app; assumption|]. rewrite count_app. lia.
Qed.

Lemma sys_after e c st r st' :
  sys e c st = (r, st') ->
  after (if is_probe_end (EvSys c) then 1 else 0) st st'.
Proof.
  unfold sys. intros H. inversion H; subst; clear H.
  repeat split. exists [EvSys c]. repeat split.
  unfold count. cbn [List.filter]. destruct (is_probe_end (EvSys c)); reflexivity.
Qed.

Lemma fail_if_unexpected_after a r exists_ st :
  after 0 st (fail_if_unexpected a r exists_ st).
Proof.
  unfold fail_if_unexpected.
  destruct ((fst r <? 0) && report_failure (snd r) exists_); [|apply after_refl].
  repeat split. eexists. repeat split.
Qed.

Lemma unused_pid_after e st u st' :
  stress_get_unused_pid_racy e st = (u, st') -> after 0 st st'.
Proof.
  unfold stress_get_unused_pid_racy. intros H. inversion H; subst; clear H.
  repeat split. exists []. cbn [log]. rewrite List.app_nil_r. repeat split.
Qed.

(** Walking through [stress_capgetset_pid] call by call; [T] is the
    summary of the calls made so far. *)
Ltac chain T E :=
  let T' := fresh "T" in
  pose proof (after_trans _ _ _ _ _ T E) as T'; clear T E; rename T' into T.

Ltac step_sys T :=
  match goal with
  | |- context [sys ?e ?c ?st] =>
    let r := fresh "r" in
    let s := fresh "s" in
    let E := fresh "E" in
    destruct (sys e c st) as [r s] eqn:E;
    apply sys_after in E; cbn in E; chain T E; cbv beta iota zeta
  end.

Ltac step_fail T :=
  match goal with
  | |- context [fail_if_unexpected ?a ?r ?x ?s] =>
    let F := fresh "F" in
    let s' := fresh "s" in
    pose proof (fail_if_unexpected_after a r x s) as F;
    set (s' := fail_if_unexpected a r x s) in *;
    chain T F
  end.

Ltac step_unused T :=
  match goal with
  | |- context [stress_get_unused_pid_racy ?e ?st] =>
    let u := fresh "u" in
    let s := fresh "s" in
    let E := fresh "E" in
    destruct (stress_get_unused_pid_racy e st) as [u s] eqn:E;
    apply unused_pid_after in E; chain T E; cbv beta iota zeta
  end.

Lemma probe_finish st s (r r' : Z) st1 :
  after 1 st s ->
  (r', inc_counter s) = (r, st1) ->
  counter st1 = wrap64 (counter st + 1) /\
  ncheck st1 = ncheck st /\
  exists d, log st1 = log st ++ d /\ probe_events d.
Proof.
  intros (A & B & d & L & S & C) H. inversion H; subst; clear H.
  unfold inc_counter. cbn [counter ncheck log].
  rewrite A, B. split; [reflexivity|]. split; [reflexivity|].
  exists (d ++ [EvInc]). split; [rewrite L, List.app_assoc; reflexivity|].
  destruct (silent_facts d S) as (I & K & Q & N).
  unfold probe_events. rewrite !count_app, scan_app, Q, I, K, C.
  repeat split. intros s'. rewrite entered_app, N. reflexivity.
Qed.

Ltac probe_tail T :=
  step_sys T; step_sys T; step_unused T;
  step_sys T; step_sys T; step_sys T; step_sys T;
  cbn in T; intros H; exact (probe_finish _ _ _ _ _ T H).

Lemma probe_eq e a pid do_set exists_ st r st1 :
  stress_capgetset_pid e a pid do_set exists_ st = (r, st1) ->
  counter st1 = wrap64 (counter st + 1) /\
  ncheck st1 = ncheck st /\
  exists d, log st1 = log st ++ d /\ probe_events d.
Proof.
  unfold stress_capgetset_pid. cbv zeta.
  pose proof (after_refl st) as T.
  step_sys T. step_fail T.
  destruct do_set.
  - step_sys T. step_fail T. step_sys T. step_sys T. probe_tail T.
  - probe_tail T.
Qed.

Lemma keep_eq e a st k st1 :
  keep e a st = (k, st1) ->
  counter st1 = counter st /\
  log st1 = log st ++ [EvCheck k] /\
  k = keep_stressing (flag e (ncheck st)) (max_ops a) (counter st).
Proof.
  unfold keep. intros H. inversion H; subst. repeat split.
Qed.

(** One probe and the evaluation that follows it. *)
Lemma unit_log e a pid do_set exists_ st r st1 k st2 :
  stress_capgetset_pid e a pid do_set exists_ st = (r, st1) ->
  keep e a st1 = (k, st2) ->
  exists d, log st2 = log st ++ d /\ calm d.
Proof.
  intros Hp Hk.
  destruct (probe_eq _ _ _ _ _ _ _ _ Hp) as (_ & _ & d & Hd & Hev).
  destruct (keep_eq _ _ _ _ _ Hk) as (_ & Hl & _).
  exists (d ++ [EvCheck k]). split.
  - rewrite Hl, Hd, List.app_assoc. reflexivity.
  - apply calm_probe_check. exact Hev.
Qed.

Lemma unit_counter e a pid do_set exists_ st r st1 k st2 :
  0 < max_ops a < 2 ^ 64 ->
  0 <= counter st < max_ops a ->
  stress_capgetset_pid e a pid do_set exists_ st = (r, st1) ->
  keep e a st1 = (k, st2) ->
  counter st2 = counter st + 1 /\
  (k = true -> counter st2 < max_ops a) /\
  (k = false -> (forall n, flag e n = true) -> counter st2 = max_ops a).
Proof.
  intros HC Hc Hp Hk.
  destruct (probe_eq _ _ _ _ _ _ _ _ Hp) as (Hc1 & _ & _).
  destruct (keep_eq _ _ _ _ _ Hk) as (Hc2 & _ & Hkv).
  rewrite wrap64_small in Hc1 by lia.
  rewrite Hc2, Hc1. split; [reflexivity|].
  unfold keep_stressing in Hkv. rewrite Hc1 in Hkv.
  replace (max_ops a =? 0) with false in Hkv by (symmetry; apply Z.eqb_neq; lia).
  split.
  - intros ->. symmetry in Hkv. apply andb_true_iff in Hkv.
    destruct Hkv as [_ Hlt]. simpl in Hlt. apply Z.ltb_lt in Hlt. exact Hlt.
  - intros -> Hf. rewrite Hf in Hkv. simpl in Hkv.
    symmetry in Hkv. apply Z.ltb_ge in Hkv. lia.
Qed.

Lemma readdir_loop_log e a :
  forall ents st,
    exists d, log (readdir_loop e a ents st) = log st ++ d /\ calm d.
Proof.
  induction ents as [|ent ents IH]; intros st.
  - exists []. split; [symmetry; apply List.app_nil_r|apply calm_nil].
  - cbn [readdir_loop].
    destruct (negb (isdigit (first_char ent))); [apply IH|].
    destruct (sscanf_intmax ent) as [p|]; [|apply IH].
    destruct (stress_capgetset_pid e a (wrap_int32 p) false false st)
      as [r st1] eqn:Hp.
    destruct (keep e a st1) as [k st2] eqn:Hk.
    destruct (unit_log _ _ _ _ _ _ _ _ _ _ Hp Hk) as (d & Hd & Hcalm).
    destruct k.
    + destruct (IH st2) as (d' & Hd' & Hcalm').
      exists (d ++ d'). split.
      * rewrite Hd', Hd, List.app_assoc. reflexivity.
      * apply calm_app; assumption.
    + exists d. split; assumption.
Qed.

Lemma readdir_loop_counter e a :
  0 < max_ops a < 2 ^ 64 ->
  forall ents st,
    0 <= counter st < max_ops a ->
    counter st <= counter (readdir_loop e a ents st) <= max_ops a.
Proof.
  intros HC. induction ents as [|ent ents IH]; intros st Hc.
  - simpl. lia.
  - cbn [readdir_loop].
    destruct (negb (isdigit (first_char ent))); [apply IH; exact Hc|].
    destruct (sscanf_intmax ent) as [p|]; [|apply IH; exact Hc].
    destruct (stress_capgetset_pid e a (wrap_int32 p) false false st)
      as [r st1] eqn:Hp.
    destruct (keep e a st1) as [k st2] eqn:Hk.
    destruct (unit_counter _ _ _ _ _ _ _ _ _ _ HC Hc Hp Hk) as (Hc2 & Ht & Hf).
    destruct k.
    + specialize (Ht eq_refl).
      assert (Hb : 0 <= counter st2 < max_ops a) by lia.
      specialize (IH st2 Hb). lia.
    + lia.
Qed.

Ltac cap_unit Hp Hk st1 st2 k :=
  match goal with
  | |- context [stress_capgetset_pid ?e ?a ?p ?s ?x ?st] =>
    let r := fresh "r" in
    destruct (stress_capgetset_pid e a p s x st) as [r st1] eqn:Hp;
    destruct (keep e a st1) as [k st2] eqn:Hk
  end.

(** Whatever a pass appends to the log is made of whole units. *)
Lemma cap_pass_log e a pass st again st' :
  cap_pass e a pass st = (again, st') ->
  exists d, log st' = log st ++ d /\ calm d.
Proof.
  unfold cap_pass.
  cap_unit Hp1 Hk1 st1 st2 k1.
  destruct (unit_log _ _ _ _ _ _ _ _ _ _ Hp1 Hk1) as (d1 & Hd1 & Hcalm1).
  destruct k1; cbn [negb];
    [|intros H; inversion H; subst; exists d1; split; assumption].
  cap_unit Hp2 Hk2 st3 st4 k2.
  destruct (unit_log _ _ _ _ _ _ _ _ _ _ Hp2 Hk2) as (d2 & Hd2 & Hcalm2).
  assert (H4 : exists d, log st4 = log st ++ d /\ calm d).
  { exists (d1 ++ d2). split; [rewrite Hd2, Hd1, List.app_assoc; reflexivity|].
    apply calm_app; assumption. }
  destruct k2; cbn [negb]; [|intros H; inversion H; subst; exact H4].
  cap_unit Hp3 Hk3 st5 st6 k3.
  destruct (unit_log _ _ _ _ _ _ _ _ _ _ Hp3 Hk3) as (d3 & Hd3 & Hcalm3).
  destruct H4 as (d4 & Hd4 & Hcalm4).
  assert (H6 : exists d, log st6 = log st ++ d /\ calm d).
  { exists (d4 ++ d3). split; [rewrite Hd3, Hd4, List.app_assoc; reflexivity|].
    apply calm_app; assumption. }
  destruct k3; cbn [negb]; [|intros H; inversion H; subst; exact H6].
  cbv zeta.
  set (st7 := match proc_dir e pass with
              | Some ents => readdir_loop e a ents st6
              | None => st6
              end).
  assert (H7 : exists d, log st7 = log st ++ d /\ calm d).
  { destruct H6 as (d6 & Hd6 & Hcalm6). subst st7.
    destruct (proc_dir e pass) as [ents|]; [|exists d6; split; assumption].
    destruct (readdir_loop_log e a ents st6) as (d & Hd & Hcalm).
    exists (d6 ++ d). split; [rewrite Hd, Hd6, List.app_assoc; reflexivity|].
    apply calm_app; assumption. }
  intros Hk4.
  destruct (keep_eq _ _ _ _ _ Hk4) as (_ & Hl8 & _).
  destruct H7 as (d7 & Hd7 & Hcalm7).
  exists (d7 ++ [EvCheck again]).
  split; [rewrite Hl8, Hd7, List.app_assoc; reflexivity|].
  apply calm_app; [assumption|apply calm_check].
Qed.

Lemma cap_loop_log e a :
  forall fuel pass st st',
    cap_loop e a fuel pass st = Some st' ->
    exists d, log st' = log st ++ d /\ calm d.
Proof.
  induction fuel as [|fuel IH]; intros pass st st' H; [discriminate|].
  cbn [cap_loop] in H.
  destruct (cap_pass e a pass st) as [again st1] eqn:Hpass.
  destruct (cap_pass_log _ _ _ _ _ _ Hpass) as (d1 & Hd1 & Hcalm1).
  destruct again; [|inversion H; subst; exists d1; split; assumption].
  destruct (IH _ _ _ H) as (d & Hd & Hcalm).
  exists (d1 ++ d). split; [rewrite Hd, Hd1, List.app_assoc; reflexivity|].
  apply calm_app; assumption.
Qed.

(** Under a ceiling a pass moves the counter up, never beyond the
    ceiling, and goes round again only below it. *)
Lemma cap_pass_counter e a pass st again st' :
  0 < max_ops a < 2 ^ 64 ->
  0 <= counter st < max_ops a ->
  cap_pass e a pass st = (again, st') ->
  counter st < counter st' <= max_ops a /\
  (again = true -> counter st' < max_ops a) /\
  (again = false -> (forall n, flag e n = true) -> counter st' = max_ops a).
Proof.
  intros HC Hc. unfold cap_pass.
  cap_unit Hp1 Hk1 st1 st2 k1.
  destruct (unit_counter _ _ _ _ _ _ _ _ _ _ HC Hc Hp1 Hk1) as (Hc2 & Ht2 & Hf2).
  destruct k1; cbn [negb];
    [specialize (Ht2 eq_refl)
    |intros H; inversion H; subst; split; [lia|]; split;
     [discriminate|intros _; apply Hf2; reflexivity]].
  cap_unit Hp2 Hk2 st3 st4 k2.
  assert (Hb2 : 0 <= counter st2 < max_ops a) by lia.
  destruct (unit_counter _ _ _ _ _ _ _ _ _ _ HC Hb2 Hp2 Hk2) as (Hc4 & Ht4 & Hf4).
  destruct k2; cbn [negb];
    [specialize (Ht4 eq_refl)
    |intros H; inversion H; subst; split; [lia|]; split;
     [discriminate|intros _; apply Hf4; reflexivity]].
  cap_unit Hp3 Hk3 st5 st6 k3.
  assert (Hb4 : 0 <= counter st4 < max_ops a) by lia.
  destruct (unit_counter _ _ _ _ _ _ _ _ _ _ HC Hb4 Hp3 Hk3) as (Hc6 & Ht6 & Hf6).
  destruct k3; cbn [negb];
    [specialize (Ht6 eq_refl)
    |intros H; inversion H; subst; split; [lia|]; split;
     [discriminate|intros _; apply Hf6; reflexivity]].
  cbv zeta.
  set (st7 := match proc_dir e pass with
              | Some ents => readdir_loop e a ents st6
              | None => st6
              end).
  assert (H7 : counter st6 <= counter st7 <= max_ops a).
  { subst st7. destruct (proc_dir e pass) as [ents|]; [|lia].
    apply readdir_loop_counter; [exact HC|lia]. }
  intros Hk4.
  destruct (keep_eq _ _ _ _ _ Hk4) as (Hc8 & _ & Hkv).
  unfold keep_stressing in Hkv.
  replace (max_ops a =? 0) with false in Hkv by (symmetry; apply Z.eqb_neq; lia).
  split; [lia|]. split.
  - intros ->. symmetry in Hkv. apply andb_true_iff in Hkv. destruct Hkv as [_ Hlt].
    simpl in Hlt. apply Z.ltb_lt in Hlt. lia.
  - intros -> Hf. rewrite Hf in Hkv. simpl in Hkv. symmetry in Hkv.
    apply Z.ltb_ge in Hkv. lia.
Qed.

(** Under a ceiling the loop ends, never beyond the ceiling, and on the
    ceiling when nothing stops it earlier. *)
Lemma cap_loop_returns e a :
  0 < max_ops a < 2 ^ 64 ->
  forall fuel pass st,
    0 <= counter st < max_ops a ->
    max_ops a - counter st <= Z.of_nat fuel ->
    exists st',
      cap_loop e a fuel pass st = Some st' /\
      counter st' <= max_ops a /\
      ((forall n, flag e n = true) -> counter st' = max_ops a).
Proof.
  intros HC. induction fuel as [|fuel IH]; intros pass st Hc Hfuel; [lia|].
  cbn [cap_loop].
  destruct (cap_pass e a pass st) as [again st1] eqn:Hpass.
  destruct (cap_pass_counter _ _ _ _ _ _ HC Hc Hpass) as (Hc1 & Ht & Hf).
  destruct again.
  - specialize (Ht eq_refl). apply IH; lia.
  - eexists; split; [reflexivity|]. split; [lia|]. apply Hf. reflexivity.
Qed.

(** [stress_cap] from a fresh worker. *)
Lemma stress_cap_inv e fuel a rc st :
  stress_cap e fuel a init_state = Some (rc, st) ->
  rc = EXIT_SUCCESS /\
  exists d, log st = [EvState STRESS_STATE_RUN] ++ d ++ [EvState STRESS_STATE_DEINIT]
            /\ calm d.
Proof.
  unfold stress_cap. intros H.
  destruct (cap_loop e a fuel 0 (emit (EvState STRESS_STATE_RUN) init_state))
    as [st'|] eqn:Hl; [|discriminate].
  inversion H; subst; clear H. split; [reflexivity|].
  destruct (cap_loop_log _ _ _ _ _ _ Hl) as (d & Hd & Hcalm).
  exists d. split; [|exact Hcalm]. simpl. rewrite Hd. reflexivity.
Qed.

Lemma stress_cap_returns e a :
  0 < max_ops a < 2 ^ 64 ->
  exists fuel st,
    stress_cap e fuel a init_state = Some (EXIT_SUCCESS, st) /\
    counter st <= max_ops a /\
    ((forall n, flag e n = true) -> counter st = max_ops a).
Proof.
  intros HC.
  destruct (cap_loop_returns e a HC (Z.to_nat (max_ops a)) 0%nat
              (emit (EvState STRESS_STATE_RUN) init_state))
    as (st' & Hl & Hle & Heq).
  - simpl. lia.
  - simpl. lia.
  - exists (Z.to_nat (max_ops a)), (emit (EvState STRESS_STATE_DEINIT) st').
    unfold stress_cap. rewrite Hl. split; [reflexivity|]. split; assumption.
Qed.

End CapProofs.

(* ================================================================= *)
(** ** The watchdog stressor *)

Module WatchdogProofs.
Import Watchdog.

Lemma run_add e a (n m : nat) (c : config) :
  run e a (n + m) c = run e a m (run e a n c).
Proof.
  revert c. induction n as [|n IH]; intros c; [reflexivity|].
  simpl. apply IH.
Qed.

Lemma step_finished e a c : finished (pc c) = true -> step e a c = c.
Proof. intros H. unfold step. rewrite H. reflexivity. Qed.

Lemma quiet_unsignalled e : quiet e -> unsignalled e.
Proof. intros H k. rewrite H. discriminate. Qed.

(** Reduction of the machine on a configuration written out. *)
Lemma run_S e a n c : run e a (S n) c = run e a n (step e a c).
Proof. reflexivity. Qed.

Ltac wd_red :=
  cbv beta iota delta
      [step exec finished handlers_installed
       pc fd keep_flag counter rc ret jmp_set log nopen nclose clock
       goto set_fd set_flag set_rc set_ret arm_jmp emit tick inc_counter
       do_open do_close stress_watchdog_magic_close fst snd].

(** The installation loop, from index [i] to the access check. *)
Lemma install_loop e a :
  unsignalled e -> handlers_ok e ->
  forall k i fd0 fl cnt r0 rt js lg no nc clk,
    (i + k = nsigs e)%nat ->
    exists fl',
      run e a (S k) (mk_config (L108 i) fd0 fl cnt r0 rt js lg no nc clk)
      = mk_config L118 fd0 fl' cnt r0 rt js lg no nc (S k + clk) /\
      (quiet e -> fl' = fl).
Proof.
  intros Hu Hh. induction k as [|k IH]; intros i fd0 fl cnt r0 rt js lg no nc clk Hik.
  - rewrite run_S. cbn [run]. wd_red.
    replace (i <? nsigs e)%nat with false by (symmetry; apply Nat.ltb_ge; lia).
    destruct (async e clk) eqn:Ha; [|exfalso; exact (Hu _ Ha)|]; wd_red.
    + exists fl. split; reflexivity.
    + exists false. split; [reflexivity|]. intros Hq. rewrite Hq in Ha. discriminate.
  - rewrite run_S.
    assert (Hstep : exists fl1,
               step e a (mk_config (L108 i) fd0 fl cnt r0 rt js lg no nc clk)
               = mk_config (L108 (S i)) fd0 fl1 cnt r0 rt js lg no nc (S clk) /\
               (quiet e -> fl1 = fl)).
    { wd_red.
      replace (i <? nsigs e)%nat with true by (symmetry; apply Nat.ltb_lt; lia).
      replace (sighandler_ret e i <? 0) with false
        by (symmetry; apply Z.ltb_ge; apply Hh).
      destruct (async e clk) eqn:Ha; [|exfalso; exact (Hu _ Ha)|]; wd_red.
      + exists fl. split; reflexivity.
      + exists false. split; [reflexivity|]. intros Hq. rewrite Hq in Ha. discriminate. }
    destruct Hstep as (fl1 & -> & Hfl1).
    destruct (IH (S i) fd0 fl1 cnt r0 rt js lg no nc (S clk) ltac:(lia))
      as (fl' & -> & Hfl').
    exists fl'. split.
    + f_equal. lia.
    + intros Hq. rewrite Hfl', Hfl1 by exact Hq. reflexivity.
Qed.

(** No device: the worker returns right after the access check, with
    the skip message on instance 0 only. *)
Lemma missing_device e a :
  unsignalled e -> handlers_ok e -> access_ret e < 0 ->
  let c := stress_watchdog e a (nsigs e + 3) in
  result c = Some EXIT_SUCCESS /\
  counter c = 0 /\
  log c = if instance a =? 0 then [EvInfSkip (name a) (skip_message e)] else [].
Proof.
  intros Hu Hh Hacc. unfold stress_watchdog, init_config.
  replace (nsigs e + 3)%nat with (S (S (nsigs e) + 1))%nat by lia.
  rewrite run_S.
  assert (H1 : exists fl,
             step e a (mk_config L106 0 true 0 EXIT_SUCCESS 0 false [] 0 0 0)
             = mk_config (L108 0) (-1) fl 0 EXIT_SUCCESS 0 false [] 0 0 1).
  { wd_red. destruct (async e 0); wd_red; eexists; reflexivity. }
  destruct H1 as (fl & ->).
  rewrite run_add.
  destruct (install_loop e a Hu Hh (nsigs e) 0%nat (-1) fl 0 EXIT_SUCCESS 0 false [] 0%nat
                         0%nat 1%nat eq_refl) as (fl' & -> & _).
  rewrite run_S. cbn [run]. wd_red. specialize (Hu (S (nsigs e) + 1)%nat).
  replace (access_ret e <? 0) with true by (symmetry; apply Z.ltb_lt; exact Hacc).
  destruct (async e (S (nsigs e) + 1)); [|contradiction|];
    destruct (instance a =? 0); repeat split.
Qed.

(** One step on a quiet host, in three moves so that no undecided test
    is ever copied: pick the statement, decide its test with [tac],
    carry out the assignments. *)
Ltac step_head Hq :=
  rewrite run_S; cbv beta iota delta [step finished pc];
  rewrite (Hq _); cbv beta iota.

Ltac step_body :=
  cbv beta iota zeta delta
      [exec pc fd keep_flag counter rc ret jmp_set log nopen nclose clock
       stress_watchdog_magic_close do_open do_close fst snd].

Ltac step_tail :=
  cbv beta iota zeta delta
      [pc fd keep_flag counter rc ret jmp_set log nopen nclose clock
       goto set_fd set_flag set_rc set_ret arm_jmp emit tick inc_counter].

Tactic Notation "quiet_step" constr(Hq) "then" tactic(tac) :=
  step_head Hq; step_body; tac; step_tail.

Tactic Notation "quiet_step" constr(Hq) :=
  step_head Hq; step_body; step_tail.

(** From the entry of [stress_watchdog] to the first evaluation of the
    loop condition, on a quiet host with the device accessible. *)
Lemma setup e a :
  quiet e -> handlers_ok e -> 0 <= access_ret e ->
  stress_watchdog e a (nsigs e + 6)
  = mk_config L145 0 true 0 EXIT_SUCCESS 0 true [EvState STRESS_STATE_RUN] 0 0
              (nsigs e + 6).
Proof.
  intros Hq Hh Hacc. unfold stress_watchdog, init_config.
  replace (nsigs e + 6)%nat with (S (S (nsigs e) + 4))%nat by lia.
  rewrite run_S, run_add.
  wd_red. rewrite (Hq _). wd_red.
  destruct (install_loop e a (quiet_unsignalled e Hq) Hh (nsigs e) 0%nat (-1) true 0
                         EXIT_SUCCESS 0 false [] 0%nat 0%nat 1%nat eq_refl)
    as (fl' & -> & Hfl).
  rewrite (Hfl Hq).
  assert (Ha : (access_ret e <? 0) = false) by (apply Z.ltb_ge; exact Hacc).
  quiet_step Hq then (rewrite Ha).
  quiet_step Hq. quiet_step Hq. quiet_step Hq.
  cbn [run]. f_equal. lia.
Qed.

Ltac ioctl_step Hq :=
  quiet_step Hq then
    (cbv beta iota delta [Nat.ltb Nat.leb List.length ioctl_requests]).

(** One full pass through the loop when the device opens and closes. *)
Lemma iteration e a :
  quiet e ->
  forall fd0 cnt r0 rt js lg no nc clk,
    0 <= open_ret e no -> 0 <= close_ret e nc ->
    keep_stressing true (max_ops a) cnt = true ->
    exists lg',
      run e a 18 (mk_config L145 fd0 true cnt r0 rt js lg no nc clk)
      = mk_config L145 (-1) true (wrap64 (cnt + 1)) r0 (close_ret e nc) js lg'
                  (S no) (S nc) (18 + clk).
Proof.
  intros Hq fd0 cnt r0 rt js lg no nc clk Ho Hc Hk.
  assert (Ho1 : (open_ret e no <? 0) = false) by (apply Z.ltb_ge; exact Ho).
  assert (Ho2 : (0 <=? open_ret e no) = true) by (apply Z.leb_le; exact Ho).
  assert (Hc1 : (close_ret e nc <? 0) = false) by (apply Z.ltb_ge; exact Hc).
  quiet_step Hq then (rewrite Hk).
  quiet_step Hq.
  quiet_step Hq then (rewrite Ho1).
  quiet_step Hq then (rewrite Ho2).
  do 8 ioctl_step Hq.
  quiet_step Hq then (rewrite Ho2).
  quiet_step Hq.
  quiet_step Hq.
  quiet_step Hq then (rewrite Hc1).
  quiet_step Hq.
  quiet_step Hq.
  cbn [run]. eexists. reflexivity.
Qed.

Lemma keep_below (c m : Z) : 0 < m -> c < m -> keep_stressing true m c = true.
Proof.
  intros Hm Hc. unfold keep_stressing.
  replace (c <? m) with true by (symmetry; apply Z.ltb_lt; exact Hc).
  rewrite orb_true_r. reflexivity.
Qed.

Lemma keep_at_ceiling (b : bool) (m : Z) : 0 < m -> keep_stressing b m m = false.
Proof.
  intros Hm. unfold keep_stressing.
  replace (m =? 0) with false by (symmetry; apply Z.eqb_neq; lia).
  rewrite Z.ltb_irrefl. apply andb_false_r.
Qed.

(** The loop up to the ceiling. *)
Lemma loop_runs e a :
  quiet e -> opens_ok e -> closes_ok e -> 0 < max_ops a < 2 ^ 64 ->
  forall m fd0 cnt r0 rt js lg no nc clk,
    0 <= cnt -> cnt + Z.of_nat m = max_ops a ->
    exists fd' rt' lg' no' nc' clk',
      run e a (18 * m) (mk_config L145 fd0 true cnt r0 rt js lg no nc clk)
      = mk_config L145 fd' true (max_ops a) r0 rt' js lg' no' nc' clk'.
Proof.
  intros Hq Ho Hc HC. induction m as [|m IH];
    intros fd0 cnt r0 rt js lg no nc clk Hcnt Hm.
  - replace cnt with (max_ops a) by lia. cbn [Nat.mul run].
    do 6 eexists. reflexivity.
  - replace (18 * S m)%nat with (18 + 18 * m)%nat by lia.
    rewrite run_add.
    destruct (iteration e a Hq fd0 cnt r0 rt js lg no nc clk (Ho no) (Hc nc))
      as (lg' & ->); [apply keep_below; lia|].
    rewrite wrap64_small by lia.
    apply IH; lia.
Qed.

(** Leaving the loop at the ceiling. *)
Lemma loop_exit e a :
  quiet e -> 0 < max_ops a ->
  forall fd0 r0 rt js lg no nc clk,
    exists lg' clk',
      run e a 3 (mk_config L145 fd0 true (max_ops a) r0 rt js lg no nc clk)
      = mk_config (Returned r0) fd0 true (max_ops a) r0 rt js lg' no nc clk'.
Proof.
  intros Hq HC fd0 r0 rt js lg no nc clk.
  quiet_step Hq then (rewrite (keep_at_ceiling true _ HC)).
  quiet_step Hq. quiet_step Hq. cbn [run].
  do 2 eexists. reflexivity.
Qed.

(** On a quiet host whose device opens and closes, the watchdog worker
    returns SUCCESS with its counter on the ceiling. *)
Lemma watchdog_reaches_ceiling e a :
  quiet e -> handlers_ok e -> 0 <= access_ret e -> opens_ok e -> closes_ok e ->
  0 < max_ops a < 2 ^ 64 ->
  exists n,
    result (stress_watchdog e a n) = Some EXIT_SUCCESS /\
    counter (stress_watchdog e a n) = max_ops a.
Proof.
  intros Hq Hh Hacc Ho Hc HC.
  exists ((nsigs e + 6) + (18 * Z.to_nat (max_ops a) + 3))%nat.
  unfold stress_watchdog. rewrite run_add.
  pose proof (setup e a Hq Hh Hacc) as Hs. unfold stress_watchdog in Hs. rewrite Hs.
  rewrite run_add.
  destruct (loop_runs e a Hq Ho Hc HC (Z.to_nat (max_ops a)) 0 0 EXIT_SUCCESS 0 true
                      [EvState STRESS_STATE_RUN] 0%nat 0%nat (nsigs e + 6)%nat)
    as (fd' & rt' & lg' & no' & nc' & clk' & ->); [lia|lia|].
  destruct (loop_exit e a Hq ltac:(lia) fd' EXIT_SUCCESS rt' true lg' no' nc' clk')
    as (lg2 & clk2 & ->).
  split; reflexivity.
Qed.

Lemma run_invariant e a (P : config -> Prop) :
  (forall c, P c -> P (step e a c)) ->
  forall n c, P c -> P (run e a n c).
Proof.
  intros Hstep. induction n as [|n IH]; intros c Hc; [exact Hc|].
  cbn [run]. apply IH, Hstep, Hc.
Qed.

(** *** A device that stays busy *)

Lemma retrying_step e a :
  quiet e -> handlers_ok e -> 0 <= access_ret e -> opens_busy e -> 0 < max_ops a ->
  forall c, retrying c -> retrying (step e a c).
Proof.
  intros Hq Hh Hacc Hbusy HC [p fd0 fl cnt r0 rt js lg no nc clk].
  unfold retrying. cbn [pc keep_flag counter fd]. intros (-> & -> & Hp).
  destruct p; try contradiction;
    unfold step; cbn [pc finished clock]; rewrite (Hq _); step_body.
  - step_tail. repeat split.
  - destruct (i <? nsigs e)%nat; [|step_tail; repeat split].
    replace (sighandler_ret e i <? 0) with false
      by (symmetry; apply Z.ltb_ge; apply Hh).
    step_tail. repeat split.
  - replace (access_ret e <? 0) with false by (symmetry; apply Z.ltb_ge; exact Hacc).
    step_tail. repeat split.
  - step_tail. repeat split.
  - step_tail. repeat split.
  - step_tail. repeat split.
  - rewrite (keep_below 0 (max_ops a)) by lia. step_tail. repeat split.
  - step_tail. repeat split. apply Hbusy.
  - replace (fd0 <? 0) with true by (symmetry; apply Z.ltb_lt; exact Hp).
    step_tail. repeat split.
  - step_tail. repeat split.
Qed.

(** While every open fails the worker keeps retrying and never returns. *)
Lemma busy_never_returns e a :
  quiet e -> handlers_ok e -> 0 <= access_ret e -> opens_busy e -> 0 < max_ops a ->
  forall n, result (stress_watchdog e a n) = None /\
            counter (stress_watchdog e a n) = 0.
Proof.
  intros Hq Hh Hacc Hbusy HC n.
  assert (H : retrying (stress_watchdog e a n)).
  { unfold stress_watchdog.
    apply (run_invariant e a retrying); [apply retrying_step; assumption|].
    unfold retrying, init_config; cbn. repeat split. }
  destruct H as (_ & Hc & Hp). split; [|exact Hc].
  unfold result. destruct (pc (stress_watchdog e a n)); try reflexivity; contradiction.
Qed.

(** A failed open is followed by the short sleep and a new evaluation
    of the loop condition, and then, the condition permitting, by the
    next open; the outcome is untouched. *)
Lemma busy_retry e a :
  quiet e ->
  forall fd0 fl cnt r0 rt js lg no nc clk,
    open_ret e no < 0 ->
    run e a 3 (mk_config L146 fd0 fl cnt r0 rt js lg no nc clk)
    = mk_config L145 (open_ret e no) fl cnt r0 rt js
                (lg ++ [EvSys (SysOpen (open_ret e no))] ++ [EvSys SysNanosleep])
                (S no) nc (3 + clk)
    /\ (keep_stressing fl (max_ops a) cnt = true ->
        exists lg',
          run e a 4 (mk_config L146 fd0 fl cnt r0 rt js lg no nc clk)
          = mk_config L146 (open_ret e no) fl cnt r0 rt js lg' (S no) nc (4 + clk)).
Proof.
  intros Hq fd0 fl cnt r0 rt js lg no nc clk Hneg.
  assert (Ho : (open_ret e no <? 0) = true) by (apply Z.ltb_lt; exact Hneg).
  split.
  - quiet_step Hq. quiet_step Hq then (rewrite Ho). quiet_step Hq.
    cbn [run]. rewrite <- List.app_assoc. reflexivity.
  - intros Hk.
    quiet_step Hq. quiet_step Hq then (rewrite Ho). quiet_step Hq.
    quiet_step Hq then (rewrite Hk).
    cbn [run]. eexists. reflexivity.
Qed.

(** *** Properties of every reachable configuration *)

Lemma step_cases e a c :
  finished (pc c) = false ->
  step e a c = tick (exec e a c) \/
  step e a c = tick (exec e a (set_flag false c)) \/
  (async e (clock c) = Signal /\ handlers_installed (pc c) = true /\
   step e a c = tick (goto H87 c)).
Proof.
  intros Hf. unfold step. rewrite Hf.
  destruct (async e (clock c)) eqn:Ha.
  - left. reflexivity.
  - destruct (handlers_installed (pc c)).
    + right. right. repeat split.
    + left. reflexivity.
  - right. left. reflexivity.
Qed.

Lemma entered_run_then_deinit (l : list event) :
  entered STRESS_STATE_RUN l = true ->
  Contract.deinit_after_run (l ++ [EvState STRESS_STATE_DEINIT]) = true.
Proof.
  induction l as [|ev l IH]; intros H; [discriminate|].
  cbn [entered List.existsb] in H. cbn [List.app Contract.deinit_after_run].
  destruct ev; try (apply IH; exact H).
  destruct s; try (apply IH; exact H).
  change (entered STRESS_STATE_DEINIT (l ++ [EvState STRESS_STATE_DEINIT]) = true).
  rewrite entered_app. apply orb_true_r.
Qed.

Ltac split_tests :=
  repeat match goal with
         | |- context [if ?b then _ else _] => destruct b
         end.

Lemma orderly_exec e a c :
  finished (pc c) = false -> orderly c -> orderly (tick (exec e a c)).
Proof.
  destruct c as [p fd0 fl cnt r0 rt js lg no nc clk].
  unfold orderly. cbn [pc log].
  destruct p; cbn [finished]; try discriminate; try contradiction;
    intros _ H; step_body; split_tests; step_tail;
    rewrite ?entered_app, ?H; try reflexivity; try assumption;
    try (intros; discriminate);
    try (apply entered_run_then_deinit; exact H).
Qed.

Lemma orderly_set_flag b c : orderly c -> orderly (set_flag b c).
Proof. destruct c. unfold orderly. cbn. auto. Qed.

Lemma orderly_step e a :
  unsignalled e -> forall c, orderly c -> orderly (step e a c).
Proof.
  intros Hu c H.
  destruct (finished (pc c)) eqn:Hf; [rewrite step_finished by exact Hf; exact H|].
  destruct (step_cases e a c Hf) as [-> | [-> | (Ha & _)]].
  - apply orderly_exec; assumption.
  - apply orderly_exec; [destruct c; exact Hf|apply orderly_set_flag; exact H].
  - exfalso. exact (Hu _ Ha).
Qed.

(** Without a handled signal, a return that follows RUN has DEINIT
    logged after RUN. *)
Lemma unsignalled_return_deinit e a n r :
  unsignalled e ->
  result (stress_watchdog e a n) = Some r ->
  entered STRESS_STATE_RUN (log (stress_watchdog e a n)) = true ->
  Contract.deinit_after_run (log (stress_watchdog e a n)) = true.
Proof.
  intros Hu Hr.
  assert (H : orderly (stress_watchdog e a n)).
  { unfold stress_watchdog.
    apply (run_invariant e a orderly); [apply orderly_step; exact Hu|].
    reflexivity. }
  unfold orderly in H. unfold result in Hr.
  destruct (pc (stress_watchdog e a n)); try discriminate. exact H.
Qed.

Lemma no_failure_exec e a c :
  handlers_ok e -> closes_ok e ->
  finished (pc c) = false -> no_failure c -> no_failure (tick (exec e a c)).
Proof.
  intros Hh Hc.
  destruct c as [p fd0 fl cnt r0 rt js lg no nc clk].
  unfold no_failure. cbn [pc rc ret].
  destruct p; cbn [finished]; try discriminate;
    intros _ [-> H]; try contradiction; step_body.
  all: try (step_tail; split_tests; repeat split; exact H).
  all: try (split_tests; step_tail; repeat split; fail).
  - destruct (i <? nsigs e)%nat; [|step_tail; repeat split].
    replace (sighandler_ret e i <? 0) with false
      by (symmetry; apply Z.ltb_ge; apply Hh).
    step_tail. repeat split.
  - step_tail. split; [reflexivity|]. apply Hc.
  - replace (rt <? 0) with false by (symmetry; apply Z.ltb_ge; exact H).
    step_tail. repeat split.
Qed.

Lemma no_failure_set_flag b c : no_failure c -> no_failure (set_flag b c).
Proof. destruct c. unfold no_failure. cbn. auto. Qed.

Lemma no_failure_handler c :
  finished (pc c) = false -> no_failure c -> no_failure (tick (goto H87 c)).
Proof.
  destruct c. unfold no_failure. cbn. intros _ [-> _]. repeat split.
Qed.

Lemma no_failure_step e a :
  handlers_ok e -> closes_ok e ->
  forall c, no_failure c -> no_failure (step e a c).
Proof.
  intros Hh Hc c H.
  destruct (finished (pc c)) eqn:Hf; [rewrite step_finished by exact Hf; exact H|].
  destruct (step_cases e a c Hf) as [-> | [-> | (_ & _ & ->)]].
  - apply no_failure_exec; assumption.
  - apply no_failure_exec;
      [exact Hh|exact Hc|destruct c; exact Hf|apply no_failure_set_flag; exact H].
  - apply no_failure_handler; assumption.
Qed.

Lemma busy_is_no_failure e a n r :
  handlers_ok e -> closes_ok e ->
  result (stress_watchdog e a n) = Some r -> r = EXIT_SUCCESS.
Proof.
  intros Hh Hc Hr.
  assert (H : no_failure (stress_watchdog e a n)).
  { unfold stress_watchdog.
    apply (run_invariant e a no_failure); [apply no_failure_step; assumption|].
    split; reflexivity. }
  destruct H as [_ H]. unfold result in Hr.
  destruct (pc (stress_watchdog e a n)); try discriminate.
  inversion Hr as [Hr']. rewrite <- Hr'. exact H.
Qed.

Lemma scan_snoc q l ev :
  Contract.scan q (l ++ [ev]) = Contract.scan_step (Contract.scan q l) ev.
Proof. rewrite scan_app. reflexivity. Qed.

Lemma paced_exec e a c :
  finished (pc c) = false -> paced c -> paced (tick (exec e a c)).
Proof.
  destruct c as [p fd0 fl cnt r0 rt js lg no nc clk].
  unfold paced. cbn [pc log].
  intros Hf (b & Hs & Hb).
  destruct p; cbn [finished] in Hf; try discriminate; step_body;
    split_tests; step_tail; rewrite ?scan_snoc, Hs; cbn [Contract.scan_step];
    try (exists b; split; [reflexivity|]; first [exact Hb | reflexivity | intros; reflexivity]);
    try (exists false; split; [reflexivity|discriminate]).
  all: destruct b; [specialize (Hb eq_refl); discriminate|].
  all: try (exists false; split; [reflexivity|discriminate]).
  exists true. split; reflexivity.
Qed.

Lemma paced_set_flag b c : paced c -> paced (set_flag b c).
Proof. destruct c. unfold paced. cbn. auto. Qed.

Lemma paced_handler c : paced c -> paced (tick (goto H87 c)).
Proof.
  destruct c. unfold paced. cbn [pc log tick goto]. intros (b & Hs & _).
  exists b. split; [exact Hs|reflexivity].
Qed.

Lemma paced_step e a : forall c, paced c -> paced (step e a c).
Proof.
  intros c H.
  destruct (finished (pc c)) eqn:Hf; [rewrite step_finished by exact Hf; exact H|].
  destruct (step_cases e a c Hf) as [-> | [-> | (_ & _ & ->)]].
  - apply paced_exec; assumption.
  - apply paced_exec; [destruct c; exact Hf|apply paced_set_flag; exact H].
  - apply paced_handler; assumption.
Qed.

Lemma watchdog_paced e a n :
  Contract.checked_between_units (log (stress_watchdog e a n)).
Proof.
  assert (H : paced (stress_watchdog e a n)).
  { unfold stress_watchdog.
    apply (run_invariant e a paced); [apply paced_step|].
    exists false. split; [reflexivity|discriminate]. }
  destruct H as (b & Hs & _). exists b. exact Hs.
Qed.

(** *** Reaching the ceiling through busy spells *)

Lemma install_quiet e a :
  quiet e -> handlers_install e ->
  forall k i fd0 fl cnt r0 rt js lg no nc clk,
    (i + k = nsigs e)%nat ->
    run e a (S k) (mk_config (L108 i) fd0 fl cnt r0 rt js lg no nc clk)
    = mk_config L118 fd0 fl cnt r0 rt js lg no nc (S k + clk).
Proof.
  intros Hq Hh. induction k as [|k IH];
    intros i fd0 fl cnt r0 rt js lg no nc clk Hik.
  - quiet_step Hq then
      (replace (i <? nsigs e)%nat with false by (symmetry; apply Nat.ltb_ge; lia)).
    cbn [run]. reflexivity.
  - quiet_step Hq then
      (replace (i <? nsigs e)%nat with true by (symmetry; apply Nat.ltb_lt; lia);
       replace (sighandler_ret e i <? 0) with false
         by (symmetry; apply Z.ltb_ge; apply Hh; lia)).
    rewrite IH by lia. f_equal. lia.
Qed.

Lemma setup_quiet e a :
  quiet e -> handlers_install e -> 0 <= access_ret e ->
  stress_watchdog e a (nsigs e + 6)
  = mk_config L145 0 true 0 EXIT_SUCCESS 0 true [EvState STRESS_STATE_RUN] 0 0
              (nsigs e + 6).
Proof.
  intros Hq Hh Hacc. unfold stress_watchdog, init_config.
  replace (nsigs e + 6)%nat with (S (S (nsigs e) + 4))%nat by lia.
  rewrite run_S, run_add.
  wd_red. rewrite (Hq _). wd_red.
  rewrite (install_quiet e a Hq Hh (nsigs e) 0%nat) by reflexivity.
  assert (Ha : (access_ret e <? 0) = false) by (apply Z.ltb_ge; exact Hacc).
  quiet_step Hq then (rewrite Ha).
  quiet_step Hq. quiet_step Hq. quiet_step Hq.
  cbn [run]. f_equal. lia.
Qed.

(** A pass that finds the device busy. *)
Lemma busy_pass e a :
  quiet e ->
  forall fd0 cnt r0 rt js lg no nc clk,
    open_ret e no < 0 ->
    keep_stressing true (max_ops a) cnt = true ->
    exists lg',
      run e a 4 (mk_config L145 fd0 true cnt r0 rt js lg no nc clk)
      = mk_config L145 (open_ret e no) true cnt r0 rt js lg' (S no) nc (4 + clk).
Proof.
  intros Hq fd0 cnt r0 rt js lg no nc clk Hneg Hk.
  assert (Ho : (open_ret e no <? 0) = true) by (apply Z.ltb_lt; exact Hneg).
  quiet_step Hq then (rewrite Hk).
  quiet_step Hq. quiet_step Hq then (rewrite Ho). quiet_step Hq.
  cbn [run]. eexists. reflexivity.
Qed.

(** The loop up to the ceiling when enough of the opens to come
    succeed. *)
Lemma loop_reaches e a :
  quiet e -> 0 < max_ops a < 2 ^ 64 -> closes_suffice e (max_ops a) ->
  forall len fd0 cnt r0 rt js lg no nc clk,
    0 <= cnt <= max_ops a -> cnt = Z.of_nat nc ->
    max_ops a <= cnt + Z.of_nat (opens_good e no len) ->
    exists n fd' rt' lg' no' nc' clk',
      run e a n (mk_config L145 fd0 true cnt r0 rt js lg no nc clk)
      = mk_config L145 fd' true (max_ops a) r0 rt' js lg' no' nc' clk'.
Proof.
  intros Hq HC Hc. induction len as [|len IH];
    intros fd0 cnt r0 rt js lg no nc clk Hcnt Hnc Hgood.
  - cbn [opens_good] in Hgood. replace cnt with (max_ops a) by lia.
    exists 0%nat. cbn [run]. do 6 eexists. reflexivity.
  - destruct (Z.eq_dec cnt (max_ops a)) as [->|Hne].
    { exists 0%nat. cbn [run]. do 6 eexists. reflexivity. }
    assert (Hk : keep_stressing true (max_ops a) cnt = true)
      by (apply keep_below; lia).
    cbn [opens_good] in Hgood.
    destruct (0 <=? open_ret e no) eqn:Ho.
    + apply Z.leb_le in Ho.
      destruct (iteration e a Hq fd0 cnt r0 rt js lg no nc clk Ho
                          (Hc nc ltac:(lia)) Hk) as (lg1 & H1).
      destruct (IH (-1) (wrap64 (cnt + 1)) r0 (close_ret e nc) js lg1 (S no) (S nc)
                   (18 + clk)%nat)
        as (n & fd' & rt' & lg' & no' & nc' & clk' & H2).
      * rewrite wrap64_small by lia. lia.
      * rewrite wrap64_small by lia. lia.
      * rewrite wrap64_small by lia. lia.
      * exists (18 + n)%nat. rewrite run_add, H1. do 6 eexists. exact H2.
    + apply Z.leb_gt in Ho.
      destruct (busy_pass e a Hq fd0 cnt r0 rt js lg no nc clk Ho Hk) as (lg1 & H1).
      destruct (IH (open_ret e no) cnt r0 rt js lg1 (S no) nc (4 + clk)%nat)
        as (n & fd' & rt' & lg' & no' & nc' & clk' & H2); [lia|exact Hnc|lia|].
      exists (4 + n)%nat. rewrite run_add, H1. do 6 eexists. exact H2.
Qed.

(** On a quiet host whose handlers install, whose device is accessible
    and yields a descriptor at least max_ops times, and whose first
    max_ops closes succeed, the worker returns SUCCESS with its counter
    on the ceiling. *)
Lemma watchdog_reaches_ceiling_through_busy e a :
  quiet e -> handlers_install e -> 0 <= access_ret e ->
  opens_suffice e (max_ops a) -> closes_suffice e (max_ops a) ->
  0 < max_ops a < 2 ^ 64 ->
  exists n,
    result (stress_watchdog e a n) = Some EXIT_SUCCESS /\
    counter (stress_watchdog e a n) = max_ops a.
Proof.
  intros Hq Hh Hacc (N & Ho) Hc HC.
  destruct (loop_reaches e a Hq HC Hc N 0 0 EXIT_SUCCESS 0 true
                         [EvState STRESS_STATE_RUN] 0%nat 0%nat (nsigs e + 6)%nat)
    as (n & fd' & rt' & lg' & no' & nc' & clk' & Hloop); [lia|reflexivity|lia|].
  destruct (loop_exit e a Hq ltac:(lia) fd' EXIT_SUCCESS rt' true lg' no' nc' clk')
    as (lg2 & clk2 & Hexit).
  exists ((nsigs e + 6) + (n + 3))%nat.
  unfold stress_watchdog. rewrite run_add.
  pose proof (setup_quiet e a Hq Hh Hacc) as Hs. unfold stress_watchdog in Hs.
  rewrite Hs, run_add, Hloop, Hexit. split; reflexivity.
Qed.

(** *** The emergency cleanup *)

Lemma magic_close_guard c :
  fd c < 0 -> stress_watchdog_magic_close c = c.
Proof.
  intros H. unfold stress_watchdog_magic_close.
  replace (0 <=? fd c) with false by (symmetry; apply Z.leb_gt; exact H).
  reflexivity.
Qed.

Lemma magic_close_releases_nothing c :
  fd (stress_watchdog_magic_close c) = fd c /\
  forall k, count (Contract.is_close_of k) (log (stress_watchdog_magic_close c))
            = count (Contract.is_close_of k) (log c).
Proof.
  unfold stress_watchdog_magic_close. destruct (0 <=? fd c); [|split; reflexivity].
  destruct c; cbn [fd log emit]. split; [reflexivity|]. intros k.
  rewrite count_app. cbn. lia.
Qed.

Lemma magic_close_twice c :
  fd (stress_watchdog_magic_close (stress_watchdog_magic_close c)) = fd c /\
  forall k,
    count (Contract.is_close_of k)
          (log (stress_watchdog_magic_close (stress_watchdog_magic_close c)))
    = count (Contract.is_close_of k) (log c).
Proof.
  destruct (magic_close_releases_nothing (stress_watchdog_magic_close c)) as [F1 C1].
  destruct (magic_close_releases_nothing c) as [F2 C2].
  split; [congruence|]. intros k. rewrite C1. apply C2.
Qed.

(** The close at the end of a pass and the statement behind it leave
    fd negative. *)
Lemma close_resets_fd e a :
  forall fd0 fl cnt r0 rt js lg no nc clk,
    async e clk = Quiet -> async e (S clk) = Quiet ->
    run e a 2 (mk_config L236 fd0 fl cnt r0 rt js lg no nc clk)
    = mk_config L238 (-1) fl cnt r0 (close_ret e nc) js
                (lg ++ [EvSys (SysClose fd0)]) no (S nc) (2 + clk).
Proof.
  intros fd0 fl cnt r0 rt js lg no nc clk H1 H2.
  rewrite run_S; cbv beta iota delta [step finished pc clock]; rewrite H1;
    cbv beta iota; step_body; step_tail.
  rewrite run_S; cbv beta iota delta [step finished pc clock]; rewrite H2;
    cbv beta iota; step_body; step_tail.
  reflexivity.
Qed.

(** The code behind the resume point returns EXIT_SUCCESS and sets no
    run state on its way. *)
Lemma resume_block e a :
  quiet e ->
  forall fd0 fl cnt r0 rt js lg no nc clk,
    exists c',
      run e a 4 (mk_config L136 fd0 fl cnt r0 rt js lg no nc clk) = c' /\
      result c' = Some EXIT_SUCCESS /\
      forall s, entered s (log c') = entered s lg.
Proof.
  intros Hq fd0 fl cnt r0 rt js lg no nc clk.
  step_head Hq. step_body. destruct (0 <=? fd0) eqn:Hfd; step_tail.
  - quiet_step Hq then (rewrite Hfd).
    quiet_step Hq. quiet_step Hq. cbn [run].
    eexists. split; [reflexivity|]. split; [reflexivity|].
    intros s. cbn [log]. rewrite !entered_app. cbn. rewrite !orb_false_r. reflexivity.
  - quiet_step Hq. rewrite !run_S. cbv beta iota delta [step finished pc]. cbn [run].
    eexists. split; [reflexivity|]. split; [reflexivity|].
    intros s. reflexivity.
Qed.

(** The handler reaches siglongjmp whatever its write does, and lands
    on the resume point with the flag cleared. *)
Lemma handler_proceeds e a :
  forall fd0 fl cnt r0 rt lg no nc clk,
    async e clk = Quiet -> async e (S clk) = Quiet -> async e (S (S clk)) = Quiet ->
    exists lg',
      run e a 3 (mk_config H87 fd0 fl cnt r0 rt true lg no nc clk)
      = mk_config L136 fd0 false cnt r0 1 true lg' no nc (3 + clk).
Proof.
  intros fd0 fl cnt r0 rt lg no nc clk H1 H2 H3.
  rewrite run_S; cbv beta iota delta [step finished pc clock]; rewrite H1;
    cbv beta iota; step_body.
  destruct (0 <=? fd0); step_tail;
    (rewrite run_S; cbv beta iota delta [step finished pc clock]; rewrite H2;
     cbv beta iota; step_body; step_tail;
     rewrite run_S; cbv beta iota delta [step finished pc clock]; rewrite H3;
     cbv beta iota; step_body; step_tail;
     cbn [run]; eexists; reflexivity).
Qed.

End WatchdogProofs.

(* ================================================================= *)
(** ** Further lemmas on the three files

    How each workload behaves when a step of its setup fails, what its
    loops do call by call, and when they end; one module per source
    file. *)

(** *** stress-context.c *)

Module ContextCoverage.
Import Context.

(** The contexts are created intact: [stress_context_init] copies each
    canary into the word it guards. *)
Lemma init_contexts_intact e :
  forall n i cs, init_contexts e i n = Some cs -> List.forallb intact cs = true.
Proof.
  induction n as [|n IH]; intros i cs H.
  - inversion H. reflexivity.
  - cbn [init_contexts] in H. unfold stress_context_init in H.
    destruct (getcontext_ok e i); [|discriminate].
    destruct (init_contexts e (S i) n) as [cs'|] eqn:E; [|discriminate].
    inversion H; subst. cbn [List.forallb]. rewrite (IH _ _ E).
    unfold intact. cbn. rewrite !Z.eqb_refl. reflexivity.
Qed.

Lemma clobber_all_id e :
  (forall i c, clobber e i c = c) ->
  forall cs i, clobber_all e i cs = cs.
Proof.
  intros H. induction cs as [|c cs IH]; intros i; [reflexivity|].
  cbn [clobber_all]. rewrite H, IH. reflexivity.
Qed.

(** The creation loop fails exactly when one of the three getcontext
    calls does. *)
Lemma init_contexts_none e :
  init_contexts e 0 STRESS_CONTEXTS = None <->
  exists i, (i < 3)%nat /\ getcontext_ok e i = false.
Proof.
  unfold STRESS_CONTEXTS. cbn [init_contexts]. unfold stress_context_init.
  destruct (getcontext_ok e 0) eqn:E0; [|split; [exists 0%nat; split; [lia|exact E0]|reflexivity]].
  destruct (getcontext_ok e 1) eqn:E1; [|split; [exists 1%nat; split; [lia|exact E1]|reflexivity]].
  destruct (getcontext_ok e 2) eqn:E2; [|split; [exists 2%nat; split; [lia|exact E2]|reflexivity]].
  split; [discriminate|]. intros (i & Hi & Hf).
  assert (i = 0 \/ i = 1 \/ i = 2)%nat as [-> | [-> | ->]] by lia; congruence.
Qed.

Lemma thread_cond_below (f : bool) (M c : Z) :
  M <> 0 -> thread_cond f M c = true -> c < M.
Proof.
  intros HM H. unfold thread_cond, c_lnot in H.
  apply andb_true_iff in H. destruct H as [_ H].
  replace (M =? 0) with false in H by (symmetry; apply Z.eqb_neq; exact HM).
  apply Z.ltb_lt. exact H.
Qed.

Section AnyFlag.
Variable e : env.
Variable M : Z.
Hypothesis M_pos : 0 < M.
Hypothesis M_room : M + 2 < 2 ^ 64.

(** Whatever the flag does, the loop hands control back with at least
    one switch made and at most the ceiling plus 2. *)
Lemma run_threads_bounded :
  forall fuel cur p s r,
    within M cur p s ->
    (p = AtCond -> 1 <= context_counter s) ->
    run_threads e M fuel cur p s = Some r ->
    1 <= context_counter r <= M + 2.
Proof.
  induction fuel as [|fuel IH]; intros cur p s r Hin Hone Hrun; [discriminate|].
  cbn [run_threads] in Hrun. destruct p.
  - assert (Hc : context_counter (bump s) = context_counter s + 1).
    { destruct Hin as [H0 H]. pose proof (ContextProofs.unstarted_nonneg cur s).
      destruct s; cbn in *. apply wrap64_small. lia. }
    assert (H1 : 1 <= context_counter s + 1) by (destruct Hin; lia).
    destruct (thread_swap_ok e (nswap s)).
    + eapply IH; [| |exact Hrun].
      * apply ContextProofs.within_body_swap; assumption.
      * intros _. replace (context_counter (save cur AtCond (bump s)))
          with (context_counter s + 1)
          by (rewrite <- Hc; destruct cur, s; reflexivity). exact H1.
    + eapply IH; [| |exact Hrun].
      * apply ContextProofs.within_body_fail; assumption.
      * intros _. rewrite Hc. exact H1.
  - destruct (thread_cond (flag e (ncheck s)) M (context_counter s)) eqn:Hcond.
    + eapply IH; [| |exact Hrun].
      * apply ContextProofs.within_cond_true; [|exact Hin].
        eapply thread_cond_below; [|exact Hcond]; lia.
      * discriminate.
    + inversion Hrun; subst r. destruct Hin as [H0 H].
      pose proof (ContextProofs.unstarted_nonneg cur s).
      specialize (Hone eq_refl). destruct s; cbn in *. lia.
Qed.

Lemma run_threads_ends :
  forall fuel cur p s,
    within M cur p s ->
    2 * (M + 3 - context_counter s) + (match p with AtCond => 1 | AtBody => 0 end)
      < Z.of_nat fuel ->
    exists r, run_threads e M fuel cur p s = Some r.
Proof.
  induction fuel as [|fuel IH]; intros cur p s Hin Hfuel.
  - destruct Hin as [H0 H]. pose proof (ContextProofs.unstarted_nonneg cur s).
    destruct p; lia.
  - cbn [run_threads]. destruct p.
    + assert (Hc : context_counter (bump s) = context_counter s + 1).
      { destruct Hin as [H0 H]. pose proof (ContextProofs.unstarted_nonneg cur s).
        destruct s; cbn in *. apply wrap64_small. lia. }
      destruct (thread_swap_ok e (nswap s)).
      * apply IH; [apply ContextProofs.within_body_swap; assumption|].
        replace (context_counter (save cur AtCond (bump s)))
          with (context_counter s + 1)
          by (rewrite <- Hc; destruct cur, s; reflexivity).
        destruct (saved (bump s) (swap_target cur)); lia.
      * apply IH; [apply ContextProofs.within_body_fail; assumption|].
        rewrite Hc. lia.
    + destruct (thread_cond (flag e (ncheck s)) M (context_counter s)) eqn:Hcond.
      * apply IH.
        -- apply ContextProofs.within_cond_true; [|exact Hin].
           eapply thread_cond_below; [|exact Hcond]; lia.
        -- destruct s; cbn in *. lia.
      * eexists; reflexivity.
Qed.

End AnyFlag.

Section NoSwapFails.
Variable e : env.
Variable M : Z.
Hypothesis M_three : 3 <= M.
Hypothesis M_room : M < 2 ^ 64.
Hypothesis swaps_ok : forall n, thread_swap_ok e n = true.
Hypothesis flag_true : forall n, flag e n = true.

Lemma run_threads_exact :
  forall fuel cur p s r,
    Coverage.in_step M cur p s ->
    run_threads e M fuel cur p s = Some r ->
    context_counter r = M /\ Z.of_nat (nswap r) = M.
Proof.
  induction fuel as [|fuel IH]; intros cur p s r Hin Hrun; [discriminate|].
  cbn [run_threads] in Hrun. destruct p.
  - rewrite swaps_ok in Hrun. eapply IH; [|exact Hrun].
    clear Hrun IH. destruct Hin as (Hn & Hlt & Hcase).
    destruct s as [c s1 s2 s3 k j]. cbn in Hn, Hlt.
    assert (Hw : wrap64 (c + 1) = c + 1) by (apply wrap64_small; lia).
    destruct cur; cbn in Hcase;
      destruct Hcase as [(Hc & Ha & Hb) | (Hc & Ha & Hb & Hd)]; subst;
      unfold Coverage.in_step, bump, save, saved, swap_target;
      cbn -[Z.of_nat wrap64]; rewrite Hw, Nat2Z.inj_succ; repeat split;
      auto; try lia; left; repeat split; lia.
  - rewrite ContextProofs.thread_cond_flag_true in Hrun by (assumption || lia).
    destruct Hin as (Hn & Hr & H1 & H2 & H3).
    destruct (Z.ltb_spec (context_counter s) M) as [Hlt|Hge].
    + eapply IH; [|exact Hrun].
      destruct s as [c s1 s2 s3 k j]. cbn in *. subst.
      unfold Coverage.in_step, checked. cbn -[Z.of_nat].
      split; [reflexivity|]. split; [exact Hlt|].
      destruct cur; right; repeat split; lia.
    + inversion Hrun; subst r. destruct s; cbn in *. lia.
Qed.

End NoSwapFails.

Lemma in_step_start M : 0 < M -> Coverage.in_step M T1 AtBody threads0.
Proof.
  intros H. unfold Coverage.in_step, threads0. cbn.
  split; [reflexivity|]. split; [exact H|]. left. repeat split.
Qed.

End ContextCoverage.

(** *** stress-cap.c *)

Module CapCoverage.
Import Cap.

Lemma appended_refl st : Coverage.appended [] 0 0 st st.
Proof.
  unfold Coverage.appended. rewrite List.app_nil_r, !Nat.add_0_r. repeat split.
Qed.

Lemma appended_trans d1 d2 k1 k2 j1 j2 s1 s2 s3 :
  Coverage.appended d1 k1 j1 s1 s2 -> Coverage.appended d2 k2 j2 s2 s3 ->
  Coverage.appended (d1 ++ d2) (k1 + k2) (j1 + j2) s1 s3.
Proof.
  intros (L1 & N1 & U1 & C1 & K1) (L2 & N2 & U2 & C2 & K2).
  unfold Coverage.appended.
  rewrite L2, L1, N2, N1, U2, U1, C2, C1, K2, K1, List.app_assoc.
  repeat split; lia.
Qed.

Lemma sys_appended e c st r st' :
  sys e c st = (r, st') ->
  r = sys_ret e (nsys st) /\ Coverage.appended [EvSys c] 1 0 st st'.
Proof.
  unfold sys. intros H. inversion H; subst; clear H.
  unfold Coverage.appended. cbn [log nsys nunused counter ncheck].
  repeat split; lia.
Qed.

Lemma fail_appended a r x st :
  Coverage.appended (Coverage.fail_events a r x) 0 0 st (fail_if_unexpected a r x st).
Proof.
  unfold fail_if_unexpected, Coverage.fail_events.
  destruct ((fst r <? 0) && report_failure (snd r) x); [|apply appended_refl].
  unfold Coverage.appended, emit. cbn [log nsys nunused counter ncheck].
  repeat split; lia.
Qed.

Lemma unused_appended e st u st' :
  stress_get_unused_pid_racy e st = (u, st') ->
  u = unused_pid e (nunused st) /\ Coverage.appended [] 0 1 st st'.
Proof.
  unfold stress_get_unused_pid_racy. intros H. inversion H; subst; clear H.
  unfold Coverage.appended. cbn [log nsys nunused counter ncheck].
  rewrite List.app_nil_r. repeat split; lia.
Qed.

Lemma appended_nsys d k j st st' :
  Coverage.appended d k j st st' -> nsys st' = (nsys st + k)%nat.
Proof. intros (_ & H & _). exact H. Qed.

Lemma appended_nunused d k j st st' :
  Coverage.appended d k j st st' -> nunused st' = (nunused st + j)%nat.
Proof. intros (_ & _ & H & _). exact H. Qed.

Ltac link T E :=
  let T' := fresh "T" in
  pose proof (appended_trans _ _ _ _ _ _ _ _ _ T E) as T'; clear T E;
  rename T' into T; cbn [Nat.add] in T.

Ltac walk_sys T :=
  match goal with
  | |- context [sys ?e ?c ?st0] =>
    let r := fresh "r" in
    let s := fresh "s" in
    let E := fresh "E" in
    let R := fresh "R" in
    destruct (sys e c st0) as [r s] eqn:E;
    apply sys_appended in E; destruct E as [R E];
    rewrite (appended_nsys _ _ _ _ _ T) in R; subst r;
    link T E; cbv beta iota zeta
  end.

Ltac walk_fail T :=
  match goal with
  | |- context [fail_if_unexpected ?a ?r ?x ?s] =>
    let F := fresh "F" in
    let s' := fresh "s" in
    pose proof (fail_appended a r x s) as F;
    set (s' := fail_if_unexpected a r x s) in *;
    link T F
  end.

Ltac walk_unused T :=
  match goal with
  | |- context [stress_get_unused_pid_racy ?e ?st0] =>
    let u := fresh "u" in
    let s := fresh "s" in
    let E := fresh "E" in
    let R := fresh "R" in
    destruct (stress_get_unused_pid_racy e st0) as [u s] eqn:E;
    apply unused_appended in E; destruct E as [R E];
    rewrite (appended_nunused _ _ _ _ _ T) in R; subst u;
    link T E; cbv beta iota zeta
  end.

Ltac walk_tail T :=
  walk_sys T; walk_sys T; walk_unused T;
  walk_sys T; walk_sys T; walk_sys T; walk_sys T.

Lemma probe_close d k st s (r r' : Z) st1 :
  Coverage.appended d k 1 st s ->
  (r', inc_counter s) = (r, st1) ->
  log st1 = log st ++ d ++ [EvInc] /\
  nsys st1 = (nsys st + k)%nat /\
  nunused st1 = S (nunused st) /\
  r = r'.
Proof.
  intros (L & N & U & C & K) H. inversion H; subst; clear H.
  unfold inc_counter. cbn [log nsys nunused].
  rewrite L, N, U, List.app_assoc. repeat split; lia.
Qed.

Ltac flatten_log :=
  rewrite ?List.app_nil_r; cbn [List.app];
  repeat (rewrite <- List.app_assoc; cbn [List.app]).

(** [stress_capgetset_pid] call by call: what it logs, how many calls
    it makes, and what it returns. *)
Lemma probe_exact e a pid do_set exists_ st r st1 :
  stress_capgetset_pid e a pid do_set exists_ st = (r, st1) ->
  log st1 = log st ++ Coverage.probe_log e a pid do_set exists_ (nsys st)
                                         (unused_pid e (nunused st)) /\
  nsys st1 = (nsys st + (if do_set then 10 else 7))%nat /\
  nunused st1 = S (nunused st) /\
  r = fst (sys_ret e (nsys st + (if do_set then 9 else 6))).
Proof.
  unfold stress_capgetset_pid. cbv zeta.
  pose proof (appended_refl st) as T.
  walk_sys T. walk_fail T.
  destruct do_set.
  - walk_sys T. walk_fail T. walk_sys T. walk_sys T. walk_tail T.
    intros H. destruct (probe_close _ _ _ _ _ _ _ T H) as (L & N & U & R).
    rewrite !Nat.add_0_r, Nat.add_1_r in L.
    split; [|split; [exact N|split; [exact U|exact R]]].
    rewrite L. unfold Coverage.probe_log. f_equal. flatten_log. reflexivity.
  - walk_tail T.
    intros H. destruct (probe_close _ _ _ _ _ _ _ T H) as (L & N & U & R).
    rewrite !Nat.add_0_r in L.
    split; [|split; [exact N|split; [exact U|exact R]]].
    rewrite L. unfold Coverage.probe_log. f_equal. flatten_log. reflexivity.
Qed.

(** ** Counting within a probe *)

Lemma count_fail_events p a r x :
  (forall who what, p (EvFail who what) = false) ->
  count p (Coverage.fail_events a r x) = 0%nat.
Proof.
  intros Hp. unfold Coverage.fail_events.
  destruct ((fst r <? 0) && report_failure (snd r) x); [|reflexivity].
  unfold count. cbn [List.filter]. rewrite Hp. reflexivity.
Qed.

Lemma probe_log_counts e a p do_set x k u :
  count Coverage.is_capget (Coverage.probe_log e a p do_set x k u) = 7%nat /\
  count Coverage.is_capset (Coverage.probe_log e a p do_set x k u)
  = (if do_set then 3 else 0)%nat /\
  count is_inc (Coverage.probe_log e a p do_set x k u) = 1%nat.
Proof.
  unfold Coverage.probe_log.
  destruct do_set; rewrite !count_app, !count_fail_events by reflexivity;
    repeat split.
Qed.

Lemma fail_events_nil a r x :
  Coverage.fail_events a r x = [] <-> Coverage.tolerated r x.
Proof.
  unfold Coverage.fail_events, Coverage.tolerated, report_failure.
  destruct (fst r <? 0) eqn:Hr; cbn [andb].
  - apply Z.ltb_lt in Hr.
    destruct (snd r =? ESRCH) eqn:He; cbn [andb orb negb].
    + apply Z.eqb_eq in He. destruct x; cbn [orb].
      * split; [discriminate|]. intros [H|[_ H]]; [lia|discriminate].
      * split; [|reflexivity]. intros _. right. split; [exact He|reflexivity].
    + apply Z.eqb_neq in He. rewrite ?Bool.orb_true_r.
      split; [discriminate|]. intros [H|[H _]]; [lia|contradiction].
  - apply Z.ltb_ge in Hr. split; [|reflexivity]. intros _. left. exact Hr.
Qed.

Lemma fail_events_count a r x :
  count is_fail (Coverage.fail_events a r x) = 0%nat <-> Coverage.tolerated r x.
Proof.
  rewrite <- (fail_events_nil a r x). unfold Coverage.fail_events.
  destruct ((fst r <? 0) && report_failure (snd r) x).
  - split; intros H; [unfold count in H; cbn [List.filter is_fail List.length] in H|];
      discriminate.
  - split; reflexivity.
Qed.

Lemma probe_log_failures e a p do_set x k u :
  count is_fail (Coverage.probe_log e a p do_set x k u)
  = (count is_fail (Coverage.fail_events a (sys_ret e k) x)
     + (if do_set then count is_fail (Coverage.fail_events a (sys_ret e (S k)) x)
        else 0))%nat.
Proof.
  unfold Coverage.probe_log. destruct do_set; rewrite !count_app.
  - change (count is_fail [EvSys (SysCapget _LINUX_CAPABILITY_VERSION_3 p)])
      with 0%nat.
    change (count is_fail [EvSys (SysCapset _LINUX_CAPABILITY_VERSION_3 p)])
      with 0%nat.
    cbn [count List.filter is_fail List.length]. lia.
  - cbn [count List.filter is_fail List.length List.app]. lia.
Qed.

(** ** The digits of a /proc entry *)

Lemma scan_digits_of_uint d :
  forall acc,
    scan_digits (NilEmpty.string_of_uint d) (Z.of_nat acc)
    = Z.of_nat (Nat.of_uint_acc d acc).
Proof.
  induction d; intros acc;
    cbn [NilEmpty.string_of_uint scan_digits Nat.of_uint_acc];
    [reflexivity|..];
    match goal with
    | |- context [isdigit ?c] => change (isdigit c) with true; cbv iota
    end;
    rewrite <- IHd; f_equal;
    rewrite ?Nat2Z.inj_succ, Nat.tail_mul_spec, Nat2Z.inj_mul;
    change (Z.of_nat 10) with 10;
    match goal with
    | |- context [digit_val ?c] =>
      let v := eval vm_compute in (digit_val c) in change (digit_val c) with v
    end;
    lia.
Qed.

Lemma scan_decimal_name n : scan_digits (Coverage.decimal_name n) 0 = Z.of_nat n.
Proof.
  unfold Coverage.decimal_name. change 0 with (Z.of_nat 0).
  rewrite scan_digits_of_uint.
  change (Nat.of_uint_acc (Nat.to_uint n) 0) with (Nat.of_uint (Nat.to_uint n)).
  rewrite Unsigned.of_to. reflexivity.
Qed.

Lemma decimal_name_digit n : Coverage.starts_with_digit (Coverage.decimal_name n) = true.
Proof.
  unfold Coverage.decimal_name, Coverage.starts_with_digit.
  destruct (Nat.to_uint n) eqn:E; try reflexivity.
  pose proof (Unsigned.of_to n) as H. rewrite E in H. cbn in H. subst n.
  vm_compute in E. discriminate.
Qed.

(** After the isdigit guard the conversion always succeeds. *)
Lemma sscanf_after_guard d :
  Coverage.starts_with_digit d = true ->
  sscanf_intmax d = Some (Z.min (scan_digits d 0) INTMAX_MAX).
Proof.
  unfold Coverage.starts_with_digit, sscanf_intmax. destruct d as [|c d].
  - cbn. discriminate.
  - cbn [first_char]. intros ->. reflexivity.
Qed.

Lemma wrap_int32_small z : - 2 ^ 31 <= z < 2 ^ 31 -> wrap_int32 z = z.
Proof. intros H. unfold wrap_int32. rewrite Z.mod_small by lia. lia. Qed.

Lemma readdir_loop_filter e a :
  forall ents st,
    readdir_loop e a ents st
    = readdir_loop e a (List.filter Coverage.starts_with_digit ents) st.
Proof.
  induction ents as [|d ents IH]; intros st; [reflexivity|].
  cbn [readdir_loop List.filter]. unfold Coverage.starts_with_digit at 1.
  destruct (isdigit (first_char d)) eqn:Hd; cbn [negb]; [|apply IH].
  cbn [readdir_loop]. rewrite Hd. cbn [negb].
  destruct (sscanf_intmax d) as [p|]; [|apply IH].
  destruct (stress_capgetset_pid e a (wrap_int32 p) false false st) as [r st1].
  destruct (keep e a st1) as [k st2]. destruct k; [apply IH|reflexivity].
Qed.

(** ** Properties of every stretch of the log a run appends *)

Section PassInvariant.

Variables (e : env) (a : stress_args_t) (I : list event -> Prop).
Hypothesis I_nil : I [].
Hypothesis I_app : forall d1 d2, I d1 -> I d2 -> I (d1 ++ d2).
Hypothesis I_check : forall k, I [EvCheck k].
Hypothesis I_probe :
  forall p do_set x k u,
    (do_set = true -> p = pid a) ->
    I (Coverage.probe_log e a p do_set x k u).

Lemma no_set (p : Z) : false = true -> p = pid a.
Proof. discriminate. Qed.

Lemma unit_holds p do_set x st r st1 k st2 :
  (do_set = true -> p = pid a) ->
  stress_capgetset_pid e a p do_set x st = (r, st1) ->
  keep e a st1 = (k, st2) ->
  exists d, log st2 = log st ++ d /\ I d.
Proof.
  intros Hown Hp Hk.
  destruct (probe_exact _ _ _ _ _ _ _ _ Hp) as (Hl & _).
  destruct (CapProofs.keep_eq _ _ _ _ _ Hk) as (_ & Hl2 & _).
  eexists. split.
  - rewrite Hl2, Hl, <- List.app_assoc. reflexivity.
  - apply I_app; [apply I_probe; exact Hown|apply I_check].
Qed.

Lemma extend st1 st2 st3 d1 d2 :
  log st2 = log st1 ++ d1 -> I d1 -> log st3 = log st2 ++ d2 -> I d2 ->
  exists d, log st3 = log st1 ++ d /\ I d.
Proof.
  intros H1 I1 H2 I2. exists (d1 ++ d2).
  split; [rewrite H2, H1, List.app_assoc; reflexivity|apply I_app; assumption].
Qed.

Lemma readdir_loop_holds :
  forall ents st, exists d, log (readdir_loop e a ents st) = log st ++ d /\ I d.
Proof.
  induction ents as [|ent ents IH]; intros st.
  - exists []. split; [symmetry; apply List.app_nil_r|exact I_nil].
  - cbn [readdir_loop].
    destruct (negb (isdigit (first_char ent))); [apply IH|].
    destruct (sscanf_intmax ent) as [p|]; [|apply IH].
    destruct (stress_capgetset_pid e a (wrap_int32 p) false false st)
      as [r st1] eqn:Hp.
    destruct (keep e a st1) as [k st2] eqn:Hk.
    destruct (unit_holds _ _ _ _ _ _ _ _ (no_set _) Hp Hk)
      as (d & Hd & Hi).
    destruct k; [|exists d; split; assumption].
    destruct (IH st2) as (d' & Hd' & Hi').
    exact (extend _ _ _ _ _ Hd Hi Hd' Hi').
Qed.

Lemma cap_pass_holds pass st again st' :
  cap_pass e a pass st = (again, st') ->
  exists d, log st' = log st ++ d /\ I d.
Proof.
  unfold cap_pass.
  CapProofs.cap_unit Hp1 Hk1 st1 st2 k1.
  destruct (unit_holds _ _ _ _ _ _ _ _ (no_set _) Hp1 Hk1)
    as (d1 & Hd1 & Hi1).
  destruct k1; cbn [negb];
    [|intros H; inversion H; subst; exists d1; split; assumption].
  CapProofs.cap_unit Hp2 Hk2 st3 st4 k2.
  destruct (unit_holds _ _ _ _ _ _ _ _ (fun _ => eq_refl) Hp2 Hk2)
    as (d2 & Hd2 & Hi2).
  pose proof (extend _ _ _ _ _ Hd1 Hi1 Hd2 Hi2) as H4.
  destruct k2; cbn [negb]; [|intros H; inversion H; subst; exact H4].
  CapProofs.cap_unit Hp3 Hk3 st5 st6 k3.
  destruct (unit_holds _ _ _ _ _ _ _ _ (no_set _) Hp3 Hk3)
    as (d3 & Hd3 & Hi3).
  destruct H4 as (d4 & Hd4 & Hi4).
  pose proof (extend _ _ _ _ _ Hd4 Hi4 Hd3 Hi3) as H6.
  destruct k3; cbn [negb]; [|intros H; inversion H; subst; exact H6].
  cbv zeta.
  set (st7 := match proc_dir e pass with
              | Some ents => readdir_loop e a ents st6
              | None => st6
              end).
  assert (H7 : exists d, log st7 = log st ++ d /\ I d).
  { destruct H6 as (d6 & Hd6 & Hi6). subst st7.
    destruct (proc_dir e pass) as [ents|]; [|exists d6; split; assumption].
    destruct (readdir_loop_holds ents st6) as (d & Hd & Hi).
    exact (extend _ _ _ _ _ Hd6 Hi6 Hd Hi). }
  intros Hk4.
  destruct (CapProofs.keep_eq _ _ _ _ _ Hk4) as (_ & Hl8 & _).
  destruct H7 as (d7 & Hd7 & Hi7).
  exact (extend _ _ _ _ _ Hd7 Hi7 Hl8 (I_check again)).
Qed.

Lemma cap_loop_holds :
  forall fuel pass st st',
    cap_loop e a fuel pass st = Some st' ->
    exists d, log st' = log st ++ d /\ I d.
Proof.
  induction fuel as [|fuel IH]; intros pass st st' H; [discriminate|].
  cbn [cap_loop] in H.
  destruct (cap_pass e a pass st) as [again st1] eqn:Hpass.
  destruct (cap_pass_holds _ _ _ _ Hpass) as (d1 & Hd1 & Hi1).
  destruct again; [|inversion H; subst; exists d1; split; assumption].
  destruct (IH _ _ _ H) as (d & Hd & Hi).
  exact (extend _ _ _ _ _ Hd1 Hi1 Hd Hi).
Qed.

Lemma stress_cap_holds fuel rc st :
  stress_cap e fuel a init_state = Some (rc, st) ->
  exists d,
    log st = EvState STRESS_STATE_RUN :: d ++ [EvState STRESS_STATE_DEINIT] /\ I d.
Proof.
  unfold stress_cap. intros H.
  destruct (cap_loop e a fuel 0 (emit (EvState STRESS_STATE_RUN) init_state))
    as [st'|] eqn:Hl; [|discriminate].
  inversion H; subst; clear H.
  destruct (cap_loop_holds _ _ _ _ Hl) as (d & Hd & Hi).
  exists d. split; [|exact Hi]. cbn [emit log]. rewrite Hd. reflexivity.
Qed.

End PassInvariant.

(** ** Evaluations of the flag *)

Lemma keep_ncheck e a st k st1 :
  keep e a st = (k, st1) -> ncheck st1 = S (ncheck st).
Proof. unfold keep. intros H. inversion H; subst. reflexivity. Qed.

Lemma unit_ncheck e a p do_set x st r st1 k st2 :
  stress_capgetset_pid e a p do_set x st = (r, st1) ->
  keep e a st1 = (k, st2) ->
  ncheck st2 = S (ncheck st) /\ (k = true -> flag e (ncheck st) = true).
Proof.
  intros Hp Hk.
  destruct (CapProofs.probe_eq _ _ _ _ _ _ _ _ Hp) as (_ & Hn & _).
  destruct (CapProofs.keep_eq _ _ _ _ _ Hk) as (_ & _ & Hkv).
  rewrite (keep_ncheck _ _ _ _ _ Hk), Hn. split; [reflexivity|].
  intros ->. rewrite Hn in Hkv. unfold keep_stressing in Hkv.
  symmetry in Hkv. apply andb_true_iff in Hkv. exact (proj1 Hkv).
Qed.

Lemma readdir_loop_ncheck e a :
  forall ents st, (ncheck st <= ncheck (readdir_loop e a ents st))%nat.
Proof.
  induction ents as [|ent ents IH]; intros st; [apply Nat.le_refl|].
  cbn [readdir_loop].
  destruct (negb (isdigit (first_char ent))); [apply IH|].
  destruct (sscanf_intmax ent) as [p|]; [|apply IH].
  destruct (stress_capgetset_pid e a (wrap_int32 p) false false st)
    as [r st1] eqn:Hp.
  destruct (keep e a st1) as [k st2] eqn:Hk.
  destruct (unit_ncheck _ _ _ _ _ _ _ _ _ _ Hp Hk) as (Hn & _).
  destruct k; [specialize (IH st2)|]; lia.
Qed.

(** A pass evaluates the flag at least once, and goes round again only
    when its last evaluation found the flag up. *)
Lemma cap_pass_ncheck e a pass st again st' :
  cap_pass e a pass st = (again, st') ->
  (ncheck st < ncheck st')%nat /\
  (again = true -> flag e (Nat.pred (ncheck st')) = true).
Proof.
  unfold cap_pass.
  CapProofs.cap_unit Hp1 Hk1 st1 st2 k1.
  destruct (unit_ncheck _ _ _ _ _ _ _ _ _ _ Hp1 Hk1) as (Hn1 & _).
  destruct k1; cbn [negb];
    [|intros H; inversion H; subst; split; [lia|discriminate]].
  CapProofs.cap_unit Hp2 Hk2 st3 st4 k2.
  destruct (unit_ncheck _ _ _ _ _ _ _ _ _ _ Hp2 Hk2) as (Hn2 & _).
  destruct k2; cbn [negb];
    [|intros H; inversion H; subst; split; [lia|discriminate]].
  CapProofs.cap_unit Hp3 Hk3 st5 st6 k3.
  destruct (unit_ncheck _ _ _ _ _ _ _ _ _ _ Hp3 Hk3) as (Hn3 & _).
  destruct k3; cbn [negb];
    [|intros H; inversion H; subst; split; [lia|discriminate]].
  cbv zeta.
  set (st7 := match proc_dir e pass with
              | Some ents => readdir_loop e a ents st6
              | None => st6
              end).
  assert (H7 : (ncheck st6 <= ncheck st7)%nat).
  { subst st7. destruct (proc_dir e pass) as [ents|];
      [apply readdir_loop_ncheck|apply Nat.le_refl]. }
  intros Hk4.
  destruct (CapProofs.keep_eq _ _ _ _ _ Hk4) as (_ & _ & Hkv).
  rewrite (keep_ncheck _ _ _ _ _ Hk4). split; [lia|].
  intros ->. cbn [Nat.pred]. unfold keep_stressing in Hkv.
  symmetry in Hkv. apply andb_true_iff in Hkv. exact (proj1 Hkv).
Qed.

Lemma cap_loop_stops e a N :
  (forall n, (N <= n)%nat -> flag e n = false) ->
  forall fuel pass st,
    (ncheck st <= N)%nat -> (N < fuel + ncheck st)%nat ->
    exists st', cap_loop e a fuel pass st = Some st'.
Proof.
  intros Hdown. induction fuel as [|fuel IH]; intros pass st Hle Hfuel; [lia|].
  cbn [cap_loop].
  destruct (cap_pass e a pass st) as [again st1] eqn:Hpass.
  destruct (cap_pass_ncheck _ _ _ _ _ _ Hpass) as (Hlt & Hup).
  destruct again; [|eexists; reflexivity].
  specialize (Hup eq_refl).
  assert (Hn : (ncheck st1 <= N)%nat).
  { destruct (Nat.le_gt_cases (ncheck st1) N) as [H|H]; [exact H|].
    rewrite (Hdown (Nat.pred (ncheck st1))) in Hup by lia. discriminate. }
  apply IH; lia.
Qed.

(** ** Without a ceiling *)

Lemma keep_unbounded e a st k st1 :
  max_ops a = 0 -> (forall n, flag e n = true) ->
  keep e a st = (k, st1) -> k = true.
Proof.
  intros H0 Hf Hk.
  destruct (CapProofs.keep_eq _ _ _ _ _ Hk) as (_ & _ & ->).
  unfold keep_stressing. rewrite Hf, H0. reflexivity.
Qed.

Lemma cap_pass_unbounded e a pass st again st' :
  max_ops a = 0 -> (forall n, flag e n = true) ->
  cap_pass e a pass st = (again, st') -> again = true.
Proof.
  intros H0 Hf. unfold cap_pass.
  CapProofs.cap_unit Hp1 Hk1 st1 st2 k1.
  rewrite (keep_unbounded _ _ _ _ _ H0 Hf Hk1). cbn [negb].
  CapProofs.cap_unit Hp2 Hk2 st3 st4 k2.
  rewrite (keep_unbounded _ _ _ _ _ H0 Hf Hk2). cbn [negb].
  CapProofs.cap_unit Hp3 Hk3 st5 st6 k3.
  rewrite (keep_unbounded _ _ _ _ _ H0 Hf Hk3). cbn [negb].
  cbv zeta. intros Hk4. exact (keep_unbounded _ _ _ _ _ H0 Hf Hk4).
Qed.

Lemma cap_loop_unbounded e a :
  max_ops a = 0 -> (forall n, flag e n = true) ->
  forall fuel pass st, cap_loop e a fuel pass st = None.
Proof.
  intros H0 Hf. induction fuel as [|fuel IH]; intros pass st; [reflexivity|].
  cbn [cap_loop].
  destruct (cap_pass e a pass st) as [again st1] eqn:Hpass.
  rewrite (cap_pass_unbounded _ _ _ _ _ _ H0 Hf Hpass). apply IH.
Qed.

(** ** The first probe *)

Lemma cap_pass_first e a pass st again st' :
  cap_pass e a pass st = (again, st') ->
  exists d,
    log st' = log st
              ++ Coverage.probe_log e a 1 false true (nsys st)
                                    (unused_pid e (nunused st))
              ++ EvCheck (keep_stressing (flag e (ncheck st)) (max_ops a)
                                         (wrap64 (counter st + 1))) :: d /\
    (flag e (ncheck st) = false ->
     again = false /\ d = [] /\ counter st' = wrap64 (counter st + 1)).
Proof.
  unfold cap_pass.
  CapProofs.cap_unit Hp1 Hk1 st1 st2 k1.
  destruct (probe_exact _ _ _ _ _ _ _ _ Hp1) as (Hl1 & _).
  destruct (CapProofs.probe_eq _ _ _ _ _ _ _ _ Hp1) as (Hc1 & Hn1 & _).
  destruct (CapProofs.keep_eq _ _ _ _ _ Hk1) as (Hc2 & Hl2 & Hkv).
  rewrite Hn1, Hc1 in Hkv.
  assert (Hlog2 : log st2 = log st
              ++ Coverage.probe_log e a 1 false true (nsys st)
                                    (unused_pid e (nunused st))
              ++ [EvCheck (keep_stressing (flag e (ncheck st)) (max_ops a)
                                          (wrap64 (counter st + 1)))]).
  { rewrite Hl2, Hl1, <- List.app_assoc, Hkv. reflexivity. }
  destruct k1; cbn [negb].
  - intros Hrest.
    assert (Hext : exists d, log st' = log st2 ++ d).
    { revert Hrest.
      CapProofs.cap_unit Hp2 Hk2 st3 st4 k2.
      destruct (CapProofs.unit_log _ _ _ _ _ _ _ _ _ _ Hp2 Hk2) as (d2 & Hd2 & _).
      destruct k2; cbn [negb];
        [|intros H; inversion H; subst; exists d2; exact Hd2].
      CapProofs.cap_unit Hp3 Hk3 st5 st6 k3.
      destruct (CapProofs.unit_log _ _ _ _ _ _ _ _ _ _ Hp3 Hk3) as (d3 & Hd3 & _).
      destruct k3; cbn [negb];
        [|intros H; inversion H; subst; exists (d2 ++ d3);
          rewrite Hd3, Hd2, List.app_assoc; reflexivity].
      cbv zeta.
      set (st7 := match proc_dir e pass with
                  | Some ents => readdir_loop e a ents st6
                  | None => st6
                  end).
      assert (H7 : exists d, log st7 = log st6 ++ d).
      { subst st7. destruct (proc_dir e pass) as [ents|].
        - destruct (CapProofs.readdir_loop_log e a ents st6) as (d & Hd & _).
          exists d. exact Hd.
        - exists []. symmetry. apply List.app_nil_r. }
      destruct H7 as (d7 & Hd7).
      intros Hk4. destruct (CapProofs.keep_eq _ _ _ _ _ Hk4) as (_ & Hl8 & _).
      exists (d2 ++ d3 ++ d7 ++ [EvCheck again]).
      rewrite Hl8, Hd7, Hd3, Hd2, <- !List.app_assoc. reflexivity. }
    destruct Hext as (d & Hd). exists d. split.
    + rewrite Hd, Hlog2, <- !List.app_assoc. reflexivity.
    + intros Hdown. rewrite Hdown in Hkv. discriminate.
  - intros H. inversion H; subst; clear H. exists []. split.
    + exact Hlog2.
    + intros _. split; [reflexivity|]. split; [reflexivity|].
      rewrite Hc2. exact Hc1.
Qed.

End CapCoverage.

(** *** stress-watchdog.c *)

Module WatchdogCoverage.
Import Watchdog.
Import WatchdogProofs.

Lemma run_finished e a : forall n c, finished (pc c) = true -> run e a n c = c.
Proof.
  induction n as [|n IH]; intros c H; [reflexivity|].
  rewrite run_S, step_finished by exact H. apply IH. exact H.
Qed.

Lemma run_snoc e a n c : run e a (S n) c = step e a (run e a n c).
Proof.
  replace (S n) with (n + 1)%nat by lia. rewrite run_add. reflexivity.
Qed.

(** *** Jumping back *)

Lemma exec_keeps_jmp e a c :
  jmp_set c = true -> jmp_set (tick (exec e a c)) = true.
Proof.
  destruct c as [p fd0 fl cnt r0 rt js lg no nc clk]. cbn [jmp_set]. intros ->.
  destruct p; step_body; split_tests; step_tail; reflexivity.
Qed.

Lemma exec_defined e a c :
  finished (pc c) = false -> jmp_set c = true ->
  pc (tick (exec e a c)) <> Undefined.
Proof.
  destruct c as [p fd0 fl cnt r0 rt js lg no nc clk]. cbn [jmp_set pc].
  intros Hf ->.
  destruct p; cbn [finished] in Hf; try discriminate;
    step_body; split_tests; step_tail; discriminate.
Qed.

Lemma jump_safe_exec e a c :
  finished (pc c) = false ->
  Coverage.jump_safe e c -> Coverage.jump_safe e (tick (exec e a c)).
Proof.
  intros Hf. unfold Coverage.jump_safe.
  destruct (jmp_set c) eqn:Hj.
  - intros _. rewrite (exec_keeps_jmp e a c Hj). exact (exec_defined e a c Hf Hj).
  - revert Hf Hj. destruct c as [p fd0 fl cnt r0 rt js lg no nc clk].
    unfold Coverage.prelude. cbn [pc jmp_set clock]. intros Hf ->.
    destruct p; cbn [finished] in Hf; try discriminate; try contradiction;
      intros H; step_body.
    all: try (step_tail; first [lia | discriminate]).
    + destruct H as [-> Hi].
      destruct (i <? nsigs e)%nat eqn:Hlt.
      * apply Nat.ltb_lt in Hlt.
        destruct (sighandler_ret e i <? 0); step_tail; [exact I|]. split; lia.
      * apply Nat.ltb_ge in Hlt. step_tail. lia.
    + destruct (access_ret e <? 0); [destruct (instance a =? 0)|];
        step_tail; [exact I|exact I|]. lia.
Qed.

Lemma jump_safe_step e a :
  (forall k, (k <= nsigs e + 4)%nat -> async e k <> Signal) ->
  forall c, Coverage.jump_safe e c -> Coverage.jump_safe e (step e a c).
Proof.
  intros Hu c H.
  destruct (finished (pc c)) eqn:Hf; [rewrite step_finished by exact Hf; exact H|].
  destruct (step_cases e a c Hf) as [-> | [-> | (Ha & Hi & ->)]].
  - apply jump_safe_exec; assumption.
  - apply jump_safe_exec; [destruct c; exact Hf|destruct c; exact H].
  - revert Hf Ha Hi H. destruct c as [p fd0 fl cnt r0 rt js lg no nc clk].
    unfold Coverage.jump_safe, Coverage.prelude.
    cbn [pc jmp_set clock tick goto]. intros Hf Ha Hi.
    destruct js; [discriminate|].
    destruct p; cbn [handlers_installed] in Hi; try discriminate;
      try contradiction; intros Hc; exfalso;
      (apply (Hu clk); [lia|exact Ha]).
Qed.

Lemma never_undefined e a n :
  (forall k, (k <= nsigs e + 4)%nat -> async e k <> Signal) ->
  pc (stress_watchdog e a n) <> Undefined.
Proof.
  intros Hu.
  assert (H : Coverage.jump_safe e (stress_watchdog e a n)).
  { unfold stress_watchdog.
    apply (run_invariant e a (Coverage.jump_safe e)); [apply jump_safe_step; exact Hu|].
    reflexivity. }
  unfold Coverage.jump_safe, Coverage.prelude in H.
  destruct (jmp_set (stress_watchdog e a n)); [exact H|].
  intros Hp. rewrite Hp in H. exact H.
Qed.

(** *** Once the flag is down *)

Ltac split_tests_eq :=
  repeat match goal with
         | |- context [if ?b then _ else _] =>
           let E := fresh "E" in destruct b eqn:E
         end.

Lemma exec_clock e a c : clock (tick (exec e a c)) = S (clock c).
Proof.
  destruct c as [p fd0 fl cnt r0 rt js lg no nc clk]. cbn [clock].
  destruct p; step_body; split_tests; step_tail; reflexivity.
Qed.

Lemma step_clock e a c :
  finished (pc c) = false -> clock (step e a c) = S (clock c).
Proof.
  intros Hf. destruct (step_cases e a c Hf) as [-> | [-> | (_ & _ & ->)]].
  - apply exec_clock.
  - rewrite exec_clock. destruct c; reflexivity.
  - destruct c; reflexivity.
Qed.

Lemma clock_run e a :
  forall n c, finished (pc (run e a n c)) = false ->
              clock (run e a n c) = (clock c + n)%nat.
Proof.
  induction n as [|n IH]; intros c Hf; [cbn [run]; lia|].
  rewrite run_snoc in *.
  destruct (finished (pc (run e a n c))) eqn:Hn.
  - rewrite step_finished in Hf by exact Hn. congruence.
  - rewrite step_clock by exact Hn. rewrite IH by exact Hn. lia.
Qed.

Lemma exec_flag_down e a c :
  keep_flag c = false -> keep_flag (tick (exec e a c)) = false.
Proof.
  destruct c as [p fd0 fl cnt r0 rt js lg no nc clk]. cbn [keep_flag]. intros ->.
  destruct p; step_body; split_tests; step_tail; reflexivity.
Qed.

Lemma to_exit_zero e p : Coverage.to_exit e p = 0%nat -> finished p = true.
Proof. destruct p; cbn [Coverage.to_exit finished]; try reflexivity; lia. Qed.

Lemma to_exit_bound e p : (Coverage.to_exit e p <= Watchdog.nsigs e + 20)%nat.
Proof. destruct p; cbn [Coverage.to_exit]; lia. Qed.

Lemma winding_down_exec e a c :
  finished (pc c) = false -> Coverage.winding_down c ->
  Coverage.winding_down (tick (exec e a c)) /\
  (Coverage.to_exit e (pc (tick (exec e a c))) < Coverage.to_exit e (pc c))%nat.
Proof.
  destruct c as [p fd0 fl cnt r0 rt js lg no nc clk].
  unfold Coverage.winding_down. cbn [pc keep_flag]. intros Hf Hw.
  destruct p; cbn [finished] in Hf; try discriminate;
    try (destruct Hw as [-> | [Hw | Hw]]; [|discriminate Hw|discriminate Hw]);
    step_body; unfold keep_stressing; cbn [andb];
    split_tests_eq; step_tail; cbn [Coverage.to_exit];
    repeat match goal with
           | E : (_ <? _)%nat = true |- _ =>
             cbn [List.length ioctl_requests] in E; apply Nat.ltb_lt in E
           | E : (_ <? _)%nat = false |- _ =>
             cbn [List.length ioctl_requests] in E; apply Nat.ltb_ge in E
           end;
    (split; [first [left; reflexivity | right; right; reflexivity]|lia]).
Qed.

Lemma winding_down_step e a c :
  finished (pc c) = false -> async e (clock c) <> Signal ->
  Coverage.winding_down c ->
  Coverage.winding_down (step e a c) /\
  (Coverage.to_exit e (pc (step e a c)) < Coverage.to_exit e (pc c))%nat.
Proof.
  intros Hf Hs Hw.
  destruct (step_cases e a c Hf) as [-> | [-> | (Ha & _)]].
  - apply winding_down_exec; assumption.
  - assert (Hp : pc (set_flag false c) = pc c) by (destruct c; reflexivity).
    rewrite <- Hp.
    apply winding_down_exec; [destruct c; exact Hf|left; destruct c; reflexivity].
  - contradiction.
Qed.

Lemma winds_down e a :
  forall n c,
    Coverage.winding_down c ->
    (forall k, (clock c <= k)%nat -> async e k <> Signal) ->
    (Coverage.to_exit e (pc c) <= n)%nat ->
    finished (pc (run e a n c)) = true.
Proof.
  induction n as [|n IH]; intros c Hw Hs Hn.
  - cbn [run]. apply (to_exit_zero e). lia.
  - destruct (finished (pc c)) eqn:Hf; [rewrite run_finished by exact Hf; exact Hf|].
    rewrite run_S.
    destruct (winding_down_step e a c Hf (Hs _ (Nat.le_refl _)) Hw) as (Hw' & Hlt).
    apply IH; [exact Hw'| |lia].
    intros k Hk. apply Hs. rewrite step_clock in Hk by exact Hf. lia.
Qed.

Lemma stop_is_honoured e a k :
  async e k = Stop ->
  (forall j, (k < j)%nat -> async e j <> Signal) ->
  forall n, (k + nsigs e + 21 <= n)%nat ->
            finished (pc (stress_watchdog e a n)) = true.
Proof.
  intros Hstop Hs n Hn. unfold stress_watchdog.
  replace n with (k + S (n - k - 1))%nat by lia.
  rewrite run_add. set (c := run e a k init_config).
  destruct (finished (pc c)) eqn:Hf; [rewrite run_finished by exact Hf; exact Hf|].
  assert (Hclk : clock c = k).
  { subst c. rewrite clock_run by exact Hf. reflexivity. }
  rewrite run_S.
  assert (Hstep : step e a c = tick (exec e a (set_flag false c))).
  { unfold step. rewrite Hf, Hclk, Hstop. reflexivity. }
  apply winds_down.
  - left. rewrite Hstep. apply exec_flag_down. destruct c; reflexivity.
  - intros j Hj. apply Hs. rewrite step_clock in Hj by exact Hf. lia.
  - pose proof (to_exit_bound e (pc (step e a c))). lia.
Qed.

(** *** The bookkeeping of closes *)

Lemma wrap64_succ_pred (n : nat) :
  (0 < n)%nat -> wrap64 (wrap64 (Z.of_nat (Nat.pred n)) + 1) = wrap64 (Z.of_nat n).
Proof.
  intros Hn. unfold wrap64. rewrite Z.add_mod_idemp_l by lia.
  f_equal. lia.
Qed.

Lemma closes_before_succ e n :
  (0 < n)%nat -> Coverage.closes_before e (Nat.pred n) ->
  0 <= close_ret e (Nat.pred n) -> Coverage.closes_before e n.
Proof.
  intros Hn Hb Hl k Hk.
  destruct (Nat.eq_dec k (Nat.pred n)) as [->|Hne]; [exact Hl|].
  apply Hb. lia.
Qed.

Ltac audit_log :=
  rewrite ?count_app; cbn [count List.filter is_fail List.length];
  rewrite ?Nat.add_0_r.

Lemma close_audit_exec e a c :
  handlers_ok e ->
  finished (pc c) = false ->
  Coverage.close_audit e c -> Coverage.close_audit e (tick (exec e a c)).
Proof.
  intros Hh. destruct c as [p fd0 fl cnt r0 rt js lg no nc clk].
  unfold Coverage.close_audit, Coverage.clean, Coverage.in_flight, Coverage.failed.
  cbn [pc rc log nclose counter ret].
  destruct p; cbn [finished]; try discriminate; try contradiction;
    intros _ H; step_body.
  all: try (split_tests; step_tail; audit_log; first [exact H | left; exact H]).
  - (* L108 *)
    destruct (i <? nsigs e)%nat; [|step_tail; exact H].
    replace (sighandler_ret e i <? 0) with false
      by (symmetry; apply Z.ltb_ge; apply Hh).
    step_tail. exact H.
  - (* L118 *)
    split_tests; step_tail; audit_log; try exact H;
      (split; [symmetry; exact (proj1 H)|left; exact H]).
  - (* L236 *)
    step_tail. audit_log. cbn [Nat.pred].
    destruct H as (Hr & Hc & Hb & Hn).
    repeat split; try assumption; lia.
  - (* L238 *)
    destruct H as (Hin & Hret).
    destruct (rt <? 0) eqn:Hlt; step_tail.
    + apply Z.ltb_lt in Hlt. split; [exact Hin|]. rewrite <- Hret. exact Hlt.
    + apply Z.ltb_ge in Hlt. split; [exact Hin|]. rewrite <- Hret. exact Hlt.
  - (* L239 *)
    step_tail. audit_log.
    destruct H as ((Hr & Hc & Hpos & Hb & Hn) & Hneg).
    right. rewrite Hc. repeat split; assumption.
  - (* L245 *)
    step_tail. audit_log.
    destruct H as ((Hr & Hc & Hpos & Hb & Hn) & Hok).
    split; [exact Hr|]. split; [exact Hc|].
    split; [apply closes_before_succ; assumption|].
    rewrite Hn. apply wrap64_succ_pred. exact Hpos.
  - (* L250 *)
    step_tail. split; [reflexivity|exact H].
Qed.

Lemma close_audit_set_flag e b c :
  Coverage.close_audit e c -> Coverage.close_audit e (set_flag b c).
Proof. destruct c. unfold Coverage.close_audit. cbn. auto. Qed.

Lemma close_audit_step e a :
  unsignalled e -> handlers_ok e ->
  forall c, Coverage.close_audit e c -> Coverage.close_audit e (step e a c).
Proof.
  intros Hu Hh c H.
  destruct (finished (pc c)) eqn:Hf; [rewrite step_finished by exact Hf; exact H|].
  destruct (step_cases e a c Hf) as [-> | [-> | (Ha & _)]].
  - apply close_audit_exec; assumption.
  - apply close_audit_exec;
      [exact Hh|destruct c; exact Hf|apply close_audit_set_flag; exact H].
  - exfalso. exact (Hu _ Ha).
Qed.

(** What a return without handled signals says about the closes. *)
Lemma close_audit_returned e a n r :
  unsignalled e -> handlers_ok e ->
  result (stress_watchdog e a n) = Some r ->
  Coverage.clean e (stress_watchdog e a n) /\ r = EXIT_SUCCESS \/
  Coverage.failed e (stress_watchdog e a n) /\ r = EXIT_FAILURE.
Proof.
  intros Hu Hh Hr.
  assert (H : Coverage.close_audit e (stress_watchdog e a n)).
  { unfold stress_watchdog.
    apply (run_invariant e a (Coverage.close_audit e));
      [apply close_audit_step; assumption|].
    unfold Coverage.close_audit, Coverage.clean, Coverage.closes_before.
    cbn. repeat split. intros k Hk. lia. }
  unfold Coverage.close_audit in H. unfold result in Hr.
  destruct (pc (stress_watchdog e a n)); try discriminate.
  inversion Hr as [Hr']. rewrite <- Hr'. destruct H as (-> & [Hc | Hf]).
  - left. split; [exact Hc|exact (proj1 Hc)].
  - right. split; [exact Hf|exact (proj1 Hf)].
Qed.

(** *** Without a ceiling *)

Lemma held_up_exec e a c :
  max_ops a = 0 -> handlers_ok e -> 0 <= access_ret e -> closes_ok e ->
  finished (pc c) = false ->
  Coverage.held_up c -> Coverage.held_up (tick (exec e a c)).
Proof.
  intros H0 Hh Hacc Hc Hf H.
  destruct (keep_flag c) eqn:Hfl.
  2:{ intros Hup. rewrite (exec_flag_down e a c Hfl) in Hup. discriminate. }
  specialize (H Hfl). revert Hf Hfl H.
  destruct c as [p fd0 fl cnt r0 rt js lg no nc clk].
  unfold Coverage.held_up. cbn [pc keep_flag ret]. intros Hf -> H.
  destruct p; cbn [finished] in Hf; try discriminate; try contradiction;
    step_body.
  all: try (split_tests; step_tail; intros _; first [exact I | exact H]).
  - (* L108 *)
    destruct (i <? nsigs e)%nat; [|step_tail; intros _; exact I].
    replace (sighandler_ret e i <? 0) with false
      by (symmetry; apply Z.ltb_ge; apply Hh).
    step_tail. intros _. exact I.
  - (* L118 *)
    replace (access_ret e <? 0) with false by (symmetry; apply Z.ltb_ge; exact Hacc).
    step_tail. intros _. exact I.
  - (* L145 *)
    unfold keep_stressing. rewrite H0. cbn [andb orb Z.eqb].
    step_tail. intros _. exact I.
  - (* L236 *)
    step_tail. intros _. apply Hc.
  - (* L238 *)
    replace (rt <? 0) with false by (symmetry; apply Z.ltb_ge; exact H).
    step_tail. intros _. exact I.
Qed.

Lemma held_up_step e a :
  max_ops a = 0 -> handlers_ok e -> 0 <= access_ret e -> closes_ok e ->
  forall c, Coverage.held_up c -> Coverage.held_up (step e a c).
Proof.
  intros H0 Hh Hacc Hc c H.
  destruct (finished (pc c)) eqn:Hf; [rewrite step_finished by exact Hf; exact H|].
  destruct (step_cases e a c Hf) as [-> | [-> | (_ & _ & ->)]].
  - apply held_up_exec; assumption.
  - intros Hup. rewrite exec_flag_down in Hup by (destruct c; reflexivity).
    discriminate.
  - destruct c. unfold Coverage.held_up. cbn. intros _. exact I.
Qed.

(** Without a ceiling the worker returns only after its flag has been
    cleared. *)
Lemma unbounded_returns_flag_down e a n r :
  max_ops a = 0 -> handlers_ok e -> 0 <= access_ret e -> closes_ok e ->
  result (stress_watchdog e a n) = Some r ->
  keep_flag (stress_watchdog e a n) = false.
Proof.
  intros H0 Hh Hacc Hc Hr.
  assert (H : Coverage.held_up (stress_watchdog e a n)).
  { unfold stress_watchdog.
    apply (run_invariant e a Coverage.held_up); [apply held_up_step; assumption|].
    intros _. exact I. }
  unfold Coverage.held_up in H. unfold result in Hr.
  destruct (keep_flag (stress_watchdog e a n)); [|reflexivity].
  specialize (H eq_refl).
  destruct (pc (stress_watchdog e a n)); try discriminate. contradiction.
Qed.

(** Nothing but a stop request or the handler clears the flag. *)
Lemma exec_flag e a c :
  pc c <> H90 -> keep_flag (tick (exec e a c)) = keep_flag c.
Proof.
  destruct c as [p fd0 fl cnt r0 rt js lg no nc clk]. cbn [pc keep_flag].
  intros Hp. destruct p; try contradiction;
    step_body; split_tests; step_tail; reflexivity.
Qed.

Lemma quiet_flag_up e a n :
  quiet e -> keep_flag (stress_watchdog e a n) = true.
Proof.
  intros Hq.
  assert (H : orderly (stress_watchdog e a n) /\
              keep_flag (stress_watchdog e a n) = true).
  { unfold stress_watchdog.
    apply (run_invariant e a (fun c => orderly c /\ keep_flag c = true)).
    - intros c (Ho & Hfl). split.
      + apply orderly_step; [apply quiet_unsignalled; exact Hq|exact Ho].
      + destruct (finished (pc c)) eqn:Hf;
          [rewrite step_finished by exact Hf; exact Hfl|].
        unfold step. rewrite Hf, (Hq _).
        rewrite exec_flag; [exact Hfl|].
        intros Hp. unfold orderly in Ho. rewrite Hp in Ho. exact Ho.
    - split; reflexivity. }
  exact (proj2 H).
Qed.

(** *** A handler that cannot be installed *)

Lemma install_upto e a i :
  (forall k, (k <= i + 1)%nat -> async e k <> Signal) ->
  (forall j, (j < i)%nat -> 0 <= sighandler_ret e j) -> (i <= nsigs e)%nat ->
  forall k, (k <= i)%nat ->
    exists fl,
      run e a (S k) init_config
      = mk_config (L108 k) (-1) fl 0 EXIT_SUCCESS 0 false [] 0 0 (S k).
Proof.
  intros Hs Hok Hi. induction k as [|k IH]; intros Hk.
  - rewrite run_S. cbn [run]. unfold init_config. wd_red.
    destruct (async e 0); wd_red; eexists; reflexivity.
  - destruct (IH ltac:(lia)) as (fl & Hrun).
    rewrite run_snoc, Hrun. wd_red.
    replace (k <? nsigs e)%nat with true by (symmetry; apply Nat.ltb_lt; lia).
    replace (sighandler_ret e k <? 0) with false
      by (symmetry; apply Z.ltb_ge; apply Hok; lia).
    destruct (async e (S k)) eqn:Ha;
      [|exfalso; apply (Hs (S k)); [lia|exact Ha]|];
      wd_red; eexists; reflexivity.
Qed.

Lemma install_fails e a i :
  (forall k, (k <= i + 1)%nat -> async e k <> Signal) ->
  (forall j, (j < i)%nat -> 0 <= sighandler_ret e j) -> (i < nsigs e)%nat ->
  sighandler_ret e i < 0 ->
  forall n, (i + 2 <= n)%nat ->
    exists fl,
      stress_watchdog e a n
      = mk_config (Returned EXIT_FAILURE) (-1) fl 0 EXIT_SUCCESS 0 false [] 0 0
                  (i + 2).
Proof.
  intros Hs Hok Hi Hneg n Hn. unfold stress_watchdog.
  replace n with (S (S i) + (n - i - 2))%nat by lia. rewrite run_add.
  destruct (install_upto e a i Hs Hok ltac:(lia) i (Nat.le_refl i)) as (fl & Hrun).
  rewrite run_snoc, Hrun.
  assert (Hstep : exists fl',
             step e a (mk_config (L108 i) (-1) fl 0 EXIT_SUCCESS 0 false [] 0 0 (S i))
             = mk_config (Returned EXIT_FAILURE) (-1) fl' 0 EXIT_SUCCESS 0 false []
                         0 0 (i + 2)).
  { wd_red.
    replace (i <? nsigs e)%nat with true by (symmetry; apply Nat.ltb_lt; lia).
    replace (sighandler_ret e i <? 0) with true
      by (symmetry; apply Z.ltb_lt; exact Hneg).
    replace (i + 2)%nat with (S (S i)) by lia.
    destruct (async e (S i)) eqn:Ha;
      [|exfalso; apply (Hs (S i)); [lia|exact Ha]|];
      wd_red; eexists; reflexivity. }
  destruct Hstep as (fl' & ->). exists fl'.
  apply run_finished. reflexivity.
Qed.

(** *** A run sees the asynchronous events only as far as it got *)

Lemma exec_with_async f e a c : exec (Coverage.with_async f e) a c = exec e a c.
Proof. destruct c as [p fd0 fl cnt r0 rt js lg no nc clk]. destruct p; reflexivity. Qed.

Lemma step_with_async f e a c :
  f (clock c) = async e (clock c) -> step (Coverage.with_async f e) a c = step e a c.
Proof.
  intros H. unfold step. rewrite !exec_with_async.
  cbn [async Coverage.with_async]. rewrite H. reflexivity.
Qed.

Lemma run_with_async f e a :
  forall n c,
    (forall j, (clock c <= j < clock c + n)%nat -> f j = async e j) ->
    run (Coverage.with_async f e) a n c = run e a n c.
Proof.
  induction n as [|n IH]; intros c H; [reflexivity|].
  rewrite !run_S, step_with_async by (apply H; lia).
  apply IH. intros j Hj. apply H.
  destruct (finished (pc c)) eqn:Hf.
  - rewrite step_finished in Hj by exact Hf. lia.
  - rewrite step_clock in Hj by exact Hf. lia.
Qed.

Ltac known_step HQ :=
  rewrite run_S; cbv beta iota delta [step finished pc clock];
  rewrite (HQ _) by lia; cbv beta iota; step_body;
  change (0 <=? 0) with true; cbv beta iota; step_tail.

(** A handled signal right after RUN is set, before the first open. *)
Lemma signal_before_first_open e a :
  handlers_ok e -> 0 <= access_ret e ->
  (forall j, async e j = if (j =? nsigs e + 6)%nat then Signal else Quiet) ->
  stress_watchdog e a (nsigs e + 14)
  = mk_config (Returned EXIT_SUCCESS) 0 false 0 EXIT_SUCCESS 1 true
              [EvState STRESS_STATE_RUN; EvSys (SysWrite 0); EvSys (SysWrite 0);
               EvSys (SysClose 0)]
              0 1 (nsigs e + 14).
Proof.
  intros Hh Hacc Ha.
  assert (HQ : forall j, (nsigs e + 6 < j)%nat -> async e j = Quiet).
  { intros j Hj. rewrite Ha.
    replace (j =? nsigs e + 6)%nat with false by (symmetry; apply Nat.eqb_neq; lia).
    reflexivity. }
  pose proof (setup (Coverage.with_async (fun _ => Quiet) e) a
                    (fun _ => eq_refl) Hh Hacc) as Hs.
  change (nsigs (Coverage.with_async (fun _ => Quiet) e)) with (nsigs e) in Hs.
  unfold stress_watchdog in Hs.
  rewrite run_with_async in Hs.
  2:{ intros j Hj. cbn [clock init_config] in Hj. rewrite Ha.
      replace (j =? nsigs e + 6)%nat with false by (symmetry; apply Nat.eqb_neq; lia).
      reflexivity. }
  unfold stress_watchdog.
  replace (nsigs e + 14)%nat with ((nsigs e + 6) + 8)%nat by lia.
  rewrite run_add, Hs.
  rewrite run_S. cbv beta iota delta [step finished pc clock].
  rewrite Ha, Nat.eqb_refl. cbv beta iota delta [handlers_installed]. step_tail.
  known_step HQ.
  known_step HQ.
  known_step HQ.
  known_step HQ.
  known_step HQ.
  known_step HQ.
  known_step HQ.
  cbn [run]. f_equal. lia.
Qed.

(** *** One pass of the loop, statement by statement *)

Lemma pass_trace e a :
  quiet e ->
  forall fd0 cnt r0 rt js lg no nc clk,
    0 <= open_ret e no -> 0 <= close_ret e nc ->
    keep_stressing true (max_ops a) cnt = true ->
    run e a 18 (mk_config L145 fd0 true cnt r0 rt js lg no nc clk)
    = mk_config L145 (-1) true (wrap64 (cnt + 1)) r0 (close_ret e nc) js
                (lg ++ [EvCheck true; EvSys (SysOpen (open_ret e no));
                        EvSys (SysWrite (open_ret e no))]
                    ++ List.map (fun r => EvSys (SysIoctl (open_ret e no) r))
                                ioctl_requests
                    ++ [EvSys (SysWrite (open_ret e no));
                        EvSys (SysClose (open_ret e no));
                        EvSys SysSchedYield; EvInc])
                (S no) (S nc) (18 + clk).
Proof.
  intros Hq fd0 cnt r0 rt js lg no nc clk Ho Hc Hk.
  assert (Ho1 : (open_ret e no <? 0) = false) by (apply Z.ltb_ge; exact Ho).
  assert (Ho2 : (0 <=? open_ret e no) = true) by (apply Z.leb_le; exact Ho).
  assert (Hc1 : (close_ret e nc <? 0) = false) by (apply Z.ltb_ge; exact Hc).
  quiet_step Hq then (rewrite Hk).
  quiet_step Hq.
  quiet_step Hq then (rewrite Ho1).
  quiet_step Hq then (rewrite Ho2).
  do 8 ioctl_step Hq.
  quiet_step Hq then (rewrite Ho2).
  quiet_step Hq.
  quiet_step Hq.
  quiet_step Hq then (rewrite Hc1).
  quiet_step Hq.
  quiet_step Hq.
  cbn [run]. f_equal.
  cbn [List.map ioctl_requests List.nth]. rewrite <- !List.app_assoc. reflexivity.
Qed.

End WatchdogCoverage.

(* ================================================================= *)
(** ** The keep-running predicate at work *)

Module PredicateProofs.

Lemma keep_stressing_spec flag ceiling counter :
  keep_stressing flag ceiling counter = true <->
  Contract.keep_running_spec flag ceiling counter.
Proof.
  unfold keep_stressing, Contract.keep_running_spec.
  rewrite andb_true_iff, orb_true_iff, Z.eqb_eq, Z.ltb_lt. reflexivity.
Qed.

Lemma replay_app ok l1 :
  forall l2 cnt k s,
    Contract.replay ok (l1 ++ l2) cnt k s <->
    Contract.replay ok l1 cnt k s /\
    Contract.replay ok l2 (Contract.counter_after l1 cnt)
                    (Contract.checks_after l1 k) (Contract.stopped_after l1 s).
Proof.
  induction l1 as [|ev l1 IH]; intros l2 cnt k s.
  - cbn. tauto.
  - cbn [List.app Contract.replay]. rewrite IH.
    unfold Contract.counter_after, Contract.checks_after, Contract.stopped_after.
    cbn [List.fold_left]. tauto.
Qed.

Lemma counter_after_app l1 l2 cnt :
  Contract.counter_after (l1 ++ l2) cnt
  = Contract.counter_after l2 (Contract.counter_after l1 cnt).
Proof. unfold Contract.counter_after. apply List.fold_left_app. Qed.

Lemma checks_after_app l1 l2 k :
  Contract.checks_after (l1 ++ l2) k
  = Contract.checks_after l2 (Contract.checks_after l1 k).
Proof. unfold Contract.checks_after. apply List.fold_left_app. Qed.

Lemma stopped_after_app l1 l2 s :
  Contract.stopped_after (l1 ++ l2) s
  = Contract.stopped_after l2 (Contract.stopped_after l1 s).
Proof. unfold Contract.stopped_after. apply List.fold_left_app. Qed.

(** A stretch without evaluations replays well while work may go on,
    and changes nothing but the counter. *)
Lemma replay_no_checks ok d :
  count is_check d = 0%nat ->
  forall cnt k,
    Contract.replay ok d cnt k false /\
    Contract.checks_after d k = k /\
    Contract.stopped_after d false = false.
Proof.
  induction d as [|ev d IH]; intros H cnt k; [repeat split|].
  assert (Hev : is_check ev = false /\ count is_check d = 0%nat).
  { unfold count in *. cbn [List.filter] in H.
    destruct (is_check ev); [discriminate|]. split; [reflexivity|exact H]. }
  destruct Hev as [Hev Hd].
  assert (Hk : Contract.checks_step k ev = k) by (destruct ev; try reflexivity; discriminate).
  assert (Hs : Contract.stopped_step false ev = false)
    by (destruct ev; try reflexivity; discriminate).
  destruct (IH Hd (Contract.counter_step cnt ev) k) as (R & C & S).
  unfold Contract.checks_after, Contract.stopped_after in *.
  cbn [Contract.replay List.fold_left]. rewrite Hk, Hs.
  split; [|split; assumption].
  split; [reflexivity|]. split; [|exact R].
  intros r ->. discriminate.
Qed.

(** One increment among events that do not evaluate. *)
Lemma counter_after_count d :
  forall cnt,
    Contract.counter_after d cnt
    = Nat.iter (count is_inc d) (fun c => wrap64 (c + 1)) cnt.
Proof.
  unfold Contract.counter_after.
  induction d as [|ev d IH]; intros cnt; [reflexivity|].
  cbn [List.fold_left]. rewrite IH. unfold count. cbn [List.filter].
  destruct ev; cbn [is_inc Contract.counter_step List.length]; try reflexivity.
  rewrite Nat.iter_succ_r. reflexivity.
Qed.

Lemma counter_after_one d cnt :
  count is_inc d = 1%nat -> Contract.counter_after d cnt = wrap64 (cnt + 1).
Proof. intros H. rewrite counter_after_count, H. reflexivity. Qed.

(** *** stress_cap *)

Section CapGoverned.

Variables (e : Cap.env) (a : stress_args_t).

Let ok : nat -> bool -> Z -> Prop :=
  fun k r cnt =>
    r = true <-> Contract.keep_running_spec (Cap.flag e k) (max_ops a) cnt.

Lemma tracked_refl st : Coverage.cap_tracked ok [] st st.
Proof.
  unfold Coverage.cap_tracked. rewrite List.app_nil_r. repeat split.
Qed.

Lemma tracked_trans d1 d2 st1 st2 st3 :
  Coverage.cap_tracked ok d1 st1 st2 ->
  Contract.stopped_after d1 false = false ->
  Coverage.cap_tracked ok d2 st2 st3 ->
  Coverage.cap_tracked ok (d1 ++ d2) st1 st3.
Proof.
  intros (L1 & R1 & C1 & K1) S1 (L2 & R2 & C2 & K2). unfold Coverage.cap_tracked.
  rewrite L2, L1, List.app_assoc, replay_app, counter_after_app, checks_after_app.
  rewrite S1, <- C1, <- K1. repeat split; assumption.
Qed.

(** One probe and the evaluation that follows it. *)
Lemma unit_tracked p do_set x st r st1 k st2 :
  Cap.stress_capgetset_pid e a p do_set x st = (r, st1) ->
  Cap.keep e a st1 = (k, st2) ->
  exists d,
    Coverage.cap_tracked ok d st st2 /\
    Contract.stopped_after d false = negb k.
Proof.
  intros Hp Hk.
  destruct (CapProofs.probe_eq _ _ _ _ _ _ _ _ Hp)
    as (Hc1 & Hn1 & d & Hd & (Hinc & _ & Hchk & _)).
  destruct (CapProofs.keep_eq _ _ _ _ _ Hk) as (Hc2 & Hl2 & Hkv).
  pose proof (CapCoverage.keep_ncheck _ _ _ _ _ Hk) as Hn2.
  destruct (replay_no_checks ok d Hchk (Cap.counter st) (Cap.ncheck st))
    as (R & K & S).
  pose proof (counter_after_one d (Cap.counter st) Hinc) as C.
  exists (d ++ [EvCheck k]). split.
  - unfold Coverage.cap_tracked.
    rewrite replay_app, counter_after_app, checks_after_app, K, S, C.
    split; [rewrite Hl2, Hd, List.app_assoc; reflexivity|].
    split; [split; [exact R|]|].
    + cbn [Contract.replay]. split; [discriminate|]. split; [|exact I].
      intros r' Hr'. inversion Hr'; subst r'. unfold ok.
      rewrite <- Hn1, <- Hc1, Hkv. apply keep_stressing_spec.
    + cbn. rewrite Hc2, Hc1, Hn2, Hn1. split; reflexivity.
  - rewrite stopped_after_app, S. reflexivity.
Qed.

(** An evaluation after a stretch that replays well. *)
Lemma check_tracked d st st1 k st2 :
  Coverage.cap_tracked ok d st st1 ->
  Cap.keep e a st1 = (k, st2) ->
  Coverage.cap_tracked ok (d ++ [EvCheck k]) st st2 /\
  Contract.stopped_after (d ++ [EvCheck k]) false = negb k.
Proof.
  intros (L & R & C & K) Hk.
  destruct (CapProofs.keep_eq _ _ _ _ _ Hk) as (Hc2 & Hl2 & Hkv).
  pose proof (CapCoverage.keep_ncheck _ _ _ _ _ Hk) as Hn2.
  split.
  - unfold Coverage.cap_tracked.
    rewrite replay_app, counter_after_app, checks_after_app, <- C, <- K.
    split; [rewrite Hl2, L, List.app_assoc; reflexivity|].
    split; [split; [exact R|]|].
    + cbn [Contract.replay]. split; [discriminate|]. split; [|exact I].
      intros r' Hr'. inversion Hr'; subst r'. unfold ok.
      rewrite Hkv. apply keep_stressing_spec.
    + cbn. rewrite Hc2, Hn2. split; reflexivity.
  - rewrite stopped_after_app. reflexivity.
Qed.

Lemma readdir_loop_tracked :
  forall ents st,
    exists d, Coverage.cap_tracked ok d st (Cap.readdir_loop e a ents st).
Proof.
  induction ents as [|ent ents IH]; intros st.
  - exists []. apply tracked_refl.
  - cbn [Cap.readdir_loop].
    destruct (negb (Cap.isdigit (Cap.first_char ent))); [apply IH|].
    destruct (Cap.sscanf_intmax ent) as [p|]; [|apply IH].
    destruct (Cap.stress_capgetset_pid e a (wrap_int32 p) false false st)
      as [r st1] eqn:Hp.
    destruct (Cap.keep e a st1) as [k st2] eqn:Hk.
    destruct (unit_tracked _ _ _ _ _ _ _ _ Hp Hk) as (d & Hd & Hs).
    destruct k; [|exists d; exact Hd].
    destruct (IH st2) as (d' & Hd').
    exists (d ++ d'). exact (tracked_trans _ _ _ _ _ Hd Hs Hd').
Qed.

Lemma cap_pass_tracked pass st again st' :
  Cap.cap_pass e a pass st = (again, st') ->
  exists d,
    Coverage.cap_tracked ok d st st' /\
    Contract.stopped_after d false = negb again.
Proof.
  unfold Cap.cap_pass.
  CapProofs.cap_unit Hp1 Hk1 st1 st2 k1.
  destruct (unit_tracked _ _ _ _ _ _ _ _ Hp1 Hk1) as (d1 & Hd1 & Hs1).
  destruct k1; cbn [negb];
    [|intros H; inversion H; subst; exists d1; split; assumption].
  CapProofs.cap_unit Hp2 Hk2 st3 st4 k2.
  destruct (unit_tracked _ _ _ _ _ _ _ _ Hp2 Hk2) as (d2 & Hd2 & Hs2).
  pose proof (tracked_trans _ _ _ _ _ Hd1 Hs1 Hd2) as Hd12.
  assert (Hs12 : Contract.stopped_after (d1 ++ d2) false = negb k2)
    by (rewrite stopped_after_app, Hs1; exact Hs2).
  destruct k2; cbn [negb];
    [|intros H; inversion H; subst; exists (d1 ++ d2); split; assumption].
  CapProofs.cap_unit Hp3 Hk3 st5 st6 k3.
  destruct (unit_tracked _ _ _ _ _ _ _ _ Hp3 Hk3) as (d3 & Hd3 & Hs3).
  pose proof (tracked_trans _ _ _ _ _ Hd12 Hs12 Hd3) as Hd123.
  assert (Hs123 : Contract.stopped_after ((d1 ++ d2) ++ d3) false = negb k3)
    by (rewrite stopped_after_app, Hs12; exact Hs3).
  destruct k3; cbn [negb];
    [|intros H; inversion H; subst; exists ((d1 ++ d2) ++ d3); split; assumption].
  cbv zeta.
  set (st7 := match Cap.proc_dir e pass with
              | Some ents => Cap.readdir_loop e a ents st6
              | None => st6
              end).
  assert (H7 : exists d, Coverage.cap_tracked ok d st6 st7).
  { subst st7. destruct (Cap.proc_dir e pass) as [ents|].
    - apply readdir_loop_tracked.
    - exists []. apply tracked_refl. }
  destruct H7 as (d7 & Hd7).
  pose proof (tracked_trans _ _ _ _ _ Hd123 Hs123 Hd7) as Hall.
  intros Hk4.
  destruct (check_tracked _ _ _ _ _ Hall Hk4) as (Hd & Hs).
  eexists. split; [exact Hd|exact Hs].
Qed.

Lemma cap_loop_tracked :
  forall fuel pass st st',
    Cap.cap_loop e a fuel pass st = Some st' ->
    exists d,
      Coverage.cap_tracked ok d st st' /\
      Contract.stopped_after d false = true.
Proof.
  induction fuel as [|fuel IH]; intros pass st st' H; [discriminate|].
  cbn [Cap.cap_loop] in H.
  destruct (Cap.cap_pass e a pass st) as [again st1] eqn:Hpass.
  destruct (cap_pass_tracked _ _ _ _ Hpass) as (d1 & Hd1 & Hs1).
  destruct again; cbn [negb] in Hs1;
    [|inversion H; subst; exists d1; split; assumption].
  destruct (IH _ _ _ H) as (d & Hd & Hs).
  exists (d1 ++ d). split; [exact (tracked_trans _ _ _ _ _ Hd1 Hs1 Hd)|].
  rewrite stopped_after_app, Hs1. exact Hs.
Qed.

(** The log of a returned run of [stress_cap] is governed by the
    predicate, and the loop is left after an evaluation that answered
    false. *)
Lemma stress_cap_governed fuel rc st :
  Cap.stress_cap e fuel a Cap.init_state = Some (rc, st) ->
  Contract.governed (Cap.flag e) (max_ops a) (Cap.log st) /\
  Contract.stopped_after (Cap.log st) false = true.
Proof.
  unfold Cap.stress_cap. intros H.
  destruct (Cap.cap_loop e a fuel 0
                         (Cap.emit (EvState STRESS_STATE_RUN) Cap.init_state))
    as [st'|] eqn:Hl; [|discriminate].
  inversion H; subst; clear H.
  destruct (cap_loop_tracked _ _ _ _ Hl) as (d & (L & R & _) & Hs).
  cbn [Cap.emit Cap.log Cap.counter Cap.ncheck Cap.init_state] in *.
  rewrite L. change ([] ++ [EvState STRESS_STATE_RUN]) with
      ([EvState STRESS_STATE_RUN]).
  split.
  - unfold Contract.governed. rewrite <- List.app_assoc.
    cbn [List.app Contract.replay]. split; [discriminate|].
    split; [discriminate|].
    cbn [Contract.counter_step Contract.checks_step Contract.stopped_step].
    apply replay_app. split; [exact R|].
    cbn [Contract.replay]. split; [discriminate|]. split; [discriminate|exact I].
  - rewrite <- List.app_assoc. cbn [List.app].
    unfold Contract.stopped_after in *. cbn [List.fold_left Contract.stopped_step].
    rewrite List.fold_left_app, Hs. reflexivity.
Qed.

End CapGoverned.

(** *** stress_watchdog *)

Lemma replays_same ok lg cnt p p' :
  Contract.replay ok lg 0 0 false ->
  cnt = Contract.counter_after lg 0 ->
  (Contract.stopped_after lg false = true -> Coverage.exiting p = true) ->
  (Coverage.exiting p = true -> Coverage.exiting p' = true) ->
  Contract.replay ok lg 0 0 false /\
  cnt = Contract.counter_after lg 0 /\
  (Contract.stopped_after lg false = true -> Coverage.exiting p' = true).
Proof. intros R C S Hp. split; [exact R|]. split; [exact C|]. auto. Qed.

Lemma replays_emit ok lg cnt p p' ev cnt' :
  Contract.replay ok lg 0 0 false ->
  cnt = Contract.counter_after lg 0 ->
  (Contract.stopped_after lg false = true -> Coverage.exiting p = true) ->
  (Contract.is_work ev = true -> Coverage.exiting p = false) ->
  (forall r, ev = EvCheck r -> ok (Contract.checks_after lg 0) r cnt) ->
  cnt' = Contract.counter_step cnt ev ->
  match ev with
  | EvCheck r => r = false -> Coverage.exiting p' = true
  | _ => Coverage.exiting p = true -> Coverage.exiting p' = true
  end ->
  Contract.replay ok (lg ++ [ev]) 0 0 false /\
  cnt' = Contract.counter_after (lg ++ [ev]) 0 /\
  (Contract.stopped_after (lg ++ [ev]) false = true -> Coverage.exiting p' = true).
Proof.
  intros R C S Hw Hc Hcnt Hp.
  rewrite replay_app, counter_after_app, stopped_after_app, <- C.
  split; [split; [exact R|]|split; [exact Hcnt|]].
  - cbn [Contract.replay]. split; [|split; [exact Hc|exact I]].
    intros Hwork. specialize (Hw Hwork).
    destruct (Contract.stopped_after lg false); [|reflexivity].
    rewrite (S eq_refl) in Hw. discriminate.
  - unfold Contract.stopped_after at 1. cbn [List.fold_left].
    destruct ev; cbn [Contract.stopped_step]; try (intros H; exact (Hp (S H))).
    destruct result; cbn [negb]; [discriminate|]. intros _. apply Hp. reflexivity.
Qed.

Section WatchdogGoverned.

Variables (e : Watchdog.env) (a : stress_args_t) (ok : nat -> bool -> Z -> Prop).

Import Watchdog.
Import WatchdogProofs.

Ltac replays_case R C S :=
  first
    [ apply (replays_same _ _ _ _ _ R C S);
      cbn [Coverage.exiting]; first [discriminate | intros _; reflexivity]
    | eapply replays_emit;
      [ exact R | exact C | exact S
      | cbn [Contract.is_work Coverage.exiting];
        first [discriminate | intros _; reflexivity]
      | intros r Hr; discriminate Hr
      | reflexivity
      | cbn [Coverage.exiting]; first [discriminate | intros _; reflexivity] ] ].

Lemma replays_exec c :
  finished (pc c) = false ->
  (pc c = L145 ->
   ok (Contract.checks_after (log c) 0)
      (keep_stressing (keep_flag c) (max_ops a) (counter c)) (counter c)) ->
  Coverage.replays ok c -> Coverage.replays ok (tick (exec e a c)).
Proof.
  destruct c as [p fd0 fl cnt r0 rt js lg no nc clk].
  unfold Coverage.replays. cbn [pc log counter keep_flag].
  intros Hf Hok (R & C & S).
  destruct p; cbn [finished] in Hf; try discriminate; step_body.
  all: try (split_tests; step_tail; replays_case R C S; fail).
  specialize (Hok eq_refl).
  destruct (keep_stressing fl (max_ops a) cnt); step_tail;
    (eapply replays_emit;
     [ exact R | exact C | exact S
     | discriminate
     | intros r Hr; inversion Hr; subst r; exact Hok
     | reflexivity
     | cbn [Coverage.exiting]; first [discriminate | intros _; reflexivity] ]).
Qed.

Lemma replays_set_flag b c : Coverage.replays ok c -> Coverage.replays ok (set_flag b c).
Proof. destruct c. unfold Coverage.replays. cbn. auto. Qed.

Lemma replays_handler c :
  Coverage.replays ok c -> Coverage.replays ok (tick (goto H87 c)).
Proof.
  destruct c. unfold Coverage.replays. cbn [pc log counter tick goto].
  intros (R & C & _). split; [exact R|]. split; [exact C|]. reflexivity.
Qed.

End WatchdogGoverned.

(** Whatever arrives, an evaluation that answered false is heeded:
    the worker opens nothing, asks nothing and counts nothing
    afterwards. *)
Lemma watchdog_heeded e a n :
  Contract.heeded (Watchdog.log (Watchdog.stress_watchdog e a n)).
Proof.
  assert (H : Coverage.replays (fun _ _ _ => True)
                               (Watchdog.stress_watchdog e a n)).
  { unfold Watchdog.stress_watchdog.
    apply (WatchdogProofs.run_invariant e a (Coverage.replays (fun _ _ _ => True))).
    - intros c H.
      destruct (Watchdog.finished (Watchdog.pc c)) eqn:Hf;
        [rewrite WatchdogProofs.step_finished by exact Hf; exact H|].
      destruct (WatchdogProofs.step_cases e a c Hf) as [-> | [-> | (_ & _ & ->)]].
      + apply replays_exec; [exact Hf|intros _; exact I|exact H].
      + apply replays_exec;
          [destruct c; exact Hf|intros _; exact I|apply replays_set_flag; exact H].
      + apply replays_handler. exact H.
    - unfold Coverage.replays. cbn. repeat split. discriminate. }
  exact (proj1 H).
Qed.

(** Whatever arrives, the loop goes round only below the ceiling, the
    counter being the number of increments logged so far. *)
Lemma watchdog_capped e a n :
  Contract.capped (max_ops a) (Watchdog.log (Watchdog.stress_watchdog e a n)).
Proof.
  set (okc := fun (k : nat) (r : bool) (cnt : Z) =>
                r = true -> max_ops a = 0 \/ cnt < max_ops a).
  assert (Hok : forall c,
             okc (Contract.checks_after (Watchdog.log c) 0)
                 (keep_stressing (Watchdog.keep_flag c) (max_ops a)
                                 (Watchdog.counter c))
                 (Watchdog.counter c)).
  { intros c Hk. apply keep_stressing_spec in Hk. exact (proj2 Hk). }
  assert (H : Coverage.replays okc (Watchdog.stress_watchdog e a n)).
  { unfold Watchdog.stress_watchdog.
    apply (WatchdogProofs.run_invariant e a (Coverage.replays okc)).
    - intros c H.
      destruct (Watchdog.finished (Watchdog.pc c)) eqn:Hf;
        [rewrite WatchdogProofs.step_finished by exact Hf; exact H|].
      destruct (WatchdogProofs.step_cases e a c Hf) as [-> | [-> | (_ & _ & ->)]].
      + apply replays_exec; [exact Hf|intros _; apply Hok|exact H].
      + apply replays_exec;
          [destruct c; exact Hf|intros _; apply Hok
          |apply replays_set_flag; exact H].
      + apply replays_handler. exact H.
    - unfold Coverage.replays. cbn. repeat split. discriminate. }
  exact (proj1 H).
Qed.

(** The statement at line 145: the loop is entered exactly when the
    predicate holds of the flag, the ceiling and the counter of the
    configuration, and the answer is what is logged. *)
Lemma watchdog_decision (e : Watchdog.env) a c :
  Watchdog.pc c = Watchdog.L145 ->
  (Contract.keep_running_spec (Watchdog.keep_flag c) (max_ops a)
                              (Watchdog.counter c) ->
   Watchdog.pc (Watchdog.exec e a c) = Watchdog.L146 /\
   Watchdog.log (Watchdog.exec e a c) = Watchdog.log c ++ [EvCheck true]) /\
  (~ Contract.keep_running_spec (Watchdog.keep_flag c) (max_ops a)
                                (Watchdog.counter c) ->
   Watchdog.pc (Watchdog.exec e a c) = Watchdog.L248 /\
   Watchdog.log (Watchdog.exec e a c) = Watchdog.log c ++ [EvCheck false]).
Proof.
  intros Hp. unfold Watchdog.exec. rewrite Hp.
  pose proof (keep_stressing_spec (Watchdog.keep_flag c) (max_ops a)
                                  (Watchdog.counter c)) as Hk.
  destruct (keep_stressing (Watchdog.keep_flag c) (max_ops a)
                           (Watchdog.counter c)).
  - split; [intros _; split; reflexivity|].
    intros Hn. exfalso. apply Hn. apply Hk. reflexivity.
  - split; [|intros _; split; reflexivity].
    intros Hs. apply Hk in Hs. discriminate.
Qed.

(** When nothing arrives the flag stays up, and every evaluation
    answers as the predicate does on the ceiling and the counter. *)
Lemma watchdog_governed e a n :
  Watchdog.quiet e ->
  Contract.governed (fun _ => true) (max_ops a)
                    (Watchdog.log (Watchdog.stress_watchdog e a n)).
Proof.
  intros Hq.
  set (okq := fun (k : nat) (r : bool) (cnt : Z) =>
                r = true <-> Contract.keep_running_spec true (max_ops a) cnt).
  assert (H : Coverage.replays okq (Watchdog.stress_watchdog e a n) /\
              Watchdog.orderly (Watchdog.stress_watchdog e a n) /\
              Watchdog.keep_flag (Watchdog.stress_watchdog e a n) = true).
  { unfold Watchdog.stress_watchdog.
    apply (WatchdogProofs.run_invariant
             e a (fun c => Coverage.replays okq c /\ Watchdog.orderly c /\
                           Watchdog.keep_flag c = true)).
    - intros c (H & Ho & Hfl).
      destruct (Watchdog.finished (Watchdog.pc c)) eqn:Hf;
        [rewrite WatchdogProofs.step_finished by exact Hf;
         split; [exact H|split; [exact Ho|exact Hfl]]|].
      split; [|split].
      + unfold Watchdog.step. rewrite Hf, (Hq _).
        apply replays_exec; [exact Hf| |exact H].
        intros _. rewrite Hfl. unfold okq. apply keep_stressing_spec.
      + apply WatchdogProofs.orderly_step;
          [apply WatchdogProofs.quiet_unsignalled; exact Hq|exact Ho].
      + unfold Watchdog.step. rewrite Hf, (Hq _).
        rewrite WatchdogCoverage.exec_flag; [exact Hfl|].
        intros Hp. unfold Watchdog.orderly in Ho. rewrite Hp in Ho. exact Ho.
    - split; [|split; reflexivity].
      unfold Coverage.replays. cbn. repeat split. discriminate. }
  exact (proj1 (proj1 H)).
Qed.

(** *** The micro-threads of stress_context *)

Lemma thread_cond_spec flag ceiling counter :
  Context.thread_cond flag ceiling counter = true <->
  Contract.keep_running_spec flag ceiling counter.
Proof.
  unfold Context.thread_cond, c_lnot, Contract.keep_running_spec.
  rewrite andb_true_iff, orb_true_iff, Z.eqb_eq, Z.ltb_lt. reflexivity.
Qed.

(** At its while-condition a thread goes round again exactly when the
    predicate holds of the flag as read, the ceiling and the counter,
    and hands control back otherwise. *)
Lemma run_threads_decision (e : Context.env) M fuel cur s :
  (Contract.keep_running_spec (Context.flag e (Context.ncheck s)) M
                              (Context.context_counter s) ->
   Context.run_threads e M (S fuel) cur Context.AtCond s
   = Context.run_threads e M fuel cur Context.AtBody (Context.checked s)) /\
  (~ Contract.keep_running_spec (Context.flag e (Context.ncheck s)) M
                                (Context.context_counter s) ->
   Context.run_threads e M (S fuel) cur Context.AtCond s
   = Some (Context.checked s)).
Proof.
  cbn [Context.run_threads].
  destruct (Context.thread_cond (Context.flag e (Context.ncheck s)) M
                                (Context.context_counter s)) eqn:Hc.
  - split; [reflexivity|]. intros Hn. exfalso. apply Hn.
    apply thread_cond_spec. exact Hc.
  - split; [|reflexivity]. intros Hs. apply thread_cond_spec in Hs.
    rewrite Hs in Hc. discriminate.
Qed.

Section ContextGoverned.

Import Context.

Variables (e : env) (M : Z).
Hypothesis M_pos : 0 < M.
Hypothesis M_room : M + 2 < 2 ^ 64.

Ltac crush_accounted :=
  match goal with s : threads |- _ => destruct s end;
  match goal with cur : tid |- _ => destruct cur end;
  repeat match goal with p : point |- _ => destruct p end;
  unfold Coverage.accounted, within, unstarted, waiting, bump, checked, save, saved
    in *;
  cbn -[Z.of_nat wrap64 Z.add Z.sub Z.pow] in *;
  rewrite ?Nat2Z.inj_succ in *;
  rewrite ?wrap64_small by lia;
  try lia.

Lemma accounted_body_fail cur s :
  within M cur AtBody s -> Coverage.accounted cur AtBody s ->
  Coverage.accounted cur AtCond (bump s).
Proof. intros [H0 H] [Hu Ha]. crush_accounted. Qed.

Lemma accounted_body_swap cur s :
  within M cur AtBody s -> Coverage.accounted cur AtBody s ->
  Coverage.accounted (swap_target cur) (saved (bump s) (swap_target cur))
                     (save cur AtCond (bump s)).
Proof. intros [H0 H] [Hu Ha]. crush_accounted. Qed.

Lemma accounted_cond_true cur s :
  Coverage.accounted cur AtCond s -> Coverage.accounted cur AtBody (checked s).
Proof. intros [Hu Ha]. crush_accounted. Qed.

(** When the micro-threads hand control back, the last evaluation has
    answered false on the counter as it stands, and every evaluation
    before it was followed by one pass through a loop body. *)
Lemma run_threads_accounted :
  forall fuel cur p s r,
    within M cur p s -> Coverage.accounted cur p s ->
    run_threads e M fuel cur p s = Some r ->
    (1 <= ncheck r)%nat /\
    thread_cond (flag e (Nat.pred (ncheck r))) M (context_counter r) = false /\
    exists firsts,
      1 <= firsts <= 3 /\
      context_counter r = Z.of_nat (ncheck r) - 1 + firsts.
Proof.
  induction fuel as [|fuel IH]; intros cur p s r Hw Ha Hrun; [discriminate|].
  cbn [run_threads] in Hrun. destruct p.
  - destruct (thread_swap_ok e (nswap s)).
    + eapply IH; [| |exact Hrun].
      * apply ContextProofs.within_body_swap; assumption.
      * apply accounted_body_swap; assumption.
    + eapply IH; [| |exact Hrun].
      * apply ContextProofs.within_body_fail; assumption.
      * apply accounted_body_fail; assumption.
  - destruct (thread_cond (flag e (ncheck s)) M (context_counter s)) eqn:Hcond.
    + eapply IH; [| |exact Hrun].
      * apply ContextProofs.within_cond_true; [|exact Hw].
        eapply ContextCoverage.thread_cond_below; [|exact Hcond]. lia.
      * apply accounted_cond_true; assumption.
    + inversion Hrun; subst r. clear Hrun IH.
      destruct Ha as [Hu Ha].
      destruct s; cbn -[Z.of_nat] in *. rewrite Nat2Z.inj_succ.
      split; [lia|]. split; [exact Hcond|].
      exists (3 - unstarted cur
                    {| context_counter := context_counter0; saved1 := saved4;
                       saved2 := saved5; saved3 := saved6; nswap := nswap0;
                       ncheck := ncheck0 |}).
      split; lia.
Qed.

Lemma accounted_start : Coverage.accounted T1 AtBody threads0.
Proof. unfold Coverage.accounted, unstarted, waiting. cbn. lia. Qed.

End ContextGoverned.

(** [stress_context]: the run comes back from the micro-threads at an
    evaluation of the predicate that answered false, and the counter is
    the number of evaluations before it plus the first passes of the
    threads that were started. *)
Lemma stress_context_governed (e : Context.env) fuel a rc st th :
  Context.scaled_ceiling a <> 0 ->
  Context.stress_context e fuel a Context.init_state = Some (rc, st) ->
  Context.threads_end st = Some th ->
  (1 <= Context.ncheck th)%nat /\
  ~ Contract.keep_running_spec
      (Context.flag e (Nat.pred (Context.ncheck th))) (Context.scaled_ceiling a)
      (Context.context_counter th) /\
  exists firsts,
    1 <= firsts <= 3 /\
    Context.context_counter th = Z.of_nat (Context.ncheck th) - 1 + firsts.
Proof.
  intros HM H Hth.
  destruct (ContextProofs.stress_context_inv e fuel a rc st th H Hth) as (Hrun & _).
  pose proof (ContextProofs.scaled_ceiling_range a) as Hr.
  assert (Hpos : 0 < Context.scaled_ceiling a) by lia.
  assert (Hroom : Context.scaled_ceiling a + 2 < 2 ^ 64) by lia.
  destruct (run_threads_accounted e _ Hpos Hroom _ _ _ _ _
              (ContextProofs.within_start _ Hpos) accounted_start Hrun)
    as (Hn & Hc & Hf).
  split; [exact Hn|]. split; [|exact Hf].
  intros Hs. apply thread_cond_spec in Hs. rewrite Hs in Hc. discriminate.
Qed.

End PredicateProofs.

(* ================================================================= *)
(** ** The contract, claim by claim *)

(** C1, as stated, fails on the watchdog stressor: with a ceiling of
    one operation and nothing ever clearing the flag, a device that stays
    busy keeps the worker in its retry loop for ever, the counter at 0;
    and a host without the device makes the worker return at once, the
    counter at 0 as well. *)
Lemma C1_watchdog_counterexample :
  (forall k, Watchdog.async Examples.watchdog_busy k = Watchdog.Quiet) /\
  0 < max_ops Examples.args_one /\
  ~ (exists n r,
        Watchdog.result
          (Watchdog.stress_watchdog Examples.watchdog_busy Examples.args_one n)
        = Some r) /\
  Watchdog.result
    (Watchdog.stress_watchdog Examples.watchdog_missing Examples.args_one 12)
  = Some EXIT_SUCCESS /\
  Watchdog.counter
    (Watchdog.stress_watchdog Examples.watchdog_missing Examples.args_one 12)
  <> max_ops Examples.args_one.
Proof.
  split; [intros k; reflexivity|]. split; [reflexivity|]. split.
  - intros (n & r & H).
    assert (Hn : Watchdog.result
                   (Watchdog.stress_watchdog Examples.watchdog_busy
                                             Examples.args_one n) = None).
    { apply WatchdogProofs.busy_never_returns.
      - intros k. reflexivity.
      - intros i. cbn. lia.
      - cbn. lia.
      - intros k. cbn. lia.
      - cbn. lia. }
    rewrite Hn in H. discriminate.
  - split; [vm_compute; reflexivity|]. vm_compute. discriminate.
Qed.

(** C1 (amended): with a ceiling C > 0 and the keep-running flag held
    true the run ends with the operation counter exactly on C (hence
    never beyond it)
    - for the capability stressor, always;
    - for the context stressor, when C * 1000 fits in 64 bits and the
      setup (mmap, the three getcontext calls, the first swapcontext)
      succeeds;
    - for the watchdog stressor, when the handlers install, the device
      is accessible, at least C of its opens succeed sooner or later
      (it may be busy in between), its first C closes succeed and
      nothing arrives.
    While every open of the watchdog device fails the worker does not
    return and its counter stays 0; when the access check fails it
    returns SUCCESS at once, the counter at 0. *)
Theorem C1_ceiling_reached :
  forall a : stress_args_t,
    0 < max_ops a < 2 ^ 64 ->
    (forall e : Cap.env,
        (forall n, Cap.flag e n = true) ->
        exists fuel st,
          Cap.stress_cap e fuel a Cap.init_state = Some (EXIT_SUCCESS, st) /\
          Cap.counter st = max_ops a) /\
    (forall e : Context.env,
        max_ops a * 1000 < 2 ^ 64 ->
        Context.mmap_ok e = true ->
        (forall i, (i < 3)%nat -> Context.getcontext_ok e i = true) ->
        Context.main_swap_ok e = true ->
        (forall n, Context.flag e n = true) ->
        exists fuel st,
          Context.stress_context e fuel a Context.init_state
          = Some (EXIT_SUCCESS, st) /\
          Context.counter st = max_ops a) /\
    (forall e : Watchdog.env,
        Watchdog.quiet e -> Watchdog.handlers_install e ->
        0 <= Watchdog.access_ret e ->
        Watchdog.opens_suffice e (max_ops a) ->
        Watchdog.closes_suffice e (max_ops a) ->
        exists n,
          Watchdog.result (Watchdog.stress_watchdog e a n) = Some EXIT_SUCCESS /\
          Watchdog.counter (Watchdog.stress_watchdog e a n) = max_ops a) /\
    (forall e : Watchdog.env,
        Watchdog.quiet e -> Watchdog.handlers_ok e ->
        0 <= Watchdog.access_ret e -> Watchdog.opens_busy e ->
        forall n,
          Watchdog.result (Watchdog.stress_watchdog e a n) = None /\
          Watchdog.counter (Watchdog.stress_watchdog e a n) = 0) /\
    (forall e : Watchdog.env,
        Watchdog.unsignalled e -> Watchdog.handlers_ok e ->
        Watchdog.access_ret e < 0 ->
        let c := Watchdog.stress_watchdog e a (Watchdog.nsigs e + 3) in
        Watchdog.result c = Some EXIT_SUCCESS /\ Watchdog.counter c = 0).
Proof.
  intros a HC. split; [|split; [|split; [|split]]].
  - intros e Hf.
    destruct (CapProofs.stress_cap_returns e a HC) as (fuel & st & Hr & _ & Heq).
    exists fuel, st. split; [exact Hr|apply Heq; exact Hf].
  - intros e Hno Hm Hg Hs Hf.
    apply ContextProofs.context_reaches_ceiling_setup; try assumption; lia.
  - intros e Hq Hh Hacc Ho Hc.
    apply WatchdogProofs.watchdog_reaches_ceiling_through_busy; assumption.
  - intros e Hq Hh Hacc Hbusy n.
    apply WatchdogProofs.busy_never_returns; try assumption. lia.
  - intros e Hu Hh Hacc.
    destruct (WatchdogProofs.missing_device e a Hu Hh Hacc) as (Hr & Hc & _).
    split; assumption.
Qed.

Lemma C1_ceiling_reached_witness :
  (exists fuel st,
      Cap.stress_cap Examples.cap_failing fuel Examples.args_one Cap.init_state
      = Some (EXIT_SUCCESS, st) /\ Cap.counter st = 1) /\
  (exists fuel st,
      Context.stress_context Examples.context_quiet fuel Examples.args_one
                             Context.init_state
      = Some (EXIT_SUCCESS, st) /\ Context.counter st = 1) /\
  (exists n,
      Watchdog.result
        (Watchdog.stress_watchdog Examples.watchdog_busy_then_free
                                  Examples.args_one n)
      = Some EXIT_SUCCESS /\
      Watchdog.counter
        (Watchdog.stress_watchdog Examples.watchdog_busy_then_free
                                  Examples.args_one n) = 1).
Proof.
  destruct (C1_ceiling_reached Examples.args_one) as (Hcap & Hctx & Hwd & _).
  - split; reflexivity.
  - split; [|split].
    + apply Hcap. intros n. reflexivity.
    + apply Hctx.
      * reflexivity.
      * reflexivity.
      * intros i _. reflexivity.
      * reflexivity.
      * intros n. reflexivity.
    + apply Hwd.
      * intros k. reflexivity.
      * intros i _. discriminate.
      * discriminate.
      * exists 4%nat. discriminate.
      * intros k _. discriminate.
Defined.

(** C2, as stated, fails on the watchdog stressor: a handled signal
    that arrives inside the loop takes the worker through the handler and
    siglongjmp to [return EXIT_SUCCESS]; RUN was entered, DEINIT never
    is. *)
Lemma C2_signal_return_skips_deinit :
  let c := Watchdog.stress_watchdog (Examples.watchdog_signal_at 20)
                                    Examples.args_one 28 in
  Watchdog.result c = Some EXIT_SUCCESS /\
  entered STRESS_STATE_RUN (Watchdog.log c) = true /\
  entered STRESS_STATE_DEINIT (Watchdog.log c) = false.
Proof. vm_compute. repeat split. Qed.

(** C2 (amended): DEINIT is logged after RUN on every return of
    [stress_cap], on every return of [stress_context] that follows RUN
    with the first swapcontext having succeeded, and on every return of
    [stress_watchdog] that follows RUN with no handled signal delivered
    (loop left by the ceiling, by the flag, or by a failed close). The
    code behind the watchdog's resume point, where the handler's
    siglongjmp lands, returns EXIT_SUCCESS without setting any run
    state. *)
Theorem C2_deinit_on_loop_paths :
  (forall (e : Cap.env) fuel a rc st,
      Cap.stress_cap e fuel a Cap.init_state = Some (rc, st) ->
      Contract.deinit_after_run (Cap.log st) = true) /\
  (forall (e : Context.env) fuel a rc st,
      Context.main_swap_ok e = true ->
      Context.stress_context e fuel a Context.init_state = Some (rc, st) ->
      entered STRESS_STATE_RUN (Context.log st) = true ->
      Contract.deinit_after_run (Context.log st) = true) /\
  (forall (e : Watchdog.env) a n r,
      Watchdog.unsignalled e ->
      Watchdog.result (Watchdog.stress_watchdog e a n) = Some r ->
      entered STRESS_STATE_RUN (Watchdog.log (Watchdog.stress_watchdog e a n)) = true ->
      Contract.deinit_after_run (Watchdog.log (Watchdog.stress_watchdog e a n))
      = true) /\
  (forall (e : Watchdog.env) a fd0 fl cnt r0 rt js lg no nc clk,
      Watchdog.quiet e ->
      exists c',
        Watchdog.run e a 4
          (Watchdog.mk_config Watchdog.L136 fd0 fl cnt r0 rt js lg no nc clk) = c' /\
        Watchdog.result c' = Some EXIT_SUCCESS /\
        forall s, entered s (Watchdog.log c') = entered s lg).
Proof.
  split; [|split; [|split]].
  - intros e fuel a rc st H.
    destruct (CapProofs.stress_cap_inv e fuel a rc st H) as (_ & d & -> & Hcalm).
    destruct Hcalm as (_ & _ & _ & Hno).
    cbn [List.app Contract.deinit_after_run].
    rewrite entered_app. cbn. apply orb_true_r.
  - intros e fuel a rc st Hs H Hrun.
    exact (ContextProofs.context_return_deinit e fuel a rc st Hs H Hrun).
  - intros e a n r Hu Hr Hrun.
    exact (WatchdogProofs.unsignalled_return_deinit e a n r Hu Hr Hrun).
  - intros e a fd0 fl cnt r0 rt js lg no nc clk Hq.
    apply WatchdogProofs.resume_block. exact Hq.
Qed.

Lemma C2_deinit_on_loop_paths_witness :
  match Cap.stress_cap Examples.cap_failing 3 Examples.args_one Cap.init_state with
  | Some (_, st) => Contract.deinit_after_run (Cap.log st) = true
  | None => False
  end /\
  match Context.stress_context Examples.context_quiet 3000 Examples.args_one
                               Context.init_state with
  | Some (_, st) => Contract.deinit_after_run (Context.log st) = true
  | None => False
  end /\
  Contract.deinit_after_run
    (Watchdog.log (Watchdog.stress_watchdog Examples.watchdog_quiet
                                            Examples.args_one 36)) = true.
Proof.
  destruct C2_deinit_on_loop_paths as (Hcap & Hctx & Hwd & _).
  split; [|split].
  - destruct (Cap.stress_cap Examples.cap_failing 3 Examples.args_one Cap.init_state)
      as [[rc st]|] eqn:E.
    + exact (Hcap _ _ _ _ _ E).
    + vm_compute in E. discriminate.
  - destruct (Context.stress_context Examples.context_quiet 3000 Examples.args_one
                                     Context.init_state) as [[rc st]|] eqn:E.
    + apply (Hctx Examples.context_quiet _ _ _ _ eq_refl E).
      vm_compute in E. inversion E. reflexivity.
    + vm_compute in E. discriminate.
  - apply (Hwd Examples.watchdog_quiet Examples.args_one 36%nat EXIT_SUCCESS).
    + intros k. discriminate.
    + vm_compute. reflexivity.
    + vm_compute. reflexivity.
Defined.

(** C3, as stated, fails on the watchdog stressor: without
    /dev/watchdog the worker returns EXIT_SUCCESS, not NO_RESOURCE, and
    only instance 0 prints the skip message; instance 1 prints nothing. *)
Lemma C3_watchdog_missing_returns_success :
  let c0 := Watchdog.stress_watchdog Examples.watchdog_missing
                                     Examples.args_one 12 in
  let c1 := Watchdog.stress_watchdog Examples.watchdog_missing
                                     Examples.args_second_instance 12 in
  Watchdog.result c0 = Some EXIT_SUCCESS /\
  Watchdog.result c0 <> Some EXIT_NO_RESOURCE /\
  Watchdog.result c1 = Some EXIT_SUCCESS /\
  Watchdog.log c1 = [].
Proof. vm_compute. repeat split. discriminate. Qed.

(** C3 (amended): when mmap fails the context stressor returns
    NO_RESOURCE after one informational message. When access() on the
    watchdog device fails (the handlers installed, no handled signal
    delivered) the watchdog stressor returns SUCCESS, neither
    NO_RESOURCE nor FAILURE, with its counter untouched, and the skip
    message is printed by instance 0 only. Neither outcome counts as a
    failure of the run. *)
Theorem C3_resource_unavailable :
  forall a : stress_args_t,
    (forall (e : Context.env) fuel,
        Context.mmap_ok e = false ->
        exists what,
          Context.stress_context e fuel a Context.init_state
          = Some (EXIT_NO_RESOURCE,
                  Context.mk_state 0 [EvInf (name a) what] None)) /\
    (forall e : Watchdog.env,
        Watchdog.unsignalled e -> Watchdog.handlers_ok e ->
        Watchdog.access_ret e < 0 ->
        let c := Watchdog.stress_watchdog e a (Watchdog.nsigs e + 3) in
        Watchdog.result c = Some EXIT_SUCCESS /\
        Watchdog.counter c = 0 /\
        Watchdog.log c
        = if instance a =? 0
          then [EvInfSkip (name a) (Watchdog.skip_message e)]
          else []) /\
    run_failed [EXIT_NO_RESOURCE; EXIT_SUCCESS] = false.
Proof.
  intros a. split; [|split].
  - intros e fuel Hm. unfold Context.stress_context. rewrite Hm.
    eexists. reflexivity.
  - intros e Hu Hh Hacc. apply WatchdogProofs.missing_device; assumption.
  - reflexivity.
Qed.

Lemma C3_resource_unavailable_witness :
  Watchdog.result (Watchdog.stress_watchdog Examples.watchdog_missing
                                            Examples.args_one 12)
  = Some EXIT_SUCCESS /\
  Watchdog.log (Watchdog.stress_watchdog Examples.watchdog_missing
                                         Examples.args_one 12)
  = [EvInfSkip "worker" "/dev/watchdog does not exist, skipping test"].
Proof.
  destruct (C3_resource_unavailable Examples.args_one) as (_ & Hwd & _).
  destruct (Hwd Examples.watchdog_missing) as (Hr & _ & Hl).
  - intros k. discriminate.
  - intros i. discriminate.
  - reflexivity.
  - split; [exact Hr|exact Hl].
Defined.

(** C4, as stated, fails: the word in front of context[0]'s saved
    context is overwritten during the run; the mismatch is reported with
    pr_fail and the worker still returns EXIT_SUCCESS. *)
Lemma C4_clobbered_canary_returns_success :
  exists st,
    Context.stress_context Examples.context_clobbered 3000 Examples.args_one
                           Context.init_state = Some (EXIT_SUCCESS, st) /\
    List.In (EvFail "worker" "swapcontext clobbered data before context region")
            (Context.log st) /\
    Context.counter st = 1.
Proof.
  eexists. split; [vm_compute; reflexivity|].
  split; [|reflexivity]. cbn. right. right. left. reflexivity.
Qed.

(** C4 (amended): after the run of the context stressor the failure
    messages in the log are exactly those of the canary checks on the
    three contexts, in order: for each context one message under the
    stressor's name saying that the data before the context region was
    clobbered when its first canary differs from its saved copy, then
    one saying that the data after the region was clobbered when its
    second canary differs; there is none exactly when all three contexts
    are intact; and the worker returns SUCCESS either way. *)
Theorem C4_canary_mismatch_is_logged :
  forall (e : Context.env) fuel a rc st th,
    Context.stress_context e fuel a Context.init_state = Some (rc, st) ->
    Context.threads_end st = Some th ->
    rc = EXIT_SUCCESS /\
    exists cs,
      Context.contexts_after e = Some cs /\
      List.length cs = 3%nat /\
      List.filter is_fail (Context.log st)
      = List.flat_map
          (fun c =>
             (if Context.canary_check0 c =? Context.cu_check0 c then []
              else [EvFail (name a)
                           "swapcontext clobbered data before context region"])
             ++
             (if Context.canary_check1 c =? Context.cu_check1 c then []
              else [EvFail (name a)
                           "swapcontext clobbered data after context region"]))
          cs /\
      List.filter is_fail (Context.log st) = Context.check_canaries (name a) cs /\
      (List.filter is_fail (Context.log st) = [] <->
       List.forallb Context.intact cs = true) /\
      List.Forall (fun ev => exists what, ev = EvFail (name a) what)
                  (List.filter is_fail (Context.log st)).
Proof.
  intros e fuel a rc st th H Hth.
  destruct (ContextProofs.stress_context_inv e fuel a rc st th H Hth)
    as (_ & Hrc & _ & cs & Hcs & Hl).
  split; [exact Hrc|]. exists cs. split; [exact Hcs|].
  assert (Hf : List.filter is_fail (Context.log st)
               = Context.check_canaries (name a) cs).
  { rewrite Hl, !List.filter_app.
    rewrite (ContextProofs.filter_only_fail _
               (ContextProofs.check_canaries_only_fail (name a) cs)).
    cbn. apply List.app_nil_r. }
  split.
  { unfold Context.contexts_after in Hcs.
    destruct (Context.init_contexts e 0 Context.STRESS_CONTEXTS) as [cs0|] eqn:Hi;
      [|discriminate].
    inversion Hcs; subst cs; clear Hcs.
    unfold Context.STRESS_CONTEXTS in Hi. cbn [Context.init_contexts] in Hi.
    destruct (Context.stress_context_init e 0); [|discriminate].
    destruct (Context.stress_context_init e 1); [|discriminate].
    destruct (Context.stress_context_init e 2); [|discriminate].
    inversion Hi; subst cs0. reflexivity. }
  rewrite Hf. split; [reflexivity|]. split; [reflexivity|]. split.
  - apply ContextProofs.check_canaries_quiet.
  - apply ContextProofs.check_canaries_named.
Qed.

Lemma C4_canary_mismatch_is_logged_witness :
  match Context.stress_context Examples.context_clobbered 3000 Examples.args_one
                               Context.init_state with
  | Some (rc, st) =>
    rc = EXIT_SUCCESS /\
    List.filter is_fail (Context.log st)
    = [EvFail "worker" "swapcontext clobbered data before context region"]
  | None => False
  end.
Proof.
  destruct (Context.stress_context Examples.context_clobbered 3000 Examples.args_one
                                   Context.init_state) as [[rc st]|] eqn:E.
  - destruct (Context.threads_end st) as [th|] eqn:Eth.
    + destruct (C4_canary_mismatch_is_logged _ _ _ _ _ _ E Eth)
        as (Hrc & cs & Hcs & _ & _ & Hf & _).
      split; [exact Hrc|]. rewrite Hf.
      vm_compute in Hcs. inversion Hcs. reflexivity.
    + vm_compute in E. inversion E; subst. discriminate.
  - vm_compute in E. discriminate.
Defined.



(** C6: the cleanup is guarded by the variable fd, which the loop
    resets to -1 right after its close, but the guard does not hold
    everywhere. (1) One handled signal is delivered after
    [ret = close(fd)] has returned and before [fd = -1] is executed: the
    handler's cleanup finds fd = 3 and writes to the descriptor that is
    already closed, and the code behind the resume point writes again
    and calls close on descriptor 3 a second time. (2) Duplicate
    delivery: a second handled signal arrives while the code behind the
    resume point is about to return; that code has closed descriptor 3
    without resetting fd, so handler and resume code run the cleanup
    once more and descriptor 3 is closed twice. *)
Lemma C6_signal_after_close_repeats_cleanup :
  (let c := Watchdog.stress_watchdog (Examples.watchdog_signal_at 29)
                                     Examples.args_one 37 in
   Watchdog.pc (Watchdog.stress_watchdog (Examples.watchdog_signal_at 29)
                                         Examples.args_one 29) = Watchdog.L237 /\
   Watchdog.result c = Some EXIT_SUCCESS /\
   count (Contract.is_open_of 3) (Watchdog.log c) = 1%nat /\
   count (Contract.is_close_of 3) (Watchdog.log c) = 2%nat /\
   exists l,
     Watchdog.log c
     = l ++ [EvSys (SysClose 3); EvSys (SysWrite 3); EvSys (SysWrite 3);
             EvSys (SysClose 3)]) /\
  (let c := Watchdog.stress_watchdog (Examples.watchdog_signals_at 20 27)
                                     Examples.args_one 36 in
   Watchdog.pc (Watchdog.stress_watchdog (Examples.watchdog_signals_at 20 27)
                                         Examples.args_one 27) = Watchdog.L140 /\
   Watchdog.result c = Some EXIT_SUCCESS /\
   count (Contract.is_open_of 3) (Watchdog.log c) = 1%nat /\
   count (Contract.is_close_of 3) (Watchdog.log c) = 2%nat /\
   exists l,
     Watchdog.log c
     = l ++ [EvSys (SysWrite 3); EvSys (SysWrite 3); EvSys (SysClose 3);
             EvSys (SysWrite 3); EvSys (SysWrite 3); EvSys (SysClose 3)]).
Proof.
  split.
  - vm_compute. repeat split.
    eexists (_ :: _ :: _ :: _ :: _ :: _ :: _ :: _ :: _ :: _ :: _ :: _ :: _ :: []).
    reflexivity.
  - vm_compute. repeat split.
    eexists (_ :: _ :: _ :: _ :: _ :: []).
    reflexivity.
Qed.

(** C7: a failed open of the watchdog device is followed by the
    nanosleep and the next evaluation of the loop condition, with
    outcome and counter untouched, and, the condition holding, by the
    next open; and as long as the handlers install and every close
    succeeds, no return of the worker is a FAILURE, however many opens
    fail. *)
Theorem C7_busy_is_retried :
  forall (e : Watchdog.env) (a : stress_args_t),
    (Watchdog.quiet e ->
     forall fd0 fl cnt r0 rt js lg no nc clk,
       Watchdog.open_ret e no < 0 ->
       Watchdog.run e a 3
         (Watchdog.mk_config Watchdog.L146 fd0 fl cnt r0 rt js lg no nc clk)
       = Watchdog.mk_config Watchdog.L145 (Watchdog.open_ret e no) fl cnt r0 rt js
           (lg ++ [EvSys (SysOpen (Watchdog.open_ret e no))] ++ [EvSys SysNanosleep])
           (S no) nc (3 + clk) /\
       (keep_stressing fl (max_ops a) cnt = true ->
        exists lg',
          Watchdog.run e a 4
            (Watchdog.mk_config Watchdog.L146 fd0 fl cnt r0 rt js lg no nc clk)
          = Watchdog.mk_config Watchdog.L146 (Watchdog.open_ret e no) fl cnt r0 rt js
              lg' (S no) nc (4 + clk))) /\
    (Watchdog.handlers_ok e -> Watchdog.closes_ok e ->
     forall n r,
       Watchdog.result (Watchdog.stress_watchdog e a n) = Some r ->
       r = EXIT_SUCCESS).
Proof.
  intros e a. split.
  - intros Hq fd0 fl cnt r0 rt js lg no nc clk Hneg.
    apply WatchdogProofs.busy_retry; assumption.
  - intros Hh Hc n r Hr.
    exact (WatchdogProofs.busy_is_no_failure e a n r Hh Hc Hr).
Qed.

Lemma C7_busy_is_retried_witness :
  Watchdog.pc (Watchdog.stress_watchdog Examples.watchdog_busy_then_free
                                        Examples.args_one 16) = Watchdog.L146 /\
  Watchdog.pc (Watchdog.stress_watchdog Examples.watchdog_busy_then_free
                                        Examples.args_one 20) = Watchdog.L146 /\
  Watchdog.result (Watchdog.stress_watchdog Examples.watchdog_busy_then_free
                                            Examples.args_one 48)
  = Some EXIT_SUCCESS.
Proof.
  destruct (C7_busy_is_retried Examples.watchdog_busy_then_free Examples.args_one)
    as (Hretry & Hok).
  split; [vm_compute; reflexivity|]. split.
  - change 20%nat with (16 + 4)%nat.
    unfold Watchdog.stress_watchdog. rewrite WatchdogProofs.run_add.
    assert (H16 : Watchdog.run Examples.watchdog_busy_then_free Examples.args_one 16
                               Watchdog.init_config
                  = Watchdog.mk_config Watchdog.L146 0 true 0 EXIT_SUCCESS 0 true
                      [EvState STRESS_STATE_RUN; EvCheck true] 0 0 16)
      by (vm_compute; reflexivity).
    rewrite H16.
    destruct (Hretry (fun k => eq_refl) 0 true 0 EXIT_SUCCESS 0 true
                     [EvState STRESS_STATE_RUN; EvCheck true] 0%nat 0%nat 16%nat)
      as (_ & Hnext); [reflexivity|].
    destruct (Hnext eq_refl) as (lg' & ->). reflexivity.
  - destruct (Watchdog.result
                (Watchdog.stress_watchdog Examples.watchdog_busy_then_free
                                          Examples.args_one 48)) as [r|] eqn:E.
    + f_equal. apply (Hok (fun i => ltac:(discriminate))
                          (fun n => ltac:(discriminate)) 48%nat r E).
    + vm_compute in E. discriminate.
Defined.

(** C8: in a build without the feature each of the three descriptors
    points to the stub workload and carries a non-empty reason, with the
    class bits and the help lines of the implemented variant; running
    the stub yields NOT_IMPLEMENTED together with that reason. *)
Theorem C8_unimplemented_descriptor :
  forall (b : Registry.class_bits) (a : stress_args_t)
         (info : Registry.class_bits -> bool -> Registry.stressor_info_t),
    List.In info Registry.all_infos ->
    Registry.stressor (info b false) = Registry.stress_unimplemented /\
    Registry.stressor (info b true) <> Registry.stress_unimplemented /\
    Registry.class (info b false) = Registry.class (info b true) /\
    Registry.help (info b false) = Registry.help (info b true) /\
    exists reason,
      Registry.unimplemented_reason (info b false) = Some reason /\
      reason <> EmptyString /\
      Registry.run_stub (info b false) a = Some (EXIT_NOT_IMPLEMENTED, Some reason).
Proof.
  intros b a info Hin.
  destruct Hin as [<- | [<- | [<- | []]]];
    (split; [reflexivity|]; split; [discriminate|]; split; [reflexivity|];
     split; [reflexivity|]; eexists; split; [reflexivity|];
     split; [discriminate|reflexivity]).
Qed.

Lemma C8_unimplemented_descriptor_witness :
  Registry.run_stub (Registry.stress_watchdog_info Examples.some_class_bits false)
                    Examples.args_one
  = Some (EXIT_NOT_IMPLEMENTED, Some "built without linux/watchdog.h"%string) /\
  Registry.class (Registry.stress_watchdog_info Examples.some_class_bits false)
  = Registry.class (Registry.stress_watchdog_info Examples.some_class_bits true).
Proof.
  destruct (C8_unimplemented_descriptor Examples.some_class_bits Examples.args_one
                                        Registry.stress_watchdog_info)
    as (_ & _ & Hclass & _ & reason & Hreason & _ & Hrun).
  - right. right. left. reflexivity.
  - split; [|exact Hclass].
    rewrite Hrun. inversion Hreason. reflexivity.
Defined.

(** C9, as stated, fails: the product max_ops * 1000 is taken in 64
    bits. With max_ops = 2^61 the ceiling is 0, not 2^61 * 1000, and on
    a host where everything succeeds and the flag stays true the
    micro-threads never leave their loops, so there is no loop exit and
    no set_counter; with max_ops = 18446744073709552 the ceiling is 384
    and the run comes back after 384 switches with 0 operations
    reported. *)
Lemma C9_ceiling_wraps_counterexample :
  0 < 2 ^ 61 /\
  (forall n, Context.flag Examples.context_quiet n = true) /\
  Context.scaled_ceiling (mk_args "worker" (2 ^ 61) 1234 0) = 0 /\
  Context.scaled_ceiling (mk_args "worker" (2 ^ 61) 1234 0) <> 2 ^ 61 * 1000 /\
  (forall fuel,
      Context.stress_context Examples.context_quiet fuel
                             (mk_args "worker" (2 ^ 61) 1234 0) Context.init_state
      = None) /\
  Context.scaled_ceiling (mk_args "worker" 18446744073709552 1234 0) = 384 /\
  exists st th,
    Context.stress_context Examples.context_quiet 1000
                           (mk_args "worker" 18446744073709552 1234 0)
                           Context.init_state
    = Some (EXIT_SUCCESS, st) /\
    Context.threads_end st = Some th /\
    Context.context_counter th = 384 /\
    Context.counter st = 0.
Proof.
  split; [reflexivity|]. split; [intros n; reflexivity|].
  split; [reflexivity|]. split; [vm_compute; discriminate|]. split.
  - intros fuel.
    destruct ContextProofs.scaled_ceiling_wraps as (_ & Hstuck & _).
    apply Hstuck.
    + split; [reflexivity|]. split; [intros i; reflexivity|reflexivity].
    + intros n. reflexivity.
  - split; [reflexivity|].
    eexists _, _. split; [vm_compute; reflexivity|]. repeat split.
Qed.

(** C9 (amended): the loop ceiling of the context stressor is max_ops * 1000 in
    64-bit arithmetic. With max_ops > 0 and the flag held true, every
    run that comes back from the micro-threads has its internal counter
    between that ceiling and the ceiling plus 2, and has set the
    operation counter exactly once, to the internal counter divided by
    1000, without any inc_counter. When the setup succeeds such a run
    exists as soon as the ceiling is not 0; a ceiling that wraps to 0
    leaves the loop unbounded. *)
Theorem C9_context_counter_window :
  forall (e : Context.env) (a : stress_args_t),
    0 < max_ops a < 2 ^ 64 ->
    (forall n, Context.flag e n = true) ->
    Context.scaled_ceiling a = (max_ops a * 1000) mod 2 ^ 64 /\
    (forall fuel rc st th,
        Context.stress_context e fuel a Context.init_state = Some (rc, st) ->
        Context.threads_end st = Some th ->
        Context.scaled_ceiling a <= Context.context_counter th
          <= Context.scaled_ceiling a + 2 /\
        Context.counter st = Context.context_counter th / 1000 /\
        count is_set_counter (Context.log st) = 1%nat /\
        count is_inc (Context.log st) = 0%nat) /\
    (Context.setup_ok e -> Context.scaled_ceiling a <> 0 ->
     exists fuel st th,
       Context.stress_context e fuel a Context.init_state = Some (EXIT_SUCCESS, st) /\
       Context.threads_end st = Some th) /\
    (Context.setup_ok e -> Context.scaled_ceiling a = 0 ->
     forall fuel, Context.stress_context e fuel a Context.init_state = None).
Proof.
  intros e a HC Hf.
  pose proof (ContextProofs.scaled_ceiling_range a) as Hr.
  split; [reflexivity|]. split; [|split].
  - intros fuel rc st th H Hth.
    destruct (ContextProofs.stress_context_inv e fuel a rc st th H Hth)
      as (Hrun & _ & Hc & cs & _ & Hl).
    destruct (Z.eq_dec (Context.scaled_ceiling a) 0) as [H0|H0].
    + rewrite H0 in Hrun.
      rewrite (ContextProofs.run_threads_unbounded e Hf) in Hrun. discriminate.
    + assert (Hpos : 0 < Context.scaled_ceiling a) by lia.
      assert (Hroom : Context.scaled_ceiling a + 2 < 2 ^ 64) by lia.
      split.
      * exact (ContextProofs.run_threads_window
                 e _ Hpos Hroom Hf _ _ _ _ _
                 (ContextProofs.within_start _ Hpos) Hrun).
      * split; [exact Hc|]. rewrite Hl.
        apply ContextProofs.context_counter_set_once.
  - intros Hsetup H0.
    assert (Hpos : 0 < Context.scaled_ceiling a) by lia.
    assert (Hroom : Context.scaled_ceiling a + 2 < 2 ^ 64) by lia.
    destruct (ContextProofs.run_threads_returns
                e _ Hpos Hroom Hf
                (Z.to_nat (2 * (Context.scaled_ceiling a + 3) + 1))
                Context.T1 Context.AtBody Context.threads0
                (ContextProofs.within_start _ Hpos)) as [th Hth].
    { change (Context.context_counter Context.threads0) with 0. lia. }
    destruct (ContextProofs.stress_context_returns e _ a th Hsetup Hth)
      as (st & Hst & Hend).
    eexists _, st, th. split; [exact Hst|exact Hend].
  - intros Hsetup H0 fuel.
    apply ContextProofs.stress_context_stuck; [exact Hsetup|].
    rewrite H0. apply ContextProofs.run_threads_unbounded. exact Hf.
Qed.

Lemma C9_context_counter_window_witness :
  match Context.stress_context Examples.context_quiet 3000 Examples.args_one
                               Context.init_state with
  | Some (_, st) =>
    match Context.threads_end st with
    | Some th =>
      1000 <= Context.context_counter th <= 1002 /\
      Context.counter st = Context.context_counter th / 1000
    | None => False
    end
  | None => False
  end.
Proof.
  destruct (C9_context_counter_window Examples.context_quiet Examples.args_one)
    as (_ & Hwin & _).
  - split; reflexivity.
  - intros n. reflexivity.
  - destruct (Context.stress_context Examples.context_quiet 3000 Examples.args_one
                                     Context.init_state) as [[rc st]|] eqn:E.
    + destruct (Context.threads_end st) as [th|] eqn:Eth.
      * destruct (Hwin _ _ _ _ E Eth) as (Hw & Hc & _). split; [exact Hw|exact Hc].
      * vm_compute in E. inversion E; subst. discriminate.
    + vm_compute in E. discriminate.
Defined.

(** C10: [stress_cap] returns nothing but EXIT_SUCCESS, whatever the
    capget and capset calls answer; every call of
    [stress_capgetset_pid] increments the counter exactly once, so the
    log of a run holds as many increments as completed probes; and under
    a ceiling the function does return. *)
Theorem C10_cap_always_success :
  (forall (e : Cap.env) fuel a rc st,
      Cap.stress_cap e fuel a Cap.init_state = Some (rc, st) ->
      rc = EXIT_SUCCESS /\
      count is_inc (Cap.log st) = count Cap.is_probe_end (Cap.log st)) /\
  (forall (e : Cap.env) a pid do_set exists_ st,
      let st1 := snd (Cap.stress_capgetset_pid e a pid do_set exists_ st) in
      Cap.counter st1 = wrap64 (Cap.counter st + 1) /\
      exists d,
        Cap.log st1 = Cap.log st ++ d /\
        count is_inc d = 1%nat /\ count Cap.is_probe_end d = 1%nat) /\
  (forall (e : Cap.env) a,
      0 < max_ops a < 2 ^ 64 ->
      exists fuel st,
        Cap.stress_cap e fuel a Cap.init_state = Some (EXIT_SUCCESS, st) /\
        Cap.counter st <= max_ops a).
Proof.
  split; [|split].
  - intros e fuel a rc st H.
    destruct (CapProofs.stress_cap_inv e fuel a rc st H) as (-> & d & -> & Hcalm).
    destruct Hcalm as (Hi & _). split; [reflexivity|].
    rewrite !count_app. cbn. lia.
  - intros e a pid do_set exists_ st. cbv zeta.
    destruct (Cap.stress_capgetset_pid e a pid do_set exists_ st) as [r st1] eqn:E.
    destruct (CapProofs.probe_eq e a pid do_set exists_ st r st1 E)
      as (Hc & _ & d & Hl & Hi & Hp & _).
    cbn [snd]. split; [exact Hc|]. exists d. repeat split; assumption.
  - intros e a HC.
    destruct (CapProofs.stress_cap_returns e a HC) as (fuel & st & Hr & Hle & _).
    exists fuel, st. split; assumption.
Qed.

Lemma C10_cap_always_success_witness :
  match Cap.stress_cap Examples.cap_failing 3 (mk_args "worker" 5 77 0)
                       Cap.init_state with
  | Some (rc, st) =>
    rc = EXIT_SUCCESS /\ count is_inc (Cap.log st) = 5%nat /\
    (1 <= count is_fail (Cap.log st))%nat
  | None => False
  end.
Proof.
  destruct C10_cap_always_success as (Hrc & _ & _).
  destruct (Cap.stress_cap Examples.cap_failing 3 (mk_args "worker" 5 77 0)
                           Cap.init_state) as [[rc st]|] eqn:E.
  - destruct (Hrc _ _ _ _ _ E) as (Hs & _). split; [exact Hs|].
    vm_compute in E. inversion E; subst. split; [reflexivity|].
    vm_compute. repeat constructor.
  - vm_compute in E. discriminate.
Defined.

(* ================================================================= *)
(** ** Further properties of the three files

    Beyond the contract: how each workload behaves when a step of its
    setup fails, what its loops do call by call, and when they end. *)

(** The 64-bit ceiling of the context stressor is a multiple of 8. *)
Lemma scaled_ceiling_multiple (a : stress_args_t) :
  Context.scaled_ceiling a = 0 \/ 8 <= Context.scaled_ceiling a <= 2 ^ 64 - 8.
Proof.
  unfold Context.scaled_ceiling, wrap64.
  replace (max_ops a * 1000) with (max_ops a * 125 * 8) by lia.
  replace (2 ^ 64) with (2 ^ 61 * 8) by reflexivity.
  rewrite Z.mul_mod_distr_r by lia.
  pose proof (Z.mod_pos_bound (max_ops a * 125) (2 ^ 61) ltac:(lia)). lia.
Qed.

(** X1: the outcome of [stress_context] is decided by its setup alone:
    NO_RESOURCE exactly when mmap fails, FAILURE exactly when mmap works
    and one of the three getcontext calls or the first swapcontext
    fails, SUCCESS exactly when all of them work. A run that does not
    succeed leaves the operation counter untouched, never calls
    set_counter and never sets DEINIT. *)
Theorem X1_context_outcome_by_setup :
  forall (e : Context.env) fuel a rc st,
    Context.stress_context e fuel a Context.init_state = Some (rc, st) ->
    (rc = EXIT_NO_RESOURCE <-> Context.mmap_ok e = false) /\
    (rc = EXIT_FAILURE <->
     Context.mmap_ok e = true /\
     ((exists i, (i < 3)%nat /\ Context.getcontext_ok e i = false) \/
      Context.main_swap_ok e = false)) /\
    (rc = EXIT_SUCCESS <->
     Context.mmap_ok e = true /\
     (forall i, (i < 3)%nat -> Context.getcontext_ok e i = true) /\
     Context.main_swap_ok e = true) /\
    (rc <> EXIT_SUCCESS ->
     Context.counter st = 0 /\ Context.threads_end st = None /\
     count is_set_counter (Context.log st) = 0%nat /\
     entered STRESS_STATE_DEINIT (Context.log st) = false).
Proof.
  intros e fuel a rc st H. unfold Context.stress_context in H.
  pose proof (ContextCoverage.init_contexts_none e) as Hnone.
  destruct (Context.mmap_ok e) eqn:Hm; cbn [negb] in H.
  2:{ inversion H; subst; clear H.
      split; [split; reflexivity|].
      split; [split; [discriminate|intros (Hx & _); discriminate]|].
      split; [split; [discriminate|intros (Hx & _); discriminate]|].
      intros _. repeat split. }
  destruct (Context.init_contexts e 0 Context.STRESS_CONTEXTS) as [cs|] eqn:Hi.
  2:{ inversion H; subst; clear H.
      destruct (proj1 Hnone eq_refl) as (i & Hi3 & Hf).
      split; [split; discriminate|].
      split; [split; [|reflexivity]|].
      { intros _. split; [reflexivity|]. left. exists i. split; assumption. }
      split; [split; [discriminate|]|].
      { intros (_ & Hall & _). rewrite (Hall i Hi3) in Hf. discriminate. }
      intros _. repeat split. }
  assert (Hall : forall i, (i < 3)%nat -> Context.getcontext_ok e i = true).
  { intros i Hi3. destruct (Context.getcontext_ok e i) eqn:Hg; [reflexivity|].
    assert (Hn : @None (list Context.context_data_t) = Some cs)
      by (rewrite <- (proj2 Hnone (ex_intro _ i (conj Hi3 Hg))); reflexivity).
    discriminate. }
  destruct (Context.main_swap_ok e) eqn:Hs; cbn [negb] in H.
  2:{ inversion H; subst; clear H.
      split; [split; discriminate|].
      split; [split; [|reflexivity]|].
      { intros _. split; [reflexivity|]. right. reflexivity. }
      split; [split; [discriminate|]|].
      { intros (_ & _ & Hx). discriminate. }
      intros _. repeat split. }
  destruct (Context.run_threads e (Context.scaled_ceiling a) fuel Context.T1
                                Context.AtBody Context.threads0) as [th|];
    [|discriminate].
  inversion H; subst; clear H.
  split; [split; discriminate|].
  split; [split; [discriminate|]|].
  { intros (_ & [(i & Hi3 & Hf) | Hf]); [rewrite (Hall i Hi3) in Hf|];
      discriminate. }
  split; [split; [|reflexivity]|].
  { intros _. split; [reflexivity|]. split; [exact Hall|reflexivity]. }
  intros Hx. exfalso. apply Hx. reflexivity.
Qed.

Lemma X1_context_outcome_by_setup_witness :
  Context.stress_context
    (Context.mk_env true (fun i => negb (i =? 1)%nat) (fun _ => 0) true
                    (fun _ => true) (fun _ => true) (fun _ c => c))
    5 Examples.args_one Context.init_state
  = Some (EXIT_FAILURE,
          Context.mk_state 0 [EvFail "worker" "getcontext failed"; EvSys SysMunmap]
                           None).
Proof.
  destruct (Context.stress_context
              (Context.mk_env true (fun i => negb (i =? 1)%nat) (fun _ => 0) true
                              (fun _ => true) (fun _ => true) (fun _ c => c))
              5 Examples.args_one Context.init_state) as [[rc st]|] eqn:E.
  - destruct (X1_context_outcome_by_setup _ _ _ _ _ E) as (_ & Hfail & _ & _).
    assert (Hrc : rc = EXIT_FAILURE).
    { apply Hfail. split; [reflexivity|]. left. exists 1%nat. split; [lia|reflexivity]. }
    subst rc. vm_compute in E. inversion E. reflexivity.
  - vm_compute in E. discriminate.
Defined.

(** X2: the context buffers are unmapped exactly once on every return
    that follows a successful mmap, as the last thing the function does,
    and never when mmap failed. *)
Theorem X2_context_munmap_once :
  forall (e : Context.env) fuel a rc st,
    Context.stress_context e fuel a Context.init_state = Some (rc, st) ->
    count Coverage.is_munmap (Context.log st)
    = (if Context.mmap_ok e then 1 else 0)%nat /\
    (Context.mmap_ok e = true ->
     exists l, Context.log st = l ++ [EvSys SysMunmap]).
Proof.
  intros e fuel a rc st H. unfold Context.stress_context in H.
  destruct (Context.mmap_ok e) eqn:Hm; cbn [negb] in H.
  2:{ inversion H; subst; clear H. split; [reflexivity|discriminate]. }
  destruct (Context.init_contexts e 0 Context.STRESS_CONTEXTS) as [cs|].
  2:{ inversion H; subst; clear H. split; [reflexivity|].
      intros _. eexists [_]. reflexivity. }
  destruct (Context.main_swap_ok e); cbn [negb] in H.
  2:{ inversion H; subst; clear H. split; [reflexivity|].
      intros _. eexists [_; _]. reflexivity. }
  destruct (Context.run_threads e (Context.scaled_ceiling a) fuel Context.T1
                                Context.AtBody Context.threads0) as [th|];
    [|discriminate].
  inversion H; subst; clear H.
  cbn [Context.log Context.emit Context.emit_all Context.set_counter
       Context.init_state Context.counter].
  split; [|intros _; eexists (_ :: _ :: _); reflexivity].
  match goal with
  | |- count _ (?x :: ?y :: ?l) = _ => change (x :: y :: l) with ([x; y] ++ l)
  end.
  rewrite !count_app.
  rewrite (ContextProofs.count_only_fail Coverage.is_munmap
             (Context.check_canaries (name a) (Context.clobber_all e 0 cs)))
    by (try reflexivity; apply ContextProofs.check_canaries_only_fail).
  reflexivity.
Qed.

Lemma X2_context_munmap_once_witness :
  match Context.stress_context Examples.context_clobbered 3000 Examples.args_one
                               Context.init_state with
  | Some (_, st) => count Coverage.is_munmap (Context.log st) = 1%nat
  | None => False
  end.
Proof.
  destruct (Context.stress_context Examples.context_clobbered 3000 Examples.args_one
                                   Context.init_state) as [[rc st]|] eqn:E.
  - exact (proj1 (X2_context_munmap_once _ _ _ _ _ E)).
  - vm_compute in E. discriminate.
Defined.

(** X3: when no swapcontext fails and the flag stays up, the three
    micro-threads take strict turns and the loop is left with the
    internal counter exactly on the 64-bit ceiling, one swapcontext per
    count. *)
Theorem X3_context_exact_without_swap_failures :
  forall (e : Context.env) fuel a rc st th,
    (forall n, Context.thread_swap_ok e n = true) ->
    (forall n, Context.flag e n = true) ->
    Context.stress_context e fuel a Context.init_state = Some (rc, st) ->
    Context.threads_end st = Some th ->
    Context.context_counter th = Context.scaled_ceiling a /\
    Z.of_nat (Context.nswap th) = Context.scaled_ceiling a /\
    Context.counter st = Context.scaled_ceiling a / 1000.
Proof.
  intros e fuel a rc st th Hsw Hf H Hth.
  destruct (ContextProofs.stress_context_inv e fuel a rc st th H Hth)
    as (Hrun & _ & Hc & _).
  destruct (scaled_ceiling_multiple a) as [H0 | H8].
  - rewrite H0 in Hrun.
    rewrite (ContextProofs.run_threads_unbounded e Hf) in Hrun. discriminate.
  - assert (H3 : 3 <= Context.scaled_ceiling a) by lia.
    assert (Hlt : Context.scaled_ceiling a < 2 ^ 64) by lia.
    assert (Hpos : 0 < Context.scaled_ceiling a) by lia.
    destruct (ContextCoverage.run_threads_exact
                e (Context.scaled_ceiling a) H3 Hlt Hsw Hf
                _ _ _ _ _ (ContextCoverage.in_step_start _ Hpos) Hrun)
      as (He & Hn).
    split; [exact He|]. split; [exact Hn|]. rewrite Hc, He. reflexivity.
Qed.

Lemma X3_context_exact_without_swap_failures_witness :
  match Context.stress_context Examples.context_quiet 3000 Examples.args_one
                               Context.init_state with
  | Some (_, st) =>
    match Context.threads_end st with
    | Some th => Context.context_counter th = 1000 /\ Context.nswap th = 1000%nat
    | None => False
    end
  | None => False
  end.
Proof.
  destruct (Context.stress_context Examples.context_quiet 3000 Examples.args_one
                                   Context.init_state) as [[rc st]|] eqn:E.
  - destruct (Context.threads_end st) as [th|] eqn:Eth.
    + destruct (X3_context_exact_without_swap_failures
                  Examples.context_quiet _ _ _ _ _
                  (fun _ => eq_refl) (fun _ => eq_refl) E Eth) as (Hc & Hn & _).
      split; [exact Hc|]. apply Nat2Z.inj. rewrite Hn. reflexivity.
    + vm_compute in E. inversion E; subst. discriminate.
  - vm_compute in E. discriminate.
Defined.

(** X4: under a ceiling that fits in 64 bits the context stressor
    returns whatever the keep-stressing flag does, with at least one
    switch made (the loops are do-while) and with a reported operation
    count between 0 and max_ops. *)
Theorem X4_context_stops_within_ceiling :
  forall (e : Context.env) (a : stress_args_t),
    0 < max_ops a -> max_ops a * 1000 < 2 ^ 64 ->
    Context.setup_ok e ->
    (exists fuel st,
        Context.stress_context e fuel a Context.init_state
        = Some (EXIT_SUCCESS, st)) /\
    (forall fuel rc st th,
        Context.stress_context e fuel a Context.init_state = Some (rc, st) ->
        Context.threads_end st = Some th ->
        1 <= Context.context_counter th <= max_ops a * 1000 + 2 /\
        0 <= Context.counter st <= max_ops a).
Proof.
  intros e a Hpos Hno Hsetup.
  pose proof (ContextProofs.scaled_ceiling_exact a ltac:(lia) Hno) as HM.
  assert (HMpos : 0 < Context.scaled_ceiling a) by lia.
  assert (HMroom : Context.scaled_ceiling a + 2 < 2 ^ 64).
  { pose proof (ContextProofs.scaled_ceiling_range a). lia. }
  split.
  - destruct (ContextCoverage.run_threads_ends
                e _ HMpos HMroom
                (Z.to_nat (2 * (Context.scaled_ceiling a + 3) + 1))
                Context.T1 Context.AtBody Context.threads0
                (ContextProofs.within_start _ HMpos)) as [th Hth].
    { change (Context.context_counter Context.threads0) with 0. lia. }
    destruct (ContextProofs.stress_context_returns e _ a th Hsetup Hth)
      as (st & Hst & _).
    eexists _, st. exact Hst.
  - intros fuel rc st th H Hth.
    destruct (ContextProofs.stress_context_inv e fuel a rc st th H Hth)
      as (Hrun & _ & Hc & _).
    pose proof (ContextCoverage.run_threads_bounded
                  e _ HMpos HMroom _ _ _ _ _
                  (ContextProofs.within_start _ HMpos)
                  ltac:(discriminate) Hrun) as Hb.
    rewrite HM in Hb. split; [exact Hb|]. rewrite Hc. split.
    + apply Z.div_pos; lia.
    + assert (Hlt : Context.context_counter th / 1000 < max_ops a + 1)
        by (apply Z.div_lt_upper_bound; lia).
      lia.
Qed.

Lemma X4_context_stops_within_ceiling_witness :
  exists fuel st,
    Context.stress_context
      (Context.mk_env true (fun _ => true) (fun _ => 0) true
                      (fun _ => true) (fun n => (n <? 5)%nat) (fun _ c => c))
      fuel Examples.args_one Context.init_state
    = Some (EXIT_SUCCESS, st).
Proof.
  apply X4_context_stops_within_ceiling.
  - reflexivity.
  - reflexivity.
  - split; [reflexivity|]. split; [intros i; reflexivity|reflexivity].
Defined.

(** X5: [stress_context_init] copies each canary into the word it
    guards, so when the run leaves the context records as they were
    created, the checks after the run emit no failure message at all. *)
Theorem X5_context_untouched_canaries_pass :
  forall (e : Context.env) fuel a rc st th,
    (forall i c, Context.clobber e i c = c) ->
    Context.stress_context e fuel a Context.init_state = Some (rc, st) ->
    Context.threads_end st = Some th ->
    List.filter is_fail (Context.log st) = [].
Proof.
  intros e fuel a rc st th Hid H Hth.
  destruct (ContextProofs.stress_context_inv e fuel a rc st th H Hth)
    as (_ & _ & _ & cs & Hcs & Hl).
  unfold Context.contexts_after in Hcs.
  destruct (Context.init_contexts e 0 Context.STRESS_CONTEXTS) as [cs0|] eqn:Hi;
    [|discriminate].
  inversion Hcs; subst cs; clear Hcs.
  rewrite (ContextCoverage.clobber_all_id e Hid) in Hl.
  assert (Hq : Context.check_canaries (name a) cs0 = []).
  { apply ContextProofs.check_canaries_quiet.
    exact (ContextCoverage.init_contexts_intact e _ _ _ Hi). }
  rewrite Hl, Hq. reflexivity.
Qed.

Lemma X5_context_untouched_canaries_pass_witness :
  match Context.stress_context Examples.context_quiet 3000 Examples.args_one
                               Context.init_state with
  | Some (_, st) => List.filter is_fail (Context.log st) = []
  | None => False
  end.
Proof.
  destruct (Context.stress_context Examples.context_quiet 3000 Examples.args_one
                                   Context.init_state) as [[rc st]|] eqn:E.
  - destruct (Context.threads_end st) as [th|] eqn:Eth.
    + exact (X5_context_untouched_canaries_pass
               Examples.context_quiet _ _ _ _ _ (fun _ _ => eq_refl) E Eth).
    + vm_compute in E. inversion E; subst. discriminate.
  - vm_compute in E. discriminate.
Defined.

(** X6: whatever the kernel answers, one call of [stress_capgetset_pid]
    makes exactly seven capget calls, three capset calls exactly when
    do_set is given, draws one unused pid, counts one operation, and
    returns the result of its last capget (the one with version ~0U). *)
Theorem X6_cap_probe_calls :
  forall (e : Cap.env) a p do_set x st r st1,
    Cap.stress_capgetset_pid e a p do_set x st = (r, st1) ->
    exists d,
      Cap.log st1 = Cap.log st ++ d /\
      count Coverage.is_capget d = 7%nat /\
      count Coverage.is_capset d = (if do_set then 3 else 0)%nat /\
      count is_inc d = 1%nat /\
      Cap.nsys st1 = (Cap.nsys st + (if do_set then 10 else 7))%nat /\
      Cap.nunused st1 = S (Cap.nunused st) /\
      r = fst (Cap.sys_ret e (Cap.nsys st + (if do_set then 9 else 6))).
Proof.
  intros e a p do_set x st r st1 H.
  destruct (CapCoverage.probe_exact _ _ _ _ _ _ _ _ H) as (Hl & Hn & Hu & Hr).
  destruct (CapCoverage.probe_log_counts e a p do_set x (Cap.nsys st)
              (Cap.unused_pid e (Cap.nunused st))) as (Hg & Hs & Hi).
  eexists. split; [exact Hl|]. repeat split; assumption.
Qed.

Lemma X6_cap_probe_calls_witness :
  exists d,
    Cap.log (snd (Cap.stress_capgetset_pid Examples.cap_failing Examples.args_one
                                          1234 true true Cap.init_state))
    = Cap.log Cap.init_state ++ d /\
    count Coverage.is_capget d = 7%nat /\
    count Coverage.is_capset d = 3%nat.
Proof.
  destruct (Cap.stress_capgetset_pid Examples.cap_failing Examples.args_one
                                     1234 true true Cap.init_state)
    as [r st1] eqn:E.
  destruct (X6_cap_probe_calls _ _ _ _ _ _ _ _ E) as (d & Hl & Hg & Hs & _).
  exists d. cbn [snd]. repeat split; assumption.
Defined.

(** X7: only the first capget and, with do_set, the first capset of a
    probe are checked. The probe logs no failure exactly when each of
    them either succeeded or failed with ESRCH on a process that need
    not exist; it logs at most one failure per checked call, and the
    results of the other calls never reach the log. *)
Theorem X7_cap_failure_reporting :
  forall (e : Cap.env) a p do_set x st r st1,
    Cap.stress_capgetset_pid e a p do_set x st = (r, st1) ->
    (count is_fail (Cap.log st1) = count is_fail (Cap.log st) <->
     Coverage.tolerated (Cap.sys_ret e (Cap.nsys st)) x /\
     (do_set = true -> Coverage.tolerated (Cap.sys_ret e (S (Cap.nsys st))) x)) /\
    (count is_fail (Cap.log st1)
     <= count is_fail (Cap.log st) + (if do_set then 2 else 1))%nat.
Proof.
  intros e a p do_set x st r st1 H.
  destruct (CapCoverage.probe_exact _ _ _ _ _ _ _ _ H) as (Hl & _).
  rewrite Hl, count_app, CapCoverage.probe_log_failures.
  pose proof (CapCoverage.fail_events_count a (Cap.sys_ret e (Cap.nsys st)) x) as H0.
  pose proof (CapCoverage.fail_events_count a (Cap.sys_ret e (S (Cap.nsys st))) x) as H1.
  assert (B0 : (count is_fail (Coverage.fail_events a (Cap.sys_ret e (Cap.nsys st)) x)
                <= 1)%nat).
  { unfold Coverage.fail_events. destruct (_ && _); cbn; lia. }
  assert (B1 : (count is_fail
                  (Coverage.fail_events a (Cap.sys_ret e (S (Cap.nsys st))) x)
                <= 1)%nat).
  { unfold Coverage.fail_events. destruct (_ && _); cbn; lia. }
  destruct do_set.
  - split; [|lia]. split.
    + intros Hc. split; [apply H0; lia|]. intros _. apply H1. lia.
    + intros (T0 & T1). apply H0 in T0. apply H1 in T1; [|reflexivity]. lia.
  - split; [|lia]. split.
    + intros Hc. split; [apply H0; lia|discriminate].
    + intros (T0 & _). apply H0 in T0. lia.
Qed.

Lemma X7_cap_failure_reporting_witness :
  count is_fail
        (Cap.log (snd (Cap.stress_capgetset_pid Examples.cap_gone Examples.args_one
                                                1 true false Cap.init_state)))
  = 0%nat.
Proof.
  destruct (Cap.stress_capgetset_pid Examples.cap_gone Examples.args_one
                                     1 true false Cap.init_state)
    as [r st1] eqn:E.
  destruct (X7_cap_failure_reporting _ _ _ _ _ _ _ _ E) as (Hiff & _).
  cbn [snd]. apply Hiff.
  split; [|intros _]; right; split; reflexivity.
Defined.


(** X9: the /proc directory of process n, named by n in decimal, is
    read back as n, and leads to a probe of pid n itself (for n below
    2^31) with do_set off and without the claim that the process
    exists. *)
Theorem X9_cap_proc_entry_probes_its_pid :
  forall (n : nat) (e : Cap.env) a rest st,
    Z.of_nat n < 2 ^ 31 ->
    Cap.sscanf_intmax (Coverage.decimal_name n) = Some (Z.of_nat n) /\
    Cap.readdir_loop e a (Coverage.decimal_name n :: rest) st
    = (let '(_, st1) := Cap.stress_capgetset_pid e a (Z.of_nat n) false false st in
       let '(k, st2) := Cap.keep e a st1 in
       if k then Cap.readdir_loop e a rest st2 else st2).
Proof.
  intros n e a rest st Hn.
  assert (Hs : Cap.sscanf_intmax (Coverage.decimal_name n) = Some (Z.of_nat n)).
  { rewrite (CapCoverage.sscanf_after_guard _ (CapCoverage.decimal_name_digit n)).
    rewrite CapCoverage.scan_decimal_name. f_equal.
    apply Z.min_l. unfold Cap.INTMAX_MAX. lia. }
  split; [exact Hs|].
  cbn [Cap.readdir_loop].
  pose proof (CapCoverage.decimal_name_digit n) as Hd.
  unfold Coverage.starts_with_digit in Hd. rewrite Hd, Hs. cbn [negb].
  rewrite CapCoverage.wrap_int32_small by lia. reflexivity.
Qed.

Lemma X9_cap_proc_entry_probes_its_pid_witness :
  Cap.sscanf_intmax (Coverage.decimal_name 42) = Some 42.
Proof.
  apply (X9_cap_proc_entry_probes_its_pid
           42 Examples.cap_failing Examples.args_one [] Cap.init_state).
  reflexivity.
Defined.

(** X10: in the log of every returned run of [stress_cap] the capget
    calls number exactly seven times the counted operations, and the
    capset calls at most three times. *)
Theorem X10_cap_seven_capgets_per_operation :
  forall (e : Cap.env) fuel a rc st,
    Cap.stress_cap e fuel a Cap.init_state = Some (rc, st) ->
    (count Coverage.is_capget (Cap.log st) = 7 * count is_inc (Cap.log st))%nat /\
    (count Coverage.is_capset (Cap.log st) <= 3 * count is_inc (Cap.log st))%nat.
Proof.
  intros e fuel a rc st H.
  destruct (CapCoverage.stress_cap_holds
              e a
              (fun d =>
                 (count Coverage.is_capget d = 7 * count is_inc d)%nat /\
                 (count Coverage.is_capset d <= 3 * count is_inc d)%nat))
    with (fuel := fuel) (rc := rc) (st := st) as (d & Hl & Hg & Hs).
  - split; reflexivity.
  - intros d1 d2 (G1 & S1) (G2 & S2). rewrite !count_app. lia.
  - intros k. split; [reflexivity|]. cbn. lia.
  - intros p do_set x k u _.
    destruct (CapCoverage.probe_log_counts e a p do_set x k u) as (Hg & Hs & Hi).
    rewrite Hg, Hs, Hi. destruct do_set; lia.
  - exact H.
  - rewrite Hl.
    change (EvState STRESS_STATE_RUN :: d ++ [EvState STRESS_STATE_DEINIT])
      with ([EvState STRESS_STATE_RUN] ++ d ++ [EvState STRESS_STATE_DEINIT]).
    rewrite !count_app.
    change (count Coverage.is_capget [EvState STRESS_STATE_RUN]) with 0%nat.
    change (count Coverage.is_capget [EvState STRESS_STATE_DEINIT]) with 0%nat.
    change (count Coverage.is_capset [EvState STRESS_STATE_RUN]) with 0%nat.
    change (count Coverage.is_capset [EvState STRESS_STATE_DEINIT]) with 0%nat.
    change (count is_inc [EvState STRESS_STATE_RUN]) with 0%nat.
    change (count is_inc [EvState STRESS_STATE_DEINIT]) with 0%nat.
    lia.
Qed.

Lemma X10_cap_seven_capgets_per_operation_witness :
  match Cap.stress_cap Examples.cap_failing 3 (mk_args "worker" 5 77 0)
                       Cap.init_state with
  | Some (_, st) => count Coverage.is_capget (Cap.log st) = 35%nat
  | None => False
  end.
Proof.
  destruct (Cap.stress_cap Examples.cap_failing 3 (mk_args "worker" 5 77 0)
                           Cap.init_state) as [[rc st]|] eqn:E.
  - destruct (X10_cap_seven_capgets_per_operation _ _ _ _ _ E) as (Hg & _).
    rewrite Hg. vm_compute in E. inversion E. reflexivity.
  - vm_compute in E. discriminate.
Defined.

(** X11: [stress_cap] never calls capset on another process: every
    capset of a returned run names the worker's own pid or INT_MIN,
    which names no process. *)
Theorem X11_cap_capset_only_on_own_pid :
  forall (e : Cap.env) fuel a rc st,
    Cap.stress_cap e fuel a Cap.init_state = Some (rc, st) ->
    List.forallb (Coverage.capset_own a) (Cap.log st) = true.
Proof.
  intros e fuel a rc st H.
  destruct (CapCoverage.stress_cap_holds
              e a (fun d => List.forallb (Coverage.capset_own a) d = true))
    with (fuel := fuel) (rc := rc) (st := st) as (d & Hl & Hd).
  - reflexivity.
  - intros d1 d2 H1 H2. rewrite List.forallb_app, H1, H2. reflexivity.
  - reflexivity.
  - intros p do_set x k u Hown. unfold Coverage.probe_log, Coverage.fail_events.
    rewrite !List.forallb_app.
    destruct ((fst (Cap.sys_ret e k) <? 0)
              && Cap.report_failure (snd (Cap.sys_ret e k)) x);
      destruct do_set; try reflexivity;
      rewrite (Hown eq_refl);
      destruct ((fst (Cap.sys_ret e (S k)) <? 0)
                && Cap.report_failure (snd (Cap.sys_ret e (S k))) x);
      cbn [List.forallb Coverage.capset_own List.app andb];
      rewrite !Z.eqb_refl, ?Bool.orb_true_r; reflexivity.
  - exact H.
  - rewrite Hl. cbn [List.forallb Coverage.capset_own andb].
    rewrite List.forallb_app, Hd. reflexivity.
Qed.

Lemma X11_cap_capset_only_on_own_pid_witness :
  match Cap.stress_cap Examples.cap_failing 3 (mk_args "worker" 5 77 0)
                       Cap.init_state with
  | Some (_, st) =>
    List.forallb (Coverage.capset_own (mk_args "worker" 5 77 0)) (Cap.log st) = true
  | None => False
  end.
Proof.
  destruct (Cap.stress_cap Examples.cap_failing 3 (mk_args "worker" 5 77 0)
                           Cap.init_state) as [[rc st]|] eqn:E.
  - exact (X11_cap_capset_only_on_own_pid _ _ _ _ _ E).
  - vm_compute in E. discriminate.
Defined.

(** X12: the loop of [stress_cap] is a do-while: every returned run has
    made one full probe of pid 1 before its first look at the
    keep-running predicate, and a worker whose flag is already down
    does exactly that probe, reports one operation and leaves. *)
Theorem X12_cap_probes_before_first_check :
  forall (e : Cap.env) fuel a rc st,
    Cap.stress_cap e fuel a Cap.init_state = Some (rc, st) ->
    exists d,
      Cap.log st
      = EvState STRESS_STATE_RUN
          :: Coverage.probe_log e a 1 false true 0 (Cap.unused_pid e 0)
          ++ EvCheck (keep_stressing (Cap.flag e 0) (max_ops a) 1)
          :: d ++ [EvState STRESS_STATE_DEINIT] /\
      (Cap.flag e 0 = false -> d = [] /\ Cap.counter st = 1).
Proof.
  intros e fuel a rc st H. unfold Cap.stress_cap in H.
  destruct fuel as [|fuel]; [discriminate|]. cbn [Cap.cap_loop] in H.
  destruct (Cap.cap_pass e a 0 (Cap.emit (EvState STRESS_STATE_RUN) Cap.init_state))
    as [again st1] eqn:Hpass.
  destruct (CapCoverage.cap_pass_first _ _ _ _ _ _ Hpass) as (d1 & Hl1 & Hdown).
  change (Cap.log (Cap.emit (EvState STRESS_STATE_RUN) Cap.init_state))
    with [EvState STRESS_STATE_RUN] in Hl1.
  change (Cap.nsys (Cap.emit (EvState STRESS_STATE_RUN) Cap.init_state))
    with 0%nat in Hl1.
  change (Cap.nunused (Cap.emit (EvState STRESS_STATE_RUN) Cap.init_state))
    with 0%nat in Hl1.
  change (Cap.ncheck (Cap.emit (EvState STRESS_STATE_RUN) Cap.init_state))
    with 0%nat in Hl1, Hdown.
  change (wrap64 (Cap.counter (Cap.emit (EvState STRESS_STATE_RUN) Cap.init_state)
                  + 1)) with 1 in Hl1, Hdown.
  destruct again.
  - destruct (Cap.cap_loop e a fuel 1 st1) as [st2|] eqn:Hloop; [|discriminate].
    inversion H; subst; clear H.
    destruct (CapProofs.cap_loop_log _ _ _ _ _ _ Hloop) as (d2 & Hl2 & _).
    exists (d1 ++ d2). split.
    + cbn [Cap.emit Cap.log]. rewrite Hl2, Hl1.
      repeat (progress cbn [List.app] || rewrite <- List.app_assoc).
      reflexivity.
    + intros Hf. destruct (Hdown Hf) as (Ha & _). discriminate.
  - inversion H; subst; clear H. exists d1. split.
    + cbn [Cap.emit Cap.log]. rewrite Hl1.
      repeat (progress cbn [List.app] || rewrite <- List.app_assoc).
      reflexivity.
    + intros Hf. destruct (Hdown Hf) as (_ & Hd & Hc).
      split; [exact Hd|exact Hc].
Qed.

Lemma X12_cap_probes_before_first_check_witness :
  match Cap.stress_cap Examples.cap_stopped 1 Examples.args_unbounded
                       Cap.init_state with
  | Some (_, st) => Cap.counter st = 1
  | None => False
  end.
Proof.
  destruct (Cap.stress_cap Examples.cap_stopped 1 Examples.args_unbounded
                           Cap.init_state) as [[rc st]|] eqn:E.
  - destruct (X12_cap_probes_before_first_check _ _ _ _ _ E) as (d & _ & Hdown).
    exact (proj2 (Hdown eq_refl)).
  - vm_compute in E. discriminate.
Defined.

(** X13: without a ceiling (max_ops = 0) and with the flag up for good,
    every look at the keep-running predicate answers true and
    [stress_cap] never returns, however long it is run. *)
Theorem X13_cap_unbounded_never_returns :
  forall (e : Cap.env) a,
    max_ops a = 0 -> (forall n, Cap.flag e n = true) ->
    forall fuel, Cap.stress_cap e fuel a Cap.init_state = None.
Proof.
  intros e a H0 Hf fuel. unfold Cap.stress_cap.
  rewrite (CapCoverage.cap_loop_unbounded e a H0 Hf). reflexivity.
Qed.

Lemma X13_cap_unbounded_never_returns_witness :
  Cap.stress_cap Examples.cap_failing 50 Examples.args_unbounded Cap.init_state
  = None.
Proof.
  apply X13_cap_unbounded_never_returns.
  - reflexivity.
  - intros n. reflexivity.
Defined.

(** X14: with or without a ceiling, once the flag is down for good
    (from its N-th reading on) [stress_cap] returns EXIT_SUCCESS within
    N + 1 passes of its loop, however long /proc is. *)
Theorem X14_cap_returns_once_flag_is_down :
  forall (e : Cap.env) a (N : nat),
    (forall n, (N <= n)%nat -> Cap.flag e n = false) ->
    forall fuel, (N < fuel)%nat ->
      exists st, Cap.stress_cap e fuel a Cap.init_state = Some (EXIT_SUCCESS, st).
Proof.
  intros e a N Hdown fuel Hfuel. unfold Cap.stress_cap.
  destruct (CapCoverage.cap_loop_stops
              e a N Hdown fuel 0%nat
              (Cap.emit (EvState STRESS_STATE_RUN) Cap.init_state))
    as (st' & Hl).
  - cbn. lia.
  - cbn. lia.
  - rewrite Hl. eexists. reflexivity.
Qed.

Lemma X14_cap_returns_once_flag_is_down_witness :
  exists st,
    Cap.stress_cap Examples.cap_interrupted 6 Examples.args_unbounded Cap.init_state
    = Some (EXIT_SUCCESS, st).
Proof.
  apply (X14_cap_returns_once_flag_is_down
           Examples.cap_interrupted Examples.args_unbounded 5).
  - intros n Hn. cbn [Examples.cap_interrupted Cap.flag].
    apply Nat.ltb_ge. exact Hn.
  - lia.
Defined.

(** X15: when one of the signal handlers cannot be installed and no
    signal reaches a handler that is already in place during the
    installation, [stress_watchdog] returns EXIT_FAILURE on the spot:
    the function itself logs nothing, no run state is set, the device
    is neither checked nor opened, and the counter stays at 0. *)
Theorem X15_watchdog_handler_install_failure :
  forall (e : Watchdog.env) a (i : nat),
    (i < Watchdog.nsigs e)%nat ->
    (forall k, (k <= i + 1)%nat -> Watchdog.async e k <> Watchdog.Signal) ->
    (forall j, (j < i)%nat -> 0 <= Watchdog.sighandler_ret e j) ->
    Watchdog.sighandler_ret e i < 0 ->
    forall n, (i + 2 <= n)%nat ->
      Watchdog.result (Watchdog.stress_watchdog e a n) = Some EXIT_FAILURE /\
      Watchdog.log (Watchdog.stress_watchdog e a n) = [] /\
      Watchdog.nopen (Watchdog.stress_watchdog e a n) = 0%nat /\
      Watchdog.counter (Watchdog.stress_watchdog e a n) = 0 /\
      Watchdog.clock (Watchdog.stress_watchdog e a n) = (i + 2)%nat.
Proof.
  intros e a i Hi Hs Hok Hneg n Hn.
  destruct (WatchdogCoverage.install_fails e a i Hs Hok Hi Hneg n Hn) as (fl & ->).
  repeat split.
Qed.

Lemma X15_watchdog_handler_install_failure_witness :
  Watchdog.result
    (Watchdog.stress_watchdog Examples.watchdog_bad_handler Examples.args_one 40)
  = Some EXIT_FAILURE.
Proof.
  apply (X15_watchdog_handler_install_failure
           Examples.watchdog_bad_handler Examples.args_one 2).
  - cbn. lia.
  - intros k _ H. discriminate H.
  - intros j Hj. destruct j as [|[|j]]; cbn; lia.
  - reflexivity.
  - lia.
Defined.

(** X16: when no handled signal arrives and the handlers install,
    [stress_watchdog] returns EXIT_FAILURE exactly when a close of the
    device failed. The failing close is the last one it makes, it is
    reported by exactly one pr_fail and is not counted; on every return
    the counter is the number of closes that succeeded. *)
Theorem X16_watchdog_failure_iff_close_failed :
  forall (e : Watchdog.env) a n r,
    Watchdog.unsignalled e -> Watchdog.handlers_ok e ->
    Watchdog.result (Watchdog.stress_watchdog e a n) = Some r ->
    (r = EXIT_FAILURE <->
     exists k, (k < Watchdog.nclose (Watchdog.stress_watchdog e a n))%nat /\
               Watchdog.close_ret e k < 0) /\
    (r = EXIT_SUCCESS \/ r = EXIT_FAILURE) /\
    count is_fail (Watchdog.log (Watchdog.stress_watchdog e a n))
    = (if exit_code_eqb r EXIT_FAILURE then 1 else 0)%nat /\
    (r = EXIT_SUCCESS ->
     Watchdog.counter (Watchdog.stress_watchdog e a n)
     = wrap64 (Z.of_nat (Watchdog.nclose (Watchdog.stress_watchdog e a n)))) /\
    (r = EXIT_FAILURE ->
     Watchdog.close_ret e (Nat.pred (Watchdog.nclose (Watchdog.stress_watchdog e a n)))
     < 0 /\
     Watchdog.counter (Watchdog.stress_watchdog e a n)
     = wrap64 (Z.of_nat (Nat.pred (Watchdog.nclose (Watchdog.stress_watchdog e a n))))).
Proof.
  intros e a n r Hu Hh Hr.
  destruct (WatchdogCoverage.close_audit_returned e a n r Hu Hh Hr)
    as [((_ & Hc & Hb & Hn) & ->) | ((_ & Hc & Hpos & Hneg & Hb & Hn) & ->)].
  - split; [split; [discriminate|]|].
    { intros (k & Hk & Hlt). specialize (Hb k Hk). lia. }
    split; [left; reflexivity|]. split; [exact Hc|].
    split; [intros _; exact Hn|discriminate].
  - split; [split; [intros _|reflexivity]|].
    { exists (Nat.pred (Watchdog.nclose (Watchdog.stress_watchdog e a n))).
      split; [lia|exact Hneg]. }
    split; [right; reflexivity|]. split; [exact Hc|].
    split; [discriminate|]. intros _. split; [exact Hneg|exact Hn].
Qed.

Lemma X16_watchdog_failure_iff_close_failed_witness :
  match Watchdog.result
          (Watchdog.stress_watchdog Examples.watchdog_bad_close
                                    (mk_args "worker" 5 77 0) 60) with
  | Some r => r = EXIT_FAILURE
  | None => False
  end.
Proof.
  destruct (Watchdog.result
              (Watchdog.stress_watchdog Examples.watchdog_bad_close
                                        (mk_args "worker" 5 77 0) 60))
    as [r|] eqn:E; [|vm_compute in E; discriminate].
  apply (X16_watchdog_failure_iff_close_failed
           Examples.watchdog_bad_close (mk_args "worker" 5 77 0) 60 r).
  - intros k H. discriminate H.
  - intros i. cbn. lia.
  - exact E.
  - exists 1%nat. split; [vm_compute; lia|reflexivity].
Defined.

(** X17: siglongjmp never lands in a jmp_env that was not filled: when
    no handled signal arrives during the first nsigs + 5 statements,
    that is before sigsetjmp has run, no run of [stress_watchdog] ever
    reaches the undefined jump, whatever arrives later. *)
Theorem X17_watchdog_jump_is_defined :
  forall (e : Watchdog.env) a,
    (forall k, (k <= Watchdog.nsigs e + 4)%nat ->
               Watchdog.async e k <> Watchdog.Signal) ->
    forall n, Watchdog.pc (Watchdog.stress_watchdog e a n) <> Watchdog.Undefined.
Proof.
  intros e a Hu n. apply WatchdogCoverage.never_undefined. exact Hu.
Qed.

Lemma X17_watchdog_jump_is_defined_witness :
  Watchdog.pc (Watchdog.stress_watchdog (Examples.watchdog_signal_at 20)
                                        Examples.args_one 50)
  <> Watchdog.Undefined.
Proof.
  apply X17_watchdog_jump_is_defined.
  intros k Hk. cbn in Hk. cbn [Watchdog.async Examples.watchdog_signal_at].
  replace (k =? 20)%nat with false by (symmetry; apply Nat.eqb_neq; lia).
  discriminate.
Defined.

(** X18: a stop request is honoured within one pass of the loop: when
    the flag is cleared before the k-th statement and no handled signal
    arrives afterwards (nor before sigsetjmp), [stress_watchdog] has
    returned after at most nsigs + 21 further statements. *)
Theorem X18_watchdog_stop_is_honoured :
  forall (e : Watchdog.env) a (k : nat),
    Watchdog.async e k = Watchdog.Stop ->
    (forall j, (j <= Watchdog.nsigs e + 4)%nat ->
               Watchdog.async e j <> Watchdog.Signal) ->
    (forall j, (k < j)%nat -> Watchdog.async e j <> Watchdog.Signal) ->
    forall n, (k + Watchdog.nsigs e + 21 <= n)%nat ->
      exists r, Watchdog.result (Watchdog.stress_watchdog e a n) = Some r.
Proof.
  intros e a k Hstop Hpre Hpost n Hn.
  pose proof (WatchdogCoverage.stop_is_honoured e a k Hstop Hpost n Hn) as Hf.
  pose proof (WatchdogCoverage.never_undefined e a n Hpre) as Hd.
  unfold Watchdog.result.
  destruct (Watchdog.pc (Watchdog.stress_watchdog e a n)); try discriminate.
  - eexists. reflexivity.
  - contradiction.
Qed.

Lemma X18_watchdog_stop_is_honoured_witness :
  exists r,
    Watchdog.result
      (Watchdog.stress_watchdog (Examples.watchdog_stop_at 30)
                                Examples.args_unbounded 60)
    = Some r.
Proof.
  apply (X18_watchdog_stop_is_honoured
           (Examples.watchdog_stop_at 30) Examples.args_unbounded 30).
  - reflexivity.
  - intros j _. cbn [Watchdog.async Examples.watchdog_stop_at].
    destruct (j =? 30)%nat; discriminate.
  - intros j _. cbn [Watchdog.async Examples.watchdog_stop_at].
    destruct (j =? 30)%nat; discriminate.
  - cbn. lia.
Defined.

(** X19: without a ceiling (max_ops = 0), with the handlers installed,
    the device accessible and every close succeeding, [stress_watchdog]
    returns only after its flag has been cleared; when nothing arrives
    at all it never returns. *)
Theorem X19_watchdog_unbounded_needs_the_flag :
  forall (e : Watchdog.env) a,
    max_ops a = 0 -> Watchdog.handlers_ok e -> 0 <= Watchdog.access_ret e ->
    Watchdog.closes_ok e ->
    (forall n r,
        Watchdog.result (Watchdog.stress_watchdog e a n) = Some r ->
        Watchdog.keep_flag (Watchdog.stress_watchdog e a n) = false) /\
    (Watchdog.quiet e ->
     forall n, Watchdog.result (Watchdog.stress_watchdog e a n) = None).
Proof.
  intros e a H0 Hh Hacc Hc. split.
  - intros n r Hr.
    exact (WatchdogCoverage.unbounded_returns_flag_down e a n r H0 Hh Hacc Hc Hr).
  - intros Hq n.
    destruct (Watchdog.result (Watchdog.stress_watchdog e a n)) as [r|] eqn:Hr;
      [|reflexivity].
    pose proof (WatchdogCoverage.unbounded_returns_flag_down
                  e a n r H0 Hh Hacc Hc Hr) as Hdown.
    rewrite (WatchdogCoverage.quiet_flag_up e a n Hq) in Hdown. discriminate.
Qed.

Lemma X19_watchdog_unbounded_needs_the_flag_witness :
  Watchdog.result
    (Watchdog.stress_watchdog Examples.watchdog_quiet Examples.args_unbounded 500)
  = None.
Proof.
  apply (X19_watchdog_unbounded_needs_the_flag
           Examples.watchdog_quiet Examples.args_unbounded).
  - reflexivity.
  - intros i. cbn. lia.
  - cbn. lia.
  - intros i. cbn. lia.
  - intros k. reflexivity.
Defined.

(** X20: line 132 sets the descriptor variable to 0 before sigsetjmp.
    A handled signal that arrives right after RUN is set, before the
    device has ever been opened, therefore finds fd = 0: the handler
    writes the magic character to descriptor 0, the code behind the
    resume point writes it again and closes descriptor 0, and the
    function returns EXIT_SUCCESS without DEINIT. *)
Theorem X20_watchdog_signal_before_first_open :
  forall (e : Watchdog.env) a,
    Watchdog.handlers_ok e -> 0 <= Watchdog.access_ret e ->
    (forall j, Watchdog.async e j
               = if (j =? Watchdog.nsigs e + 6)%nat then Watchdog.Signal
                 else Watchdog.Quiet) ->
    Watchdog.result (Watchdog.stress_watchdog e a (Watchdog.nsigs e + 14))
    = Some EXIT_SUCCESS /\
    Watchdog.log (Watchdog.stress_watchdog e a (Watchdog.nsigs e + 14))
    = [EvState STRESS_STATE_RUN; EvSys (SysWrite 0); EvSys (SysWrite 0);
       EvSys (SysClose 0)] /\
    Watchdog.nopen (Watchdog.stress_watchdog e a (Watchdog.nsigs e + 14)) = 0%nat.
Proof.
  intros e a Hh Hacc Ha.
  rewrite (WatchdogCoverage.signal_before_first_open e a Hh Hacc Ha).
  repeat split.
Qed.

Lemma X20_watchdog_signal_before_first_open_witness :
  Watchdog.log
    (Watchdog.stress_watchdog (Examples.watchdog_signal_at 15) Examples.args_one 23)
  = [EvState STRESS_STATE_RUN; EvSys (SysWrite 0); EvSys (SysWrite 0);
     EvSys (SysClose 0)].
Proof.
  apply (X20_watchdog_signal_before_first_open
           (Examples.watchdog_signal_at 15) Examples.args_one).
  - intros i. cbn. lia.
  - cbn. lia.
  - intros j. reflexivity.
Defined.

(** X21: one pass of the watchdog loop on an undisturbed host, from the
    loop condition back to it: the device is opened, the magic
    character is written, the eight ioctl requests are issued on the
    new descriptor in source order (the block guarded by
    WDIOC_GETPRETIMEOUT a second time asks for the time left, the block
    guarded by WDIOC_GETTEMP asks for the boot status again), the magic
    character is written again, the descriptor is closed and reset to
    -1, the processor is yielded, and one operation is counted. *)
Theorem X21_watchdog_pass_trace :
  forall (e : Watchdog.env) a fd0 cnt r0 rt js lg no nc clk,
    Watchdog.quiet e ->
    0 <= Watchdog.open_ret e no -> 0 <= Watchdog.close_ret e nc ->
    keep_stressing true (max_ops a) cnt = true ->
    Watchdog.run e a 18
                 (Watchdog.mk_config Watchdog.L145 fd0 true cnt r0 rt js lg no nc clk)
    = Watchdog.mk_config
        Watchdog.L145 (-1) true (wrap64 (cnt + 1)) r0 (Watchdog.close_ret e nc) js
        (lg ++ [EvCheck true; EvSys (SysOpen (Watchdog.open_ret e no));
                EvSys (SysWrite (Watchdog.open_ret e no))]
            ++ List.map (fun r => EvSys (SysIoctl (Watchdog.open_ret e no) r))
                        [ "WDIOC_KEEPALIVE"; "WDIOC_GETTIMEOUT";
                          "WDIOC_GETPRETIMEOUT"; "WDIOC_GETTIMELEFT";
                          "WDIOC_GETSUPPORT"; "WDIOC_GETSTATUS";
                          "WDIOC_GETBOOTSTATUS"; "WDIOC_GETBOOTSTATUS" ]%string
            ++ [EvSys (SysWrite (Watchdog.open_ret e no));
                EvSys (SysClose (Watchdog.open_ret e no));
                EvSys SysSchedYield; EvInc])
        (S no) (S nc) (18 + clk).
Proof.
  intros e a fd0 cnt r0 rt js lg no nc clk Hq Ho Hc Hk.
  exact (WatchdogCoverage.pass_trace e a Hq fd0 cnt r0 rt js lg no nc clk Ho Hc Hk).
Qed.

Lemma X21_watchdog_pass_trace_witness :
  Watchdog.counter
    (Watchdog.run Examples.watchdog_quiet Examples.args_unbounded 18
                  (Watchdog.mk_config Watchdog.L145 0 true 7 EXIT_SUCCESS 0 true []
                                      0 0 15))
  = 8.
Proof.
  rewrite (X21_watchdog_pass_trace
             Examples.watchdog_quiet Examples.args_unbounded 0 7 EXIT_SUCCESS 0 true
             [] 0%nat 0%nat 15%nat).
  - reflexivity.
  - intros k. reflexivity.
  - cbn. lia.
  - cbn. lia.
  - reflexivity.
Defined.
